(** * Traycer PoC: the tasks.md parser ([parseTasksFile] of src/extension.js)

    A shallow embedding of the task-list parser of the extension and of the
    few JavaScript string and regular-expression operations it relies on,
    then of the two tree views, of the commands on phases and workflow
    steps and of the copy of the setup files, followed by their properties.

    JavaScript strings are sequences of UTF-16 code units; a code unit is
    modelled as an [N] and a string as a list of code units, so that
    [length], [substring], [trim] and the [.] of a regular expression see
    exactly what the engine sees. *)

From Stdlib Require Import Ascii String DecimalString.
From Stdlib Require Import List NArith Bool Arith Lia Sorted.
Import ListNotations.

Set Implicit Arguments.
Set Warnings "-register-all".

(** ** JavaScript strings *)

Definition code_unit := N.
Definition jsstring := list code_unit.

(** An ASCII literal as a JavaScript string. *)
Definition js (s : string) : jsstring :=
  map N_of_ascii (list_ascii_of_string s).

(** Every code unit of a real string is below 2^16. *)
Definition well_formed (s : jsstring) : bool :=
  forallb (fun c => (c <? 65536)%N) s.

Definition LF : code_unit := 10%N.
Definition CR : code_unit := 13%N.

Fixpoint jsstring_eqb (a b : jsstring) : bool :=
  match a, b with
  | [], [] => true
  | x :: a', y :: b' => N.eqb x y && jsstring_eqb a' b'
  | _, _ => false
  end.

(** [s.startsWith(p)] *)
Fixpoint startsWith (p s : jsstring) : bool :=
  match p, s with
  | [], _ => true
  | x :: p', y :: s' => N.eqb x y && startsWith p' s'
  | _ :: _, [] => false
  end.

(** [s.includes(sub)] *)
Fixpoint includes (s sub : jsstring) : bool :=
  startsWith sub s ||
  match s with
  | [] => false
  | _ :: s' => includes s' sub
  end.

(** [s.substring(0, n)] *)
Definition substring0 (n : nat) (s : jsstring) : jsstring := firstn n s.

(** [content.split('\n')]: the empty string gives one empty line, and a
    trailing line feed gives a last empty line. *)
Fixpoint split_lines (s : jsstring) : list jsstring :=
  match s with
  | [] => [[]]
  | c :: s' =>
      if N.eqb c LF then [] :: split_lines s'
      else match split_lines s' with
           | l :: ls => (c :: l) :: ls
           | [] => [[c]]
           end
  end.

(** WhiteSpace and LineTerminator code points, the ones [trim] removes. *)
Definition is_whitespace (c : code_unit) : bool :=
  ((9 <=? c) && (c <=? 13) || (c =? 32) || (c =? 160) || (c =? 5760)
   || (8192 <=? c) && (c <=? 8202) || (c =? 8232) || (c =? 8233)
   || (c =? 8239) || (c =? 8287) || (c =? 12288) || (c =? 65279))%N.

Fixpoint trimStart (s : jsstring) : jsstring :=
  match s with
  | c :: s' => if is_whitespace c then trimStart s' else s
  | [] => []
  end.

Definition trimEnd (s : jsstring) : jsstring := rev (trimStart (rev s)).

Definition trim (s : jsstring) : jsstring := trimEnd (trimStart s).

(** [toLowerCase] on the ASCII letters; the parser applies it only to the
    text captured by the class [[ xX]]. *)
Definition toLowerCase (s : jsstring) : jsstring :=
  map (fun c => if ((65 <=? c) && (c <=? 90))%N then (c + 32)%N else c) s.

(** ** Regular expressions

    The fragment the parser uses: literal text, one character of a class, a
    greedy [+] over a class, sequencing and capture groups.  Matching
    backtracks as the engine does: a greedy [+] first takes as many
    characters as it can and gives them back one at a time when what follows
    fails. *)

Inductive regex :=
| Lit (s : jsstring)
| Class (p : code_unit -> bool)
| Plus (p : code_unit -> bool)
| Seq (r1 r2 : regex)
| Group (r : regex).

(** [\d] *)
Definition digit (c : code_unit) : bool := ((48 <=? c) && (c <=? 57))%N.

(** [.] without the [s] flag: anything but a line terminator. *)
Definition dot (c : code_unit) : bool :=
  negb ((c =? 10) || (c =? 13) || (c =? 8232) || (c =? 8233))%N.

(** [[ xX]] *)
Definition marker (c : code_unit) : bool :=
  ((c =? 32) || (c =? 120) || (c =? 88))%N.

Section Matcher.
Variable A : Type.

(** The continuation receives the text matched, the groups captured while
    matching it, and the rest of the input. *)
Definition cont := jsstring -> list jsstring -> jsstring -> option A.

(** [taken] has already been consumed by the quantifier (in order). *)
Fixpoint plus_more (p : code_unit -> bool) (k : cont)
         (taken : jsstring) (s : jsstring) : option A :=
  match s with
  | c :: s' =>
      if p c then
        match plus_more p k (taken ++ [c]) s' with
        | Some r => Some r
        | None => k taken [] s
        end
      else k taken [] s
  | [] => k taken [] s
  end.

Fixpoint lit (l : jsstring) (s : jsstring) : option jsstring :=
  match l, s with
  | [], _ => Some s
  | x :: l', y :: s' => if N.eqb x y then lit l' s' else None
  | _ :: _, [] => None
  end.

Fixpoint rx (r : regex) (s : jsstring) (k : cont) : option A :=
  match r with
  | Lit l =>
      match lit l s with
      | Some rest => k l [] rest
      | None => None
      end
  | Class p =>
      match s with
      | c :: s' => if p c then k [c] [] s' else None
      | [] => None
      end
  | Plus p =>
      match s with
      | c :: s' => if p c then plus_more p k [c] s' else None
      | [] => None
      end
  | Seq r1 r2 =>
      rx r1 s (fun m1 g1 s1 =>
      rx r2 s1 (fun m2 g2 s2 => k (m1 ++ m2) (g1 ++ g2) s2))
  | Group r1 =>
      rx r1 s (fun m g s1 => k m (m :: g) s1)
  end.
End Matcher.

Unset Implicit Arguments.

(** A match attempt at the start of [s]: the match array [[m0; g1; g2; ...]]
    and the text after the match. *)
Definition match_here (r : regex) (s : jsstring)
  : option (list jsstring * jsstring) :=
  rx r s (fun m g rest => Some (m :: g, rest)).

(** A pattern is its body and whether it starts with [^]; without the [m]
    flag [^] holds at index 0 only, so an anchored pattern is tried there
    and nowhere else. *)
Record pattern := { anchored : bool; body : regex }.

(** Leftmost match of an unanchored body. *)
Fixpoint search (r : regex) (s : jsstring) : option (list jsstring) :=
  match match_here r s with
  | Some (res, _) => Some res
  | None =>
      match s with
      | [] => None
      | _ :: s' => search r s'
      end
  end.

(** [s.match(p)] for a pattern without the [g] flag: [null] or the match
    array. *)
Definition String_match (s : jsstring) (p : pattern)
  : option (list jsstring) :=
  if anchored p then option_map fst (match_here (body p) s)
  else search (body p) s.

(** [s.replace(p, '')] for an unanchored pattern with the [g] flag: matches
    are found left to right, each search resuming where the previous match
    ended, and every match is deleted.  [skip] counts the characters of the
    current match still to be dropped; an empty match leaves the text
    alone. *)
Fixpoint delete_all (r : regex) (skip : nat) (s : jsstring) : jsstring :=
  match s with
  | [] => []
  | c :: s' =>
      match skip with
      | S n => delete_all r n s'
      | O =>
          match match_here r s with
          | Some (m0 :: _, _) =>
              match length m0 with
              | S n => delete_all r n s'
              | O => c :: delete_all r 0 s'
              end
          | _ => c :: delete_all r 0 s'
          end
      end
  end.

Definition String_replace_g (s : jsstring) (r : regex) : jsstring :=
  delete_all r 0 s.

(** ** The tree items of the extension *)

(** [vscode.TreeItemCollapsibleState] *)
Inductive TreeItemCollapsibleState := None_ | Collapsed | Expanded.

(** The [taskData] object literal of a task item. *)
Record TaskData := {
  taskId : jsstring;
  description : jsstring;
  isCompleted : bool;
  hasParallel : bool;
  story : jsstring;
  lineNumber : nat
}.

(** The [vscode.open] command of a task item: the file and the line its
    selection range starts and ends at. *)
Record OpenCommand := {
  command_name : jsstring;
  command_title : jsstring;
  command_file : jsstring;
  command_line : nat
}.

(** [class TaskItem extends vscode.TreeItem].  A field the constructor leaves
    unset is [None]; [tasks] is assigned by the parser when a phase is
    closed. *)
Inductive TaskItem := Build_TaskItem {
  label : jsstring;
  collapsibleState : TreeItemCollapsibleState;
  type : jsstring;
  filePath : jsstring;
  taskData : option TaskData;
  contextValue : jsstring;
  tooltip : option jsstring;
  itemDescription : option jsstring;
  command : option OpenCommand;
  iconPath : option jsstring;
  tasks : option (list TaskItem)
}.

(** [new TaskItem(label, filePath, type, collapsibleState, taskData)] *)
Definition new_TaskItem (label_ filePath_ type_ : jsstring)
           (state : TreeItemCollapsibleState) (data : option TaskData)
  : TaskItem :=
  let plain :=
    {| label := label_; collapsibleState := state; type := type_;
       filePath := filePath_; taskData := data; contextValue := type_;
       tooltip := None; itemDescription := None; command := None;
       iconPath := None; tasks := None |} in
  match jsstring_eqb type_ (js "task"), data with
  | true, Some d =>
      {| label := label_; collapsibleState := state; type := type_;
         filePath := filePath_; taskData := data; contextValue := type_;
         tooltip := Some (description d);
         itemDescription :=
           Some (if isCompleted d then js "(completed)" else []);
         command :=
           Some {| command_name := js "vscode.open";
                   command_title := js "Open Task";
                   command_file := filePath_;
                   command_line := lineNumber d |};
         iconPath := None; tasks := None |}
  | _, _ =>
      if jsstring_eqb type_ (js "phase") then
        {| label := label_; collapsibleState := state; type := type_;
           filePath := filePath_; taskData := data; contextValue := type_;
           tooltip := None; itemDescription := None; command := None;
           iconPath := Some (js "folder"); tasks := None |}
      else plain
  end.

(** [item.tasks = ts] *)
Definition set_tasks (item : TaskItem) (ts : list TaskItem) : TaskItem :=
  {| label := label item; collapsibleState := collapsibleState item;
     type := type item; filePath := filePath item;
     taskData := taskData item; contextValue := contextValue item;
     tooltip := tooltip item; itemDescription := itemDescription item;
     command := command item; iconPath := iconPath item;
     tasks := Some ts |}.

(** ** The patterns of [parseTasksFile] *)

(** [/^## (Phase \d+): (.+)/] *)
Definition re_phase : pattern :=
  {| anchored := true;
     body := Seq (Lit (js "## "))
            (Seq (Group (Seq (Lit (js "Phase ")) (Plus digit)))
            (Seq (Lit (js ": "))
                 (Group (Plus dot)))) |}.

(** [/^- \[([ xX])\] (T\d+)(.+)/] *)
Definition re_task : pattern :=
  {| anchored := true;
     body := Seq (Lit (js "- ["))
            (Seq (Group (Class marker))
            (Seq (Lit (js "] "))
            (Seq (Group (Seq (Lit (js "T")) (Plus digit)))
                 (Group (Plus dot))))) |}.

(** [/\[P\]/g] *)
Definition re_P : regex := Lit (js "[P]").

(** [/\[US\d+\]/], with and without the [g] flag *)
Definition re_US : regex :=
  Seq (Lit (js "[US")) (Seq (Plus digit) (Lit (js "]"))).

(** [m[i]] of a match array *)
Definition group (m : list jsstring) (i : nat) : jsstring := nth i m [].

(** The icons of a task label: U+2713, U+26A1, U+25CB. *)
Definition icon_done : jsstring := [10003%N].
Definition icon_parallel : jsstring := [9889%N].
Definition icon_open : jsstring := [9675%N].

(** ** [parseTasksFile] *)

(** The cleaned description before truncation:
    [description.replace(/\[P\]/g, '').replace(/\[US\d+\]/g, '').trim()] *)
Definition clean (description_ : jsstring) : jsstring :=
  trim (String_replace_g (String_replace_g description_ re_P) re_US).

(** [if (cleanDesc.length > 80) cleanDesc = cleanDesc.substring(0, 77) + '...'] *)
Definition truncate (cleanDesc : jsstring) : jsstring :=
  if 80 <? length cleanDesc then substring0 77 cleanDesc ++ js "..."
  else cleanDesc.

(** The body of [if (taskMatch && currentPhase)]: the item built from the
    match array of a task line at index [i]. *)
Definition task_item (filePath_ : jsstring) (i : nat)
           (taskMatch : list jsstring) : TaskItem :=
  let isCompleted_ := jsstring_eqb (toLowerCase (group taskMatch 1)) (js "x") in
  let taskId_ := group taskMatch 2 in
  let description_ := trim (group taskMatch 3) in
  let hasParallel_ := includes description_ (js "[P]") in
  let storyMatch := String_match description_
                      {| anchored := false; body := re_US |} in
  let story_ := match storyMatch with
                | Some m => group m 0
                | None => []
                end in
  let cleanDesc := truncate (clean description_) in
  let label_ := trim (taskId_ ++ js " " ++ story_ ++ js " " ++ cleanDesc) in
  let icon := if isCompleted_ then icon_done
              else if hasParallel_ then icon_parallel else icon_open in
  new_TaskItem (icon ++ js " " ++ label_) filePath_ (js "task") None_
    (Some {| taskId := taskId_; description := cleanDesc;
             isCompleted := isCompleted_; hasParallel := hasParallel_;
             story := story_; lineNumber := i |}).

(** The item built from the match array of a phase header:
    [new TaskItem(`${phaseMatch[1]}: ${phaseMatch[2]}`, filePath, 'phase',
                  vscode.TreeItemCollapsibleState.Collapsed)] *)
Definition phase_item (filePath_ : jsstring) (phaseMatch : list jsstring)
  : TaskItem :=
  let phaseName := group phaseMatch 1 ++ js ": " ++ group phaseMatch 2 in
  new_TaskItem phaseName filePath_ (js "phase") Collapsed None.

(** The local variables of the loop. *)
Record loop_state := {
  phases : list TaskItem;
  currentPhase : option TaskItem;
  currentTasks : list TaskItem
}.

Definition initial_state : loop_state :=
  {| phases := []; currentPhase := None; currentTasks := [] |}.

(** [if (currentPhase) { currentPhase.tasks = currentTasks;
                         phases.push(currentPhase); }] *)
Definition close_phase (st : loop_state) : list TaskItem :=
  match currentPhase st with
  | Some p => phases st ++ [set_tasks p (currentTasks st)]
  | None => phases st
  end.

(** One iteration of the [for] loop, on [lines[i]]. *)
Definition loop_body (filePath_ : jsstring) (i : nat) (line : jsstring)
           (st : loop_state) : loop_state :=
  match String_match line re_phase with
  | Some phaseMatch =>
      {| phases := close_phase st;
         currentPhase := Some (phase_item filePath_ phaseMatch);
         currentTasks := [] |}
  | None =>
      match String_match line re_task, currentPhase st with
      | Some taskMatch, Some _ =>
          {| phases := phases st;
             currentPhase := currentPhase st;
             currentTasks :=
               currentTasks st ++ [task_item filePath_ i taskMatch] |}
      | _, _ => st
      end
  end.

(** [for (let i = ...; i < lines.length; i++)] over the lines from index
    [i] on. *)
Fixpoint loop (filePath_ : jsstring) (i : nat) (lines : list jsstring)
         (st : loop_state) : loop_state :=
  match lines with
  | [] => st
  | line :: rest => loop filePath_ (S i) rest (loop_body filePath_ i line st)
  end.

(** The parser on the text of the file. *)
Definition parse (filePath_ content : jsstring) : list TaskItem :=
  close_phase (loop filePath_ 0 (split_lines content) initial_state).

(** The file system as [fs.readFileSync(path, 'utf8')] sees it: the decoded
    text of a file, or nothing where reading throws. *)
Definition file_system := jsstring -> option jsstring.

(** [parseTasksFile(filePath)]: the promise is fulfilled with the phases
    ([Some]) or rejected with the error of [readFileSync] ([None]). *)
Definition parseTasksFile (fs : file_system) (filePath_ : jsstring)
  : option (list TaskItem) :=
  match fs filePath_ with
  | Some content => Some (parse filePath_ content)
  | None => None
  end.

(** The five-line document of the specification. *)
Definition nl : jsstring := [LF].
Definition example_doc : jsstring :=
  js "## Phase 1: Setup" ++ nl ++
  js "- [x] T001 Initialize project [US1]" ++ nl ++
  js "- [ ] T002 Add linting [P]" ++ nl ++
  js "## Phase 2: Build" ++ nl ++
  js "- [ ] T003 Compile sources [P][US2]".

(** ** Vocabulary of the statements *)

(** [element.tasks || []], what [getChildren] shows under a phase. *)
Definition children (element : TaskItem) : list TaskItem :=
  match tasks element with
  | Some ts => ts
  | None => []
  end.

(** The source line of a task item ([taskData.lineNumber]). *)
Definition line_of (t : TaskItem) : nat :=
  match taskData t with
  | Some d => lineNumber d
  | None => 0
  end.

(** The line matches the phase-header pattern. *)
Definition is_phase_header (line : jsstring) : bool :=
  match String_match line re_phase with
  | Some _ => true
  | None => false
  end.

(** The line matches the task pattern. *)
Definition is_task_line (line : jsstring) : bool :=
  match String_match line re_task with
  | Some _ => true
  | None => false
  end.

(** The label of the phase a header line opens. *)
Definition phase_name (line : jsstring) : jsstring :=
  match String_match line re_phase with
  | Some phaseMatch => group phaseMatch 1 ++ js ": " ++ group phaseMatch 2
  | None => []
  end.

(** A phase as the tests of the specification look at it: its name and the
    data of its tasks. *)
Definition phase_view (p : TaskItem) : jsstring * list (option TaskData) :=
  (label p, map taskData (children p)).

(** The longest prefix of [s] inside the class [p], and what follows it. *)
Fixpoint span (p : code_unit -> bool) (s : jsstring) : jsstring * jsstring :=
  match s with
  | c :: s' =>
      if p c then let (a, b) := span p s' in (c :: a, b) else ([], s)
  | [] => ([], [])
  end.

(** The length of the match of [r] at the start of [s], 0 when there is
    none. *)
Definition match_len (r : regex) (s : jsstring) : nat :=
  match match_here r s with
  | Some (m0 :: _, _) => length m0
  | _ => 0
  end.

(** [t] is the parallel tag. *)
Definition is_P_tag (t : jsstring) : Prop := t = js "[P]".

(** [t] is a story tag: [[US], one or more digits, []]. *)
Definition is_US_tag (t : jsstring) : Prop :=
  exists ds, ds <> [] /\ Forall (fun c => digit c = true) ds /\
             t = js "[US" ++ ds ++ js "]".

(** The tag-stripping of the specification: [tags_stripped tag s x] says
    that [x] is the text [s] read from left to right with every tag left
    out; where no tag begins, the character is kept. *)
Inductive tags_stripped (tag : jsstring -> Prop)
  : jsstring -> jsstring -> Prop :=
| stripped_end : tags_stripped tag [] []
| stripped_tag t s x :
    tag t -> tags_stripped tag s x -> tags_stripped tag (t ++ s) x
| stripped_keep c s x :
    (forall t rest, tag t -> c :: s <> t ++ rest) ->
    tags_stripped tag s x -> tags_stripped tag (c :: s) (c :: x).

(** The white-space trimming of the specification: [x] is [s] without the
    white space at its two ends. *)
Definition trimmed (s x : jsstring) : Prop :=
  exists l r : jsstring,
    s = l ++ x ++ r /\
    Forall (fun c => is_whitespace c = true) l /\
    Forall (fun c => is_whitespace c = true) r /\
    (forall c rest, x = c :: rest -> is_whitespace c = false) /\
    (forall front c, x = front ++ [c] -> is_whitespace c = false).

(** The parser read off the document instead of accumulated in loop
    variables: the tasks of the lines from index [i] up to the next header,
    and the phases opened by the headers from index [i] on. *)
Fixpoint tasks_until_header (filePath_ : jsstring) (i : nat)
         (lines : list jsstring) : list TaskItem :=
  match lines with
  | [] => []
  | line :: rest =>
      match String_match line re_phase with
      | Some _ => []
      | None =>
          match String_match line re_task with
          | Some taskMatch =>
              task_item filePath_ i taskMatch
              :: tasks_until_header filePath_ (S i) rest
          | None => tasks_until_header filePath_ (S i) rest
          end
      end
  end.

Fixpoint phases_from (filePath_ : jsstring) (i : nat)
         (lines : list jsstring) : list TaskItem :=
  match lines with
  | [] => []
  | line :: rest =>
      match String_match line re_phase with
      | Some phaseMatch =>
          set_tasks (phase_item filePath_ phaseMatch)
                    (tasks_until_header filePath_ (S i) rest)
          :: phases_from filePath_ (S i) rest
      | None => phases_from filePath_ (S i) rest
      end
  end.

(** ** Documents of the examples *)

(** A document with one task whose text is 90 characters long, and one whose
    raw text is longer than 80 characters only because of its tags. *)
Definition long_doc : jsstring :=
  js "## Phase 1: Setup" ++ nl ++
  js "- [ ] T001 " ++ repeat 97%N 90 ++ nl ++
  js "- [ ] T002 [P] [US12] " ++ repeat 98%N 78.

(** The default for [nth] on a list of items. *)
Definition no_item : TaskItem := new_TaskItem [] [] [] None_ None.


(** ** The task view: [SpecTaskProvider] *)

(** What the extension asks of its host: [path.join], the three [fs] calls
    it uses for reading ([None] where the call throws), and the path of the
    first workspace folder
    ([vscode.workspace.workspaceFolders?.[0].uri.fsPath]). *)
Record host := {
  path_join : list jsstring -> jsstring;
  existsSync : jsstring -> bool;
  readdirSync : jsstring -> option (list jsstring);
  readFileSync : file_system;
  workspaceFolder : option jsstring
}.

(** [new TaskItem(text, '', 'info', vscode.TreeItemCollapsibleState.None)] *)
Definition info_item (text : jsstring) : TaskItem :=
  new_TaskItem text [] (js "info") None_ None.

(** The [for (const feature of features)] loop of [findTasksFiles];
    [found] is the array [phases]. *)
Fixpoint collect_phases (h : host) (specsPath : jsstring)
         (features : list jsstring) (found : list TaskItem)
  : option (list TaskItem) :=
  match features with
  | [] => Some found
  | feature :: rest =>
      let tasksPath := path_join h [specsPath; feature; js "tasks.md"] in
      if existsSync h tasksPath then
        match parseTasksFile (readFileSync h) tasksPath with
        | Some phasesFromFile =>
            collect_phases h specsPath rest (found ++ phasesFromFile)
        | None => None
        end
      else collect_phases h specsPath rest found
  end.

(** [findTasksFiles()] *)
Definition findTasksFiles (h : host) : option (list TaskItem) :=
  match workspaceFolder h with
  | None => Some []
  | Some folder =>
      let specsPath := path_join h [folder; js "specs"] in
      if negb (existsSync h specsPath) then
        Some [info_item (js "No specs/ folder found")]
      else
        match readdirSync h specsPath with
        | None => None
        | Some features =>
            match collect_phases h specsPath features [] with
            | Some found =>
                Some (if 0 <? length found then found
                      else [info_item (js "No tasks found")])
            | None => None
            end
        end
  end.

(** [getChildren(element)]; the root is asked for with no element. *)
Definition getChildren (h : host) (element : option TaskItem)
  : option (list TaskItem) :=
  match element with
  | None => findTasksFiles h
  | Some e =>
      if jsstring_eqb (type e) (js "phase") then Some (children e)
      else Some []
  end.

(** The phases of one feature folder, as [findTasksFiles] gathers them when
    nothing throws. *)
Definition phases_of_feature (h : host) (specsPath feature : jsstring)
  : list TaskItem :=
  let tasksPath := path_join h [specsPath; feature; js "tasks.md"] in
  if existsSync h tasksPath then
    match readFileSync h tasksPath with
    | Some content => parse tasksPath content
    | None => []
    end
  else [].

(** A workspace with two features, the second without a [tasks.md]. *)
Definition example_host : host :=
  {| path_join := fun parts =>
       match parts with
       | [] => js "."
       | p :: ps => p ++ concat (map (fun q => js "/" ++ q) ps)
       end;
     existsSync := fun p =>
       jsstring_eqb p (js "/ws/specs") ||
       jsstring_eqb p (js "/ws/specs/001-calc/tasks.md");
     readdirSync := fun p =>
       if jsstring_eqb p (js "/ws/specs")
       then Some [js "001-calc"; js "002-empty"] else None;
     readFileSync := fun p =>
       if jsstring_eqb p (js "/ws/specs/001-calc/tasks.md")
       then Some example_doc else None;
     workspaceFolder := Some (js "/ws") |}.

(** ** The commands on a phase: [implementPhase] and [verifyPhase] *)

(** What a command does to the editor, in the order it does it. *)
Inductive ui_effect :=
| ShowInformationMessage (message : jsstring) (items : list jsstring)
| ShowWarningMessage (message : jsstring) (items : list jsstring)
| ShowErrorMessage (message : jsstring)
| ChatOpen (query : option jsstring)
| ClipboardWriteText (text : jsstring)
| ExecuteCommand (command file : jsstring)
| ExecuteCommandLater (ms : nat) (command file : jsstring)
| ShowInputBox (prompt : option jsstring) (placeHolder value : jsstring)
| ShowQuickPick (items : list jsstring) (placeHolder : jsstring).

(** [`${n}`] for an array length *)
Definition Number_toString (n : nat) : jsstring :=
  js (NilEmpty.string_of_uint (Nat.to_uint n)).

(** [xs.join(sep)] *)
Definition Array_join (xs : list jsstring) (sep : jsstring) : jsstring :=
  match xs with
  | [] => []
  | x :: rest => x ++ concat (map (fun y => sep ++ y) rest)
  end.

(** [t => t.taskData && !t.taskData.isCompleted] *)
Definition is_incomplete (t : TaskItem) : bool :=
  match taskData t with
  | Some d => negb (isCompleted d)
  | None => false
  end.

(** [t => t.taskData && t.taskData.isCompleted] *)
Definition is_complete (t : TaskItem) : bool :=
  match taskData t with
  | Some d => isCompleted d
  | None => false
  end.

(** [t => `- ${t.taskData.taskId}: ${t.taskData.description}`], on an item
    that has its data. *)
Definition implement_line (d : TaskData) : jsstring :=
  js "- " ++ taskId d ++ js ": " ++ description d.

(** The lines of a list of items; [None] where [t.taskData] is [null] and
    reading a field of it throws. *)
Fixpoint lines_of (line : TaskData -> jsstring) (ts : list TaskItem)
  : option (list jsstring) :=
  match ts with
  | [] => Some []
  | t :: rest =>
      match taskData t, lines_of line rest with
      | Some d, Some ls => Some (line d :: ls)
      | _, _ => None
      end
  end.

Definition implement_prompt (phaseLabel taskList : jsstring) : jsstring :=
  js "Implement all tasks in this phase:" ++ nl ++ nl ++
  phaseLabel ++ nl ++ nl ++
  js "Tasks to implement:" ++ nl ++
  taskList ++ nl ++ nl ++
  js "Please implement these tasks sequentially, following the specification and creating/modifying necessary files.".

(** [implementPhase(phaseItem)]; [confirm] is what the user answers to the
    warning ([None] when it is dismissed) and [chat_throws] whether opening
    the chat throws.  The result is [None] where the command throws. *)
Definition implementPhase (phaseItem : TaskItem) (confirm : option jsstring)
           (chat_throws : bool) : option (list ui_effect) :=
  let tasks_ := children phaseItem in
  let incompleteTasks := filter is_incomplete tasks_ in
  if length incompleteTasks =? 0 then
    Some [ShowInformationMessage
            (js "All tasks in this phase are completed!") []]
  else
    let ask :=
      ShowWarningMessage
        (js "Implement all " ++ Number_toString (length incompleteTasks) ++
         js " tasks in " ++ label phaseItem ++ js "?")
        [js "Yes"; js "No"] in
    match confirm with
    | Some answer =>
        if jsstring_eqb answer (js "Yes") then
          match lines_of implement_line incompleteTasks with
          | Some ls =>
              let prompt :=
                implement_prompt (label phaseItem) (Array_join ls nl) in
              Some (ask :: ChatOpen (Some prompt) ::
                    if chat_throws
                    then [ShowErrorMessage (js "GitHub Copilot not available.")]
                    else [])
          | None => None
          end
        else Some [ask]
    | None => Some [ask]
    end.

(** [${status} ${t.taskData.taskId}: ${t.taskData.description}], with the
    marks U+2713 and U+2717. *)
Definition verify_line (d : TaskData) : jsstring :=
  (if isCompleted d then [10003%N] else [10007%N]) ++ js " " ++
  taskId d ++ js ": " ++ description d.

Definition verify_prompt (phaseLabel taskList : jsstring)
           (completed total : nat) : jsstring :=
  js "Verify implementation of this phase:" ++ nl ++ nl ++
  phaseLabel ++ nl ++ nl ++
  js "Tasks status:" ++ nl ++
  taskList ++ nl ++ nl ++
  js "Summary: " ++ Number_toString completed ++ js "/" ++
  Number_toString total ++ js " tasks completed" ++ nl ++ nl ++
  js "Please verify:" ++ nl ++
  js "1. Are all completed tasks properly implemented?" ++ nl ++
  js "2. Do implementations match the task descriptions?" ++ nl ++
  js "3. Are there any issues or improvements needed?" ++ nl ++
  js "4. Should any incomplete tasks be marked as complete?" ++ nl ++
  js "5. Can we proceed to the next phase?" ++ nl ++ nl ++
  js "Provide a detailed verification report.".

(** [verifyPhase(phaseItem)] *)
Definition verifyPhase (phaseItem : TaskItem) (chat_throws : bool)
  : option (list ui_effect) :=
  let tasks_ := children phaseItem in
  let completedTasks := filter is_complete tasks_ in
  let incompleteTasks := filter is_incomplete tasks_ in
  match lines_of verify_line tasks_ with
  | Some ls =>
      let prompt :=
        verify_prompt (label phaseItem) (Array_join ls nl)
                      (length completedTasks) (length tasks_) in
      Some (ChatOpen (Some prompt) ::
            if chat_throws then
              [ShowInformationMessage
                 (js "Verify " ++ label phaseItem ++ nl ++ nl ++
                  js "Completed: " ++ Number_toString (length completedTasks) ++
                  js "/" ++ Number_toString (length tasks_) ++ nl ++
                  js "Incomplete: " ++
                  Number_toString (length incompleteTasks)) []]
            else [])
  | None => None
  end.

(** ** The workflow view: [SpecWorkflowProvider] *)

(** [s.split(sep)] for a separator of one character. *)
Fixpoint split_on (sep : code_unit) (s : jsstring) : list jsstring :=
  match s with
  | [] => [[]]
  | c :: s' =>
      if N.eqb c sep then [] :: split_on sep s'
      else match split_on sep s' with
           | l :: ls => (c :: l) :: ls
           | [] => [[c]]
           end
  end.

(** [xs.pop()] on the array a [split] returns, which is never empty. *)
Definition Array_pop (xs : list jsstring) : jsstring := last xs [].

(** The first occurrence of [pat] in [s]: the text before it and the text
    after it. *)
Fixpoint find_first (pat s : jsstring) : option (jsstring * jsstring) :=
  if startsWith pat s then Some ([], skipn (length pat) s)
  else match s with
       | [] => None
       | c :: s' =>
           match find_first pat s' with
           | Some (before, after) => Some (c :: before, after)
           | None => None
           end
       end.

(** The replacement text of [replace] for a pattern that is a string, so
    that there are no captures: [$$] is a dollar sign, [$&] the match,
    [$`] the text before it and [$'] the text after it; a dollar sign
    before anything else stands for itself. *)
Fixpoint GetSubstitution (matched before after template : jsstring)
  : jsstring :=
  match template with
  | [] => []
  | c :: rest =>
      if N.eqb c 36 then
        match rest with
        | d :: rest' =>
            if N.eqb d 36 then 36%N :: GetSubstitution matched before after rest'
            else if N.eqb d 38
              then matched ++ GetSubstitution matched before after rest'
            else if N.eqb d 96
              then before ++ GetSubstitution matched before after rest'
            else if N.eqb d 39
              then after ++ GetSubstitution matched before after rest'
            else c :: GetSubstitution matched before after rest
        | [] => [c]
        end
      else c :: GetSubstitution matched before after rest
  end.

(** [s.replace(pat, replacement)] with a string for pattern: the first
    occurrence only. *)
Definition String_replace (s pat replacement : jsstring) : jsstring :=
  match find_first pat s with
  | Some (before, after) =>
      before ++ GetSubstitution pat before after replacement ++ after
  | None => s
  end.

Module Step.
(** A step of the workflow, as [getWorkflowSteps] writes it down. *)
Record t := {
  id : jsstring;
  label : jsstring;
  description : jsstring;
  command : jsstring;
  outputFile : jsstring;
  icon : jsstring;
  needsInput : bool;
  inputPrompt : option jsstring
}.
End Step.

(** The array [steps] of [getWorkflowSteps]. *)
Definition workflow_steps : list Step.t :=
  [ {| Step.id := js "init";
       Step.label := js "0. Initialize Spec-Kit";
       Step.description := js "Copy setup files to workspace";
       Step.command := js "copySetupFiles";
       Step.outputFile := js ".specify/";
       Step.icon := js "rocket";
       Step.needsInput := false;
       Step.inputPrompt := None |};
    {| Step.id := js "constitution";
       Step.label := js "1. Constitution";
       Step.description := js "Project principles";
       Step.command := js "/speckit.constitution";
       Step.outputFile := js ".specify/memory/constitution.md";
       Step.icon := js "book";
       Step.needsInput := true;
       Step.inputPrompt :=
         Some (js "Describe project principles (optional - press Enter to skip)") |};
    {| Step.id := js "specify";
       Step.label := js "2. Specification";
       Step.description := js "User stories & requirements";
       Step.command := js "/speckit.specify";
       Step.outputFile := js "specs/[feature]/spec.md";
       Step.icon := js "list-unordered";
       Step.needsInput := true;
       Step.inputPrompt :=
         Some (js "Describe what to build (optional - press Enter to skip)") |};
    {| Step.id := js "plan";
       Step.label := js "3. Implementation Plan";
       Step.description := js "Technical approach";
       Step.command := js "/speckit.plan";
       Step.outputFile := js "specs/[feature]/plan.md";
       Step.icon := js "project";
       Step.needsInput := true;
       Step.inputPrompt :=
         Some (js "Describe tech stack & architecture (optional - press Enter to skip)") |};
    {| Step.id := js "tasks";
       Step.label := js "4. Task Breakdown";
       Step.description := js "Actionable tasks";
       Step.command := js "/speckit.tasks";
       Step.outputFile := js "specs/[feature]/tasks.md";
       Step.icon := js "tasklist";
       Step.needsInput := false;
       Step.inputPrompt := None |};
    {| Step.id := js "implement";
       Step.label := js "5. Implementation";
       Step.description := js "Execute tasks";
       Step.command := js "/speckit.implement";
       Step.outputFile := js "Implementation files";
       Step.icon := js "rocket";
       Step.needsInput := false;
       Step.inputPrompt := None |} ].

(** The file name [checkStepStatus] looks for in a feature folder:
    [step.outputFile.replace('[feature]', feature).split('/').pop()] *)
Definition output_name (step : Step.t) (feature : jsstring) : jsstring :=
  Array_pop (split_on 47%N
               (String_replace (Step.outputFile step) (js "[feature]") feature)).

(** The [for (const feature of features)] loop of [checkStepStatus]. *)
Fixpoint any_feature_has (h : host) (specsPath : jsstring) (step : Step.t)
         (features : list jsstring) : bool :=
  match features with
  | [] => false
  | feature :: rest =>
      if existsSync h
           (path_join h [specsPath; feature; output_name step feature])
      then true
      else any_feature_has h specsPath step rest
  end.

(** [checkStepStatus(step, workspaceFolder)], with the path of the folder;
    [None] where [readdirSync] throws. *)
Definition checkStepStatus (h : host) (step : Step.t) (folder : jsstring)
  : option jsstring :=
  let status (b : bool) := if b then js "complete" else js "pending" in
  if jsstring_eqb (Step.id step) (js "init") then
    Some (status (existsSync h (path_join h [folder; js ".specify"])))
  else if jsstring_eqb (Step.id step) (js "constitution") then
    Some (status (existsSync h (path_join h [folder; Step.outputFile step])))
  else
    let specsPath := path_join h [folder; js "specs"] in
    if negb (existsSync h specsPath) then Some (js "pending")
    else
      match readdirSync h specsPath with
      | Some features =>
          Some (status (any_feature_has h specsPath step features))
      | None => None
      end.

(** [class WorkflowStepItem extends vscode.TreeItem]; the marks of the label
    are U+2705 and U+23F3. *)
Record WorkflowStepItem := {
  item_label : jsstring;
  item_step : Step.t;
  item_status : jsstring;
  item_description : jsstring;
  item_tooltip : jsstring;
  item_contextValue : jsstring;
  item_iconPath : jsstring
}.

Definition new_WorkflowStepItem (step : Step.t) (status : jsstring)
  : WorkflowStepItem :=
  {| item_label :=
       (if jsstring_eqb status (js "complete") then [9989%N] else [9203%N])
       ++ js " " ++ Step.label step;
     item_step := step;
     item_status := status;
     item_description := Step.description step;
     item_tooltip :=
       Step.label step ++ nl ++ Step.description step ++ nl ++
       js "Output: " ++ Step.outputFile step;
     item_contextValue := js "workflowStep";
     item_iconPath := Step.icon step |}.

(** The loop of [getWorkflowSteps] over the steps. *)
Fixpoint step_items (h : host) (folder : jsstring) (steps : list Step.t)
  : option (list WorkflowStepItem) :=
  match steps with
  | [] => Some []
  | step :: rest =>
      match checkStepStatus h step folder with
      | Some status =>
          match step_items h folder rest with
          | Some items => Some (new_WorkflowStepItem step status :: items)
          | None => None
          end
      | None => None
      end
  end.

(** [getWorkflowSteps()] *)
Definition getWorkflowSteps (h : host) : option (list WorkflowStepItem) :=
  match workspaceFolder h with
  | None => Some []
  | Some folder => step_items h folder workflow_steps
  end.


(** ** Copying the setup files

    The functions that initialise a workspace work on the file system
    itself.  It is modelled as a tree of folders and files; a path is the
    list of names that [path.join] puts together, from the root of the
    tree.  A call of [fs] that throws gives [None]. *)

Module Fs.

Inductive node :=
| File (content : jsstring)
| Folder (entries : list (jsstring * node)).

Definition path := list jsstring.

Definition is_folder (n : node) : bool :=
  match n with
  | Folder _ => true
  | File _ => false
  end.

(** The entry of a folder with a given name. *)
Fixpoint entry (name : jsstring) (es : list (jsstring * node))
  : option node :=
  match es with
  | [] => None
  | (n, x) :: rest => if jsstring_eqb n name then Some x else entry name rest
  end.

(** The entries with the entry [name] replaced, or added at the end. *)
Fixpoint set_entry (name : jsstring) (x : node) (es : list (jsstring * node))
  : list (jsstring * node) :=
  match es with
  | [] => [(name, x)]
  | (n, y) :: rest =>
      if jsstring_eqb n name then (n, x) :: rest
      else (n, y) :: set_entry name x rest
  end.

(** What is at a path. *)
Fixpoint lookup (n : node) (p : path) : option node :=
  match p with
  | [] => Some n
  | name :: rest =>
      match n with
      | Folder es =>
          match entry name es with
          | Some child => lookup child rest
          | None => None
          end
      | File _ => None
      end
  end.

(** [fs.existsSync(p)] *)
Definition existsSync (fs : node) (p : path) : bool :=
  match lookup fs p with
  | Some _ => true
  | None => false
  end.

(** The tree with the folders of [p] that are missing made; a file on the
    way is an error. *)
Fixpoint make_folders (n : node) (p : path) : option node :=
  match n with
  | File _ => None
  | Folder es =>
      match p with
      | [] => Some n
      | name :: rest =>
          let child := match entry name es with
                       | Some c => c
                       | None => Folder []
                       end in
          match make_folders child rest with
          | Some child' => Some (Folder (set_entry name child' es))
          | None => None
          end
      end
  end.

(** The names of the entries of the folder at [p], and whether each is a
    folder. *)
Definition listing (fs : node) (p : path)
  : option (list (jsstring * bool)) :=
  match lookup fs p with
  | Some (Folder es) => Some (map (fun e => (fst e, is_folder (snd e))) es)
  | _ => None
  end.

(** The content of the file at [p]. *)
Definition content (fs : node) (p : path) : option jsstring :=
  match lookup fs p with
  | Some (File c) => Some c
  | _ => None
  end.

(** The tree with the file at [p] made or overwritten; its folder has to
    be there, and [p] must not be a folder. *)
Fixpoint put (n : node) (p : path) (data : jsstring) : option node :=
  match p with
  | [] =>
      match n with
      | File _ => Some (File data)
      | Folder _ => None
      end
  | name :: rest =>
      match n with
      | File _ => None
      | Folder es =>
          match entry name es, rest with
          | Some child, _ =>
              match put child rest data with
              | Some child' => Some (Folder (set_entry name child' es))
              | None => None
              end
          | None, [] => Some (Folder (set_entry name (File data) es))
          | None, _ :: _ => None
          end
      end
  end.

Fixpoint path_eqb (p q : path) : bool :=
  match p, q with
  | [], [] => true
  | a :: p', b :: q' => jsstring_eqb a b && path_eqb p' q'
  | _, _ => false
  end.

(** The calls of [fs] that can throw. *)
Inductive call :=
| Mkdir (p : path)
| Readdir (p : path)
| ReadFile (p : path)
| WriteFile (p : path) (data : jsstring)
| CopyFile (src dest : path).

(** What the operating system refuses: [sys fs c] says that on the disk
    [fs] the call [c] throws for a reason that is not in the shape of the
    tree (no permission, a read-only file, a full disk).  A call that is
    refused leaves the disk as it is. *)
Definition system := node -> call -> bool.

(** The system that refuses nothing. *)
Definition permissive : system := fun _ _ => false.

(** [fs.mkdirSync(p, { recursive: true })] *)
Definition mkdirSync (sys : system) (fs : node) (p : path) : option node :=
  if sys fs (Mkdir p) then None else make_folders fs p.

(** [fs.readdirSync(p, { withFileTypes: true })] *)
Definition readdirSync (sys : system) (fs : node) (p : path)
  : option (list (jsstring * bool)) :=
  if sys fs (Readdir p) then None else listing fs p.

(** [fs.readFileSync(p, 'utf8')] *)
Definition readFileSync (sys : system) (fs : node) (p : path)
  : option jsstring :=
  if sys fs (ReadFile p) then None else content fs p.

(** [fs.writeFileSync(p, data)] *)
Definition writeFileSync (sys : system) (fs : node) (p : path)
           (data : jsstring) : option node :=
  if sys fs (WriteFile p data) then None else put fs p data.

(** [fs.copyFileSync(src, dest)] *)
Definition copyFileSync (sys : system) (fs : node) (src dest : path)
  : option node :=
  if sys fs (CopyFile src dest) then None
  else match content fs src with
       | Some c => put fs dest c
       | None => None
       end.

(** How a call ends: with a result, with an exception, or not within the
    depth of recursion allowed to it. *)
Inductive error := SystemError | SetupNotFound.

Inductive outcome (A : Type) :=
| Done (a : A)
| Throws (e : error)
| OutOfFuel.
Arguments Done {A} a.
Arguments Throws {A} e.
Arguments OutOfFuel {A}.

(** The body of the [for (const entry of entries)] loop of
    [copyDirectoryRecursive]; [recurse] is the function itself. *)
Definition copy_entry (sys : system)
           (recurse : node -> path -> path -> outcome node)
           (fs : node) (source dest : path) (name : jsstring)
           (isDirectory : bool) : outcome node :=
  let srcPath := source ++ [name] in
  let destPath := dest ++ [name] in
  if isDirectory then recurse fs srcPath destPath
  else match copyFileSync sys fs srcPath destPath with
       | Some fs' => Done fs'
       | None => Throws SystemError
       end.

(** The loop over the entries. *)
Fixpoint copy_entries (sys : system)
         (recurse : node -> path -> path -> outcome node)
         (fs : node) (source dest : path) (entries : list (jsstring * bool))
  : outcome node :=
  match entries with
  | [] => Done fs
  | (name, isDirectory) :: rest =>
      match copy_entry sys recurse fs source dest name isDirectory with
      | Done fs' => copy_entries sys recurse fs' source dest rest
      | other => other
      end
  end.

(** [copyDirectoryRecursive(source, dest)], to a depth of [fuel] calls. *)
Fixpoint copyDirectoryRecursive (sys : system) (fuel : nat) (fs : node)
         (source dest : path) : outcome node :=
  match fuel with
  | O => OutOfFuel
  | S fuel' =>
      match (if existsSync fs dest then Some fs
             else mkdirSync sys fs dest) with
      | None => Throws SystemError
      | Some fs1 =>
          match readdirSync sys fs1 source with
          | None => Throws SystemError
          | Some entries =>
              copy_entries sys (copyDirectoryRecursive sys fuel') fs1
                           source dest entries
          end
      end
  end.

(** One path goes through the other. *)
Definition prefix (p q : path) : Prop := exists r, q = p ++ r.

(** The calls a copy from [source] to [dest] can make. *)
Definition of_copy (source dest : path) (c : call) : Prop :=
  match c with
  | Mkdir p => prefix dest p
  | Readdir p => prefix source p
  | CopyFile a b => prefix source a /\ prefix dest b
  | _ => False
  end.

(** Neither path goes through the other. *)
Definition apart (p q : path) : Prop := ~ prefix p q /\ ~ prefix q p.

(** The names of every folder of the tree are distinct. *)
Fixpoint distinct_names (n : node) : Prop :=
  match n with
  | File _ => True
  | Folder es =>
      NoDup (map fst es) /\
      (fix all (es : list (jsstring * node)) : Prop :=
         match es with
         | [] => True
         | (_, child) :: rest => distinct_names child /\ all rest
         end) es
  end.

(** The number of folders nested in one another. *)
Fixpoint depth (n : node) : nat :=
  match n with
  | File _ => 0
  | Folder es =>
      S ((fix deepest (es : list (jsstring * node)) : nat :=
            match es with
            | [] => 0
            | (_, child) :: rest => Nat.max (depth child) (deepest rest)
            end) es)
  end.

End Fs.

(** The settings of the setup and those of a workspace, as JSON:
    [{"chat.promptFiles": true}] and
    [{"editor.tabSize": 2, "chat.promptFiles": false}]. *)
Definition setup_settings : jsstring :=
  js "{" ++ [34%N] ++ js "chat.promptFiles" ++ [34%N] ++ js ": true}".

Definition workspace_settings : jsstring :=
  js "{" ++ [34%N] ++ js "editor.tabSize" ++ [34%N] ++ js ": 2, " ++
  [34%N] ++ js "chat.promptFiles" ++ [34%N] ++ js ": false}".

(** A small disk: the extension with its setup files, and a workspace that
    already has a [.github] folder of its own. *)
Definition example_disk : Fs.node :=
  Fs.Folder
    [ (js "ext",
       Fs.Folder
         [ (js "setup",
            Fs.Folder
              [ (js ".github",
                 Fs.Folder
                   [ (js "agents",
                      Fs.Folder [ (js "plan.md", Fs.File (js "plan agent")) ]);
                     (js "README.md", Fs.File (js "new readme")) ]);
                (js ".specify",
                 Fs.Folder
                   [ (js "templates", Fs.Folder []);
                     (js "memory",
                      Fs.Folder [ (js "constitution.md", Fs.File []) ]) ]);
                (js ".vscode",
                 Fs.Folder
                   [ (js "settings.json", Fs.File setup_settings) ]) ]) ]);
      (js "ws",
       Fs.Folder
         [ (js ".github",
            Fs.Folder
              [ (js "own.md", Fs.File (js "mine"));
                (js "README.md", Fs.File (js "old readme")) ]);
           (js "src",
            Fs.Folder [ (js "main.js", Fs.File (js "code")) ]) ]) ].

(** The disk after the [.github] folder of the setup has been copied into
    the workspace. *)
Definition example_disk_after_copy : Fs.node :=
  match Fs.copyDirectoryRecursive Fs.permissive 3 example_disk
          [js "ext"; js "setup"; js ".github"] [js "ws"; js ".github"] with
  | Fs.Done fs' => fs'
  | _ => example_disk
  end.

(** ** [copyVSCodeSettings] and [copySetupFiles] *)

(** What the settings are merged with: [strip_parse content] is
    [JSON.parse(content.replace(/\/\*[\s\S]*?\*\/|\/\/.*/g, ''))] and
    [JSON_parse] is [JSON.parse], both [None] where the parser throws;
    [spread a b] is [{ ...a, ...b }] and [JSON_stringify j] is
    [JSON.stringify(j, null, 4)]. *)
Record json_ops (J : Type) := {
  strip_parse : jsstring -> option J;
  JSON_parse : jsstring -> option J;
  spread : J -> J -> J;
  JSON_stringify : J -> jsstring
}.
Arguments strip_parse {J} j content.
Arguments JSON_parse {J} j content.
Arguments spread {J} j a b.
Arguments JSON_stringify {J} j value.

Definition merge_warning : ui_effect :=
  ShowWarningMessage
    (js "Could not merge .vscode/settings.json. Manual merge may be required.")
    [].

(** [copyVSCodeSettings(sourcePath, destPath)]: the file system it leaves
    and what it shows. *)
Definition copyVSCodeSettings (sys : Fs.system) (J : Type)
           (ops : json_ops J) (fs : Fs.node) (sourcePath destPath : Fs.path)
  : Fs.outcome (Fs.node * list ui_effect) :=
  let sourceSettings := sourcePath ++ [js "settings.json"] in
  let destSettings := destPath ++ [js "settings.json"] in
  if negb (Fs.existsSync fs sourceSettings) then Fs.Done (fs, [])
  else
    match (if Fs.existsSync fs destPath then Some fs
           else Fs.mkdirSync sys fs destPath) with
    | None => Fs.Throws Fs.SystemError
    | Some fs1 =>
        match Fs.readFileSync sys fs1 sourceSettings with
        | None => Fs.Throws Fs.SystemError
        | Some sourceContent =>
            match strip_parse ops sourceContent with
            | None =>
                match Fs.copyFileSync sys fs1 sourceSettings destSettings with
                | Some fs2 => Fs.Done (fs2, [])
                | None => Fs.Throws Fs.SystemError
                end
            | Some sourceJson =>
                if Fs.existsSync fs1 destSettings then
                  match Fs.readFileSync sys fs1 destSettings with
                  | None => Fs.Done (fs1, [merge_warning])
                  | Some destContent =>
                      match JSON_parse ops destContent with
                      | None => Fs.Done (fs1, [merge_warning])
                      | Some destJson =>
                          let merged := spread ops destJson sourceJson in
                          match Fs.writeFileSync sys fs1 destSettings
                                  (JSON_stringify ops merged) with
                          | Some fs2 => Fs.Done (fs2, [])
                          | None => Fs.Done (fs1, [merge_warning])
                          end
                      end
                  end
                else
                  match Fs.copyFileSync sys fs1 sourceSettings destSettings with
                  | Some fs2 => Fs.Done (fs2, [])
                  | None => Fs.Throws Fs.SystemError
                  end
            end
        end
    end.

(** The body of the loop of [copySetupFiles] for one of the directories;
    the state is the file system, [copiedFiles] and what has been shown. *)
Definition copy_setup_dir (sys : Fs.system) (J : Type) (ops : json_ops J)
           (fuel : nat)
           (setupSource workspacePath : Fs.path) (dir : jsstring)
           (st : Fs.node * nat * list ui_effect)
  : Fs.outcome (Fs.node * nat * list ui_effect) :=
  let '(fs, copiedFiles, shown) := st in
  let sourcePath := setupSource ++ [dir] in
  let destPath := workspacePath ++ [dir] in
  if negb (Fs.existsSync fs sourcePath) then Fs.Done st
  else if jsstring_eqb dir (js ".vscode") then
    match copyVSCodeSettings sys J ops fs sourcePath destPath with
    | Fs.Done (fs', shown') => Fs.Done (fs', S copiedFiles, shown ++ shown')
    | Fs.Throws e => Fs.Throws e
    | Fs.OutOfFuel => Fs.OutOfFuel
    end
  else
    match Fs.copyDirectoryRecursive sys fuel fs sourcePath destPath with
    | Fs.Done fs' => Fs.Done (fs', S copiedFiles, shown)
    | Fs.Throws e => Fs.Throws e
    | Fs.OutOfFuel => Fs.OutOfFuel
    end.

Fixpoint copy_setup_dirs (sys : Fs.system) (J : Type) (ops : json_ops J)
         (fuel : nat)
         (setupSource workspacePath : Fs.path) (directories : list jsstring)
         (st : Fs.node * nat * list ui_effect)
  : Fs.outcome (Fs.node * nat * list ui_effect) :=
  match directories with
  | [] => Fs.Done st
  | dir :: rest =>
      match copy_setup_dir sys J ops fuel setupSource workspacePath dir
                           st with
      | Fs.Done st' =>
          copy_setup_dirs sys J ops fuel setupSource workspacePath rest st'
      | other => other
      end
  end.

(** [const directories = ['.github', '.specify', '.vscode']] *)
Definition setup_directories : list jsstring :=
  [js ".github"; js ".specify"; js ".vscode"].

(** [copySetupFiles(extensionPath, workspacePath)]: the file system it
    leaves, the number it returns and what it shows. *)
Definition copySetupFiles (sys : Fs.system) (J : Type) (ops : json_ops J)
           (fuel : nat) (fs : Fs.node)
           (extensionPath workspacePath : Fs.path)
  : Fs.outcome (Fs.node * nat * list ui_effect) :=
  let setupSource := extensionPath ++ [js "setup"] in
  if negb (Fs.existsSync fs setupSource) then Fs.Throws Fs.SetupNotFound
  else copy_setup_dirs sys J ops fuel setupSource workspacePath
                       setup_directories (fs, 0, []).


(** A system on which the settings of the workspace are read-only. *)
Definition read_only_settings : Fs.system :=
  fun _ c =>
    match c with
    | Fs.WriteFile p _ =>
        Fs.path_eqb p [js "ws"; js ".vscode"; js "settings.json"]
    | _ => false
    end.

(** A stand-in for the JSON functions on objects whose members are not
    objects themselves: an object is the list of its keys, each with the
    text of its value.  [JSON.parse] is given on the two settings files of
    the examples only and refuses every other text; the spread keeps the
    keys of the first object in their order, with the values of the second
    where it has the key, and adds the other keys of the second;
    [JSON.stringify(j, null, 4)] puts each member on a line of its own,
    four spaces in. *)
Definition toy_object := list (jsstring * jsstring).

Definition toy_json : json_ops toy_object :=
  let parse := fun content : jsstring =>
    if jsstring_eqb content setup_settings then
      Some [(js "chat.promptFiles", js "true")]
    else if jsstring_eqb content workspace_settings then
      Some [(js "editor.tabSize", js "2");
            (js "chat.promptFiles", js "false")]
    else None in
  let value_in := fix value_in (k : jsstring) (o : toy_object)
    : option jsstring :=
    match o with
    | [] => None
    | (k', v) :: rest => if jsstring_eqb k' k then Some v
                         else value_in k rest
    end in
  {| strip_parse := parse;
     JSON_parse := parse;
     spread := fun a b =>
       map (fun kv => (fst kv, match value_in (fst kv) b with
                               | Some v => v
                               | None => snd kv
                               end)) a ++
       filter (fun kv => match value_in (fst kv) a with
                         | Some _ => false
                         | None => true
                         end) b;
     JSON_stringify := fun j =>
       match j with
       | [] => js "{}"
       | _ => js "{" ++ nl ++
              Array_join
                (map (fun kv => js "    " ++ [34%N] ++ fst kv ++ [34%N] ++
                                js ": " ++ snd kv) j)
                (js "," ++ nl) ++
              nl ++ js "}"
       end |}.

(** ** The commands on a step: [viewWorkflowOutput] and [runWorkflowStep] *)

(** [viewWorkflowOutput(stepItem)] for [stepItem.step]: what it does to the
    editor, [None] where [readdirSync] throws.  [pick] is what the user
    chooses in the quick pick ([None] for [undefined]); the commands
    [vscode.open] and [revealInExplorer] are taken to succeed. *)
Definition viewWorkflowOutput (h : host) (step : Step.t)
           (pick : option jsstring) : option (list ui_effect) :=
  match workspaceFolder h with
  | None => Some []
  | Some folder =>
      if jsstring_eqb (Step.id step) (js "init") then
        let specifyPath := path_join h [folder; js ".specify"] in
        if existsSync h specifyPath then
          Some [ExecuteCommand (js "revealInExplorer") specifyPath;
                ShowInformationMessage
                  (js "Spec-Kit initialized! Check .specify/ folder") []]
        else
          Some [ShowWarningMessage
                  (js ".specify/ directory not found. Run initialization first.")
                  []]
      else if jsstring_eqb (Step.id step) (js "constitution") then
        let filePath := path_join h [folder; Step.outputFile step] in
        if existsSync h filePath then
          Some [ExecuteCommand (js "vscode.open") filePath]
        else
          Some [ShowWarningMessage
                  (js "File not found: " ++ Step.outputFile step ++ nl ++
                   js "Run this step first.") []]
      else
        let specsPath := path_join h [folder; js "specs"] in
        if negb (existsSync h specsPath) then
          Some [ShowWarningMessage
                  (js "No specs/ directory found. Run Step 2 first.") []]
        else
          match readdirSync h specsPath with
          | None => None
          | Some features =>
              if length features =? 0 then
                Some [ShowWarningMessage
                        (js "No features found. Run Step 2 first.") []]
              else
                let ask :=
                  ShowQuickPick features (js "Select feature to view") in
                match pick with
                | None | Some [] => Some [ask]
                | Some feature =>
                    let fileName := output_name step feature in
                    let filePath :=
                      path_join h [specsPath; feature; fileName] in
                    if existsSync h filePath then
                      Some [ask; ExecuteCommand (js "vscode.open") filePath]
                    else
                      Some [ask;
                            ShowWarningMessage
                              (js "File not found: " ++ fileName ++ nl ++
                               js "Run " ++ Step.label step ++
                               js " for this feature first.") []]
                end
          end
  end.

(** [step.id === name] *)
Definition step_is (step : Step.t) (name : string) : bool :=
  jsstring_eqb (Step.id step) (js name).

(** The [placeHolder] of the input box. *)
Definition input_placeholder (step : Step.t) : jsstring :=
  if step_is step "constitution" then
    js "Create principles focused on code quality, testing standards..."
  else if step_is step "specify" then
    js "Build an application that can help me organize my photos..."
  else if step_is step "plan" then
    js "The application uses Vite with minimal number of libraries..."
  else if step_is step "tasks" then js "specs/001-calculator"
  else if step_is step "implement" then js "specs/001-calculator"
  else [].

(** [fullPrompt]; [userInput ? `${command} ${userInput}` : command] takes
    the empty input as no input. *)
Definition full_prompt (step : Step.t) (userInput : jsstring) : jsstring :=
  let with_input (command : jsstring) :=
    match userInput with
    | [] => command
    | _ => command ++ js " " ++ userInput
    end in
  if step_is step "constitution" then with_input (js "/speckit.constitution")
  else if step_is step "specify" then with_input (js "/speckit.specify")
  else if step_is step "plan" then with_input (js "/speckit.plan")
  else if step_is step "tasks" then js "/speckit.tasks"
  else if step_is step "implement" then js "/speckit.implement"
  else [].

(** A path as [vscode.Uri.file] is given it. *)
Definition path_string (p : Fs.path) : jsstring :=
  concat (map (fun name => js "/" ++ name) p).

(** [err.message]: the message of the error [copySetupFiles] throws itself,
    and [system_message] for an error of [fs]. *)
Definition error_message (system_message : jsstring) (e : Fs.error)
  : jsstring :=
  match e with
  | Fs.SetupNotFound => js "Setup files not found in extension directory"
  | Fs.SystemError => system_message
  end.

Definition initializing_message : ui_effect :=
  ShowInformationMessage (js "Initializing Spec-Kit...") [].

(** The message of success; its marks are U+2705 and U+2022. *)
Definition initialized_message : ui_effect :=
  ShowInformationMessage
    ([9989%N] ++ js " Spec-Kit initialized successfully!" ++ nl ++ nl ++
     js "Created:" ++ nl ++
     js "  " ++ [8226%N] ++ js " .github/ (agents & prompts)" ++ nl ++
     js "  " ++ [8226%N] ++ js " .specify/ (templates & scripts)" ++ nl ++
     js "  " ++ [8226%N] ++ js " .vscode/settings.json (merged)" ++ nl ++ nl ++
     js "Next: Run Step 1 - Constitution")
    [].

Definition failed_message (message : jsstring) : ui_effect :=
  ShowErrorMessage
    (js "Failed to initialize Spec-Kit: " ++ message ++ nl ++ nl ++
     js "Please check that the extension has the setup/ folder.").

(** The [if (step.id === 'init')] branch of [runWorkflowStep]: what it
    shows and how the copy ends on the disk ([Fs.Done] with the disk as it
    is when nothing is copied; an error of the copy is caught and shown).
    [dirname] is [__dirname] and [choice] the button the user presses. *)
Definition run_init (sys : Fs.system) (J : Type) (ops : json_ops J)
           (fuel : nat) (system_message : jsstring) (fs : Fs.node)
           (dirname : Fs.path)
           (workspaceFolder : option Fs.path) (choice : option jsstring)
  : list ui_effect * Fs.outcome Fs.node :=
  match workspaceFolder with
  | None =>
      ([ShowErrorMessage
          (js "No workspace folder open. Please open a folder first.")],
       Fs.Done fs)
  | Some fsPath =>
      let specifyPath := fsPath ++ [js ".specify"] in
      let copy :=
        match copySetupFiles sys J ops fuel fs dirname fsPath with
        | Fs.Done (fs', copiedCount, shown) =>
            (initializing_message :: shown ++
             [initialized_message;
              ExecuteCommandLater 1000 (js "revealInExplorer")
                                  (path_string specifyPath)],
             Fs.Done fs')
        | Fs.Throws e =>
            ([initializing_message;
              failed_message (error_message system_message e)],
             Fs.Throws e)
        | Fs.OutOfFuel => ([initializing_message], Fs.OutOfFuel)
        end in
      if Fs.existsSync fs specifyPath then
        let ask :=
          ShowInformationMessage
            (js "Spec-Kit already initialized! .specify/ folder exists.")
            [js "Open .specify/"; js "Reinitialize"; js "Cancel"] in
        let answer := match choice with Some c => c | None => [] end in
        if jsstring_eqb answer (js "Open .specify/") then
          ([ask; ExecuteCommand (js "revealInExplorer")
                                (path_string specifyPath)],
           Fs.Done fs)
        else if jsstring_eqb answer (js "Reinitialize") then
          (ask :: fst copy, snd copy)
        else ([ask], Fs.Done fs)
      else copy
  end.

(** The message after the copy to the clipboard; its mark is U+1F4CB. *)
Definition copied_message (fullPrompt : jsstring) : ui_effect :=
  ShowInformationMessage
    ([55357%N; 56523%N] ++ js " Copied to clipboard: " ++ fullPrompt ++
     nl ++ nl ++
     js "Paste this in GitHub Copilot Chat to run the workflow step.")
    [js "Open Copilot Chat"; js "Done"].

(** [runWorkflowStep(stepItem)] for [stepItem.step]; [answer] is what the
    input box returns ([None] for [undefined]), [choice] the button pressed
    on the message shown, [chat_throws] whether opening the chat throws.
    The clipboard and [revealInExplorer] are taken to succeed. *)
Definition runWorkflowStep (sys : Fs.system) (J : Type) (ops : json_ops J)
           (fuel : nat) (system_message : jsstring) (fs : Fs.node)
           (dirname : Fs.path)
           (workspaceFolder : option Fs.path) (step : Step.t)
           (answer choice : option jsstring) (chat_throws : bool)
  : list ui_effect * Fs.outcome Fs.node :=
  let asks := Step.needsInput step && negb (step_is step "init") in
  let box :=
    ShowInputBox (Step.inputPrompt step) (input_placeholder step)
                 (if step_is step "tasks" || step_is step "implement"
                  then js "specs/001-calculator" else []) in
  match (if asks then answer else Some []) with
  | None => ([box], Fs.Done fs)
  | Some userInput =>
      let asked := if asks then [box] else [] in
      if step_is step "init" then
        let done := run_init sys J ops fuel system_message fs dirname
                             workspaceFolder choice in
        (asked ++ fst done, snd done)
      else
        let fullPrompt := full_prompt step userInput in
        let pressed := match choice with Some c => c | None => [] end in
        (asked ++
         [ClipboardWriteText fullPrompt; copied_message fullPrompt] ++
         (if jsstring_eqb pressed (js "Open Copilot Chat") then
            ChatOpen None ::
            (if chat_throws then
               [ShowErrorMessage
                  (js "GitHub Copilot not available. Make sure GitHub Copilot Chat is installed.")]
             else [])
          else []),
         Fs.Done fs)
  end.

(** * Properties *)

(** ** The loop and the document *)

Lemma close_phase_loop filePath_ lines : forall i st,
  close_phase (loop filePath_ i lines st) =
  match currentPhase st with
  | Some p =>
      phases st
      ++ set_tasks p (currentTasks st ++ tasks_until_header filePath_ i lines)
      :: phases_from filePath_ i lines
  | None => phases st ++ phases_from filePath_ i lines
  end.
Proof.
  induction lines as [|line rest IH]; intros i st; simpl.
  - unfold close_phase. destruct (currentPhase st); now rewrite app_nil_r.
  - rewrite IH. unfold loop_body.
    destruct (String_match line re_phase) as [pm|]; simpl.
    + unfold close_phase.
      destruct (currentPhase st); [rewrite app_nil_r, <- app_assoc|]; reflexivity.
    + destruct (String_match line re_task) as [tm|], (currentPhase st) eqn:E;
        simpl; rewrite ?E; try reflexivity.
      now rewrite <- app_assoc.
Qed.

Lemma parse_phases_from filePath_ content :
  parse filePath_ content = phases_from filePath_ 0 (split_lines content).
Proof. unfold parse. now rewrite close_phase_loop. Qed.

(** C1. On the five-line document of the specification the parser returns
    exactly two phases: "Phase 1: Setup" with the tasks T001 (completed,
    story [US1], description "Initialize project") and T002 (not completed,
    parallelizable, description "Add linting"), then "Phase 2: Build" with
    the single task T003 (parallelizable, story [US2], description
    "Compile sources"). *)
Theorem parse_example_doc (filePath_ : jsstring) :
  map phase_view (parse filePath_ example_doc) =
  [ (js "Phase 1: Setup",
     [ Some {| taskId := js "T001"; description := js "Initialize project";
               isCompleted := true; hasParallel := false;
               story := js "[US1]"; lineNumber := 1 |};
       Some {| taskId := js "T002"; description := js "Add linting";
               isCompleted := false; hasParallel := true;
               story := []; lineNumber := 2 |} ]);
    (js "Phase 2: Build",
     [ Some {| taskId := js "T003"; description := js "Compile sources";
               isCompleted := false; hasParallel := true;
               story := js "[US2]"; lineNumber := 4 |} ]) ].
Proof. vm_compute. reflexivity. Qed.

(** ** The matcher *)

Lemma lit_app l rest : lit l (l ++ rest) = Some rest.
Proof. induction l as [|x l IH]; simpl; [|rewrite N.eqb_refl]; auto. Qed.

Lemma lit_inv l : forall s rest, lit l s = Some rest -> s = l ++ rest.
Proof.
  induction l as [|x l IH]; intros [|y s] rest; simpl; try congruence.
  destruct (N.eqb_spec x y); [|discriminate].
  intros H. apply IH in H. now subst.
Qed.

Lemma span_prefix p a b :
  Forall (fun c => p c = true) a ->
  span p (a ++ b) = (a ++ fst (span p b), snd (span p b)).
Proof.
  induction 1 as [|c a Hc _ IH]; simpl.
  - now destruct (span p b).
  - now rewrite Hc, IH.
Qed.

Section PlusMore.
Variable A : Type.
Variable p : code_unit -> bool.
Variable k : cont A.

(** Whatever a greedy [+] ends up with is a run of the class, followed by
    a successful continuation. *)
Lemma plus_more_sound s : forall taken r,
  plus_more p k taken s = Some r ->
  exists a b, s = a ++ b /\ Forall (fun c => p c = true) a /\
              k (taken ++ a) [] b = Some r.
Proof.
  induction s as [|c s IH]; intros taken r; simpl.
  - intros H. exists [], []. repeat split; rewrite ?app_nil_r; auto.
  - destruct (p c) eqn:Hc.
    + destruct (plus_more p k (taken ++ [c]) s) as [r'|] eqn:E.
      * intros H; inversion H; subst r'. apply IH in E.
        destruct E as (a & b & -> & Ha & Hk).
        exists (c :: a), b. rewrite <- app_assoc in Hk. auto.
      * intros H. exists [], (c :: s). repeat split; rewrite ?app_nil_r; auto.
    + intros H. exists [], (c :: s). repeat split; rewrite ?app_nil_r; auto.
Qed.

(** When the continuation refuses every input that starts inside the
    class, nothing is given back. *)
Lemma plus_more_blocked s : forall taken,
  (forall t c rest, p c = true -> k t [] (c :: rest) = None) ->
  plus_more p k taken s = k (taken ++ fst (span p s)) [] (snd (span p s)).
Proof.
  induction s as [|c s IH]; intros taken Hk; simpl.
  - now rewrite app_nil_r.
  - destruct (p c) eqn:Hc; simpl; [|now rewrite app_nil_r].
    rewrite IH by assumption.
    destruct (span p s) as [a b] eqn:E; simpl.
    rewrite <- app_assoc; simpl.
    destruct (k (taken ++ c :: a) [] b) eqn:E2; auto.
Qed.
End PlusMore.

(** A line the task pattern accepts, taken apart. *)
Lemma task_match_shape line m :
  String_match line re_task = Some m ->
  exists mk ds txt rest,
    line = js "- [" ++ mk :: js "] T" ++ ds ++ txt ++ rest /\
    marker mk = true /\
    ds <> [] /\ Forall (fun c => digit c = true) ds /\
    txt <> [] /\ Forall (fun c => dot c = true) txt /\
    m = [js "- [" ++ mk :: js "] T" ++ ds ++ txt; [mk]; js "T" ++ ds; txt].
Proof.
  unfold String_match, re_task, match_here; cbn [anchored body rx].
  destruct (lit (js "- [") line) as [s1|] eqn:E1; [|discriminate].
  apply lit_inv in E1. destruct s1 as [|mk s1]; [discriminate|].
  destruct (marker mk) eqn:Hmk; [|discriminate].
  destruct (lit (js "] ") s1) as [s2|] eqn:E2; [|discriminate].
  apply lit_inv in E2.
  destruct (lit (js "T") s2) as [s3|] eqn:E3; [|discriminate].
  apply lit_inv in E3. destruct s3 as [|d s3]; [discriminate|].
  destruct (digit d) eqn:Hd; [|discriminate].
  match goal with |- option_map _ ?x = _ -> _ => destruct x as [[r s6]|] eqn:E4 end;
    [|discriminate].
  simpl. intros H; inversion H; subst r; clear H.
  apply plus_more_sound in E4. destruct E4 as (a & b & -> & Ha & E4).
  destruct b as [|c b]; [discriminate|].
  destruct (dot c) eqn:Hc; [|discriminate].
  apply plus_more_sound in E4. destruct E4 as (a' & b' & -> & Ha' & E4).
  inversion E4; subst; clear E4.
  exists mk, (d :: a), (c :: a'), s6. simpl.
  repeat split; auto; try discriminate.
Qed.

(** ** Where the tasks of the output come from *)

Lemma tasks_until_header_origin filePath_ lines : forall i t,
  In t (tasks_until_header filePath_ i lines) ->
  exists n line m,
    nth_error lines n = Some line /\
    String_match line re_task = Some m /\
    t = task_item filePath_ (i + n) m /\
    filter is_phase_header (firstn (S n) lines) = [].
Proof.
  induction lines as [|l rest IH]; intros i t; simpl; [tauto|].
  unfold is_phase_header at 1.
  destruct (String_match l re_phase) eqn:Ep; [simpl; tauto|].
  assert (Hrest : In t (tasks_until_header filePath_ (S i) rest) ->
    exists n line m,
      nth_error (l :: rest) n = Some line /\
      String_match line re_task = Some m /\
      t = task_item filePath_ (i + n) m /\
      filter is_phase_header (firstn n rest) = []).
  { intros H. apply IH in H. destruct H as (n & line & m & H1 & H2 & H3 & H4).
    exists (S n), line, m. rewrite Nat.add_succ_r. auto. }
  destruct (String_match l re_task) as [tm|] eqn:Et; [|exact Hrest].
  intros [<-|H]; [|auto].
  exists 0, l, tm. rewrite Nat.add_0_r. simpl. auto.
Qed.

Lemma phases_from_origin filePath_ lines : forall i k p t,
  nth_error (phases_from filePath_ i lines) k = Some p ->
  In t (children p) ->
  exists n line m,
    nth_error lines n = Some line /\
    String_match line re_task = Some m /\
    t = task_item filePath_ (i + n) m /\
    is_phase_header line = false /\
    length (filter is_phase_header (firstn n lines)) = S k.
Proof.
  induction lines as [|l rest IH]; intros i k p t; simpl.
  - now destruct k.
  - assert (Hrest : forall k,
      nth_error (phases_from filePath_ (S i) rest) k = Some p ->
      In t (children p) ->
      exists n line m,
        nth_error (l :: rest) n = Some line /\
        String_match line re_task = Some m /\
        t = task_item filePath_ (i + n) m /\
        is_phase_header line = false /\
        length (filter is_phase_header (firstn n (l :: rest)))
        = (if is_phase_header l then S (S k) else S k)).
    { intros k' Hp Ht.
      destruct (IH _ _ _ _ Hp Ht) as (n & line & m & H1 & H2 & H3 & H4 & H5).
      exists (S n), line, m. rewrite Nat.add_succ_r. simpl.
      destruct (is_phase_header l); simpl; rewrite H5; auto. }
    destruct (String_match l re_phase) as [pm|] eqn:Ep.
    2:{ assert (Hh : is_phase_header l = false)
          by (unfold is_phase_header; now rewrite Ep).
        rewrite Hh in Hrest. exact (Hrest k). }
    assert (Hh : is_phase_header l = true)
      by (unfold is_phase_header; now rewrite Ep).
    rewrite Hh in Hrest.
    destruct k as [|k]; simpl; [|exact (Hrest k)].
    intros H Ht; inversion H; subst p; clear H. simpl in Ht.
    apply tasks_until_header_origin in Ht.
    destruct Ht as (n & line & m & H1 & H2 & H3 & H4).
    exists (S n), line, m. rewrite Nat.add_succ_r. simpl.
    rewrite Hh. simpl.
    assert (Hn : filter is_phase_header (firstn n rest) = [] /\
                 is_phase_header line = false).
    { clear - H1 H4. revert rest H1 H4.
      induction n as [|n IHn]; intros [|x rest]; simpl; try discriminate.
      - intros H; inversion H; subst. destruct (is_phase_header line); auto.
        discriminate.
      - destruct (is_phase_header x); [discriminate|].
        intros H1 H4. apply (IHn rest); auto. }
    destruct Hn as [-> Hl]. auto.
Qed.

(** Every task of the output is the item built from a line of the document
    that the task pattern accepts, and it sits in the phase opened by the
    last header above that line. *)
Lemma parse_task_origin filePath_ content k p t :
  nth_error (parse filePath_ content) k = Some p ->
  In t (children p) ->
  exists n line m,
    nth_error (split_lines content) n = Some line /\
    String_match line re_task = Some m /\
    t = task_item filePath_ n m /\
    is_phase_header line = false /\
    length (filter is_phase_header (firstn n (split_lines content))) = S k.
Proof.
  rewrite parse_phases_from. intros Hp Ht.
  exact (phases_from_origin _ _ _ _ _ _ Hp Ht).
Qed.

Lemma taskData_task_item filePath_ i m :
  taskData (task_item filePath_ i m) =
  Some {| taskId := group m 2;
          description := truncate (clean (trim (group m 3)));
          isCompleted := jsstring_eqb (toLowerCase (group m 1)) (js "x");
          hasParallel := includes (trim (group m 3)) (js "[P]");
          story := match String_match (trim (group m 3))
                           {| anchored := false; body := re_US |} with
                   | Some sm => group sm 0
                   | None => []
                   end;
          lineNumber := i |}.
Proof. reflexivity. Qed.

(** Every task of the output, with the line and the match array it was
    built from. *)
Lemma parse_task_line filePath_ content p t :
  In p (parse filePath_ content) ->
  In t (children p) ->
  exists n line m,
    nth_error (split_lines content) n = Some line /\
    String_match line re_task = Some m /\
    t = task_item filePath_ n m.
Proof.
  intros Hp Ht. apply In_nth_error in Hp. destruct Hp as [k Hp].
  destruct (parse_task_origin _ _ _ _ _ Hp Ht) as (n & line & m & H1 & H2 & H3 & _).
  exists n, line, m. auto.
Qed.

Lemma truncate_long s :
  80 < length s ->
  truncate s = firstn 77 s ++ js "..." /\ length (truncate s) = 80.
Proof.
  intros H. unfold truncate, substring0.
  destruct (Nat.ltb_spec 80 (length s)); [|lia].
  split; [reflexivity|].
  rewrite length_app, length_firstn.
  change (length (js "...")) with 3. lia.
Qed.

Lemma truncate_short s : length s <= 80 -> truncate s = s.
Proof.
  intros H. unfold truncate.
  destruct (Nat.ltb_spec 80 (length s)); [lia|reflexivity].
Qed.





(** ** The shape of the output *)

Lemma is_phase_header_true line pm :
  String_match line re_phase = Some pm -> is_phase_header line = true.
Proof. unfold is_phase_header. now intros ->. Qed.

Lemma is_phase_header_false line :
  String_match line re_phase = None <-> is_phase_header line = false.
Proof.
  unfold is_phase_header.
  destruct (String_match line re_phase); split; congruence.
Qed.

Lemma phase_match_prefix line pm :
  String_match line re_phase = Some pm -> exists rest, line = js "## " ++ rest.
Proof.
  unfold String_match, re_phase, match_here; cbn [anchored body rx].
  destruct (lit (js "## ") line) as [s1|] eqn:E1; [|discriminate].
  apply lit_inv in E1. eauto.
Qed.

(** The two patterns never accept the same line. *)
Lemma task_line_not_header line :
  is_task_line line = true -> is_phase_header line = false.
Proof.
  unfold is_task_line. intros H.
  destruct (String_match line re_task) as [m|] eqn:Et; [|discriminate].
  apply is_phase_header_false.
  destruct (String_match line re_phase) as [pm|] eqn:Ep; [|reflexivity].
  apply phase_match_prefix in Ep. destruct Ep as [r ->].
  apply task_match_shape in Et.
  destruct Et as (mk & ds & txt & rest & E & _). discriminate.
Qed.

Lemma loop_app filePath_ a b : forall i st,
  loop filePath_ i (a ++ b) st =
  loop filePath_ (i + length a) b (loop filePath_ i a st).
Proof.
  induction a as [|l a IH]; intros i st; simpl.
  - now rewrite Nat.add_0_r.
  - now rewrite IH, Nat.add_succ_r.
Qed.

(** Without a header nothing is recorded. *)
Lemma loop_no_header filePath_ ls : forall i,
  Forall (fun l => is_phase_header l = false) ls ->
  loop filePath_ i ls initial_state = initial_state.
Proof.
  induction ls as [|l ls IH]; intros i H; simpl; [reflexivity|].
  inversion H as [|? ? Hl Hls]; subst.
  apply is_phase_header_false in Hl.
  unfold loop_body at 1. rewrite Hl. simpl.
  destruct (String_match l re_task); auto.
Qed.

Lemma phases_from_labels filePath_ lines : forall i,
  map label (phases_from filePath_ i lines) =
  map phase_name (filter is_phase_header lines).
Proof.
  induction lines as [|l rest IH]; intros i; simpl; [reflexivity|].
  destruct (String_match l re_phase) as [pm|] eqn:Ep.
  - rewrite (is_phase_header_true _ _ Ep). simpl.
    unfold phase_name at 1. rewrite Ep, IH. reflexivity.
  - apply is_phase_header_false in Ep. rewrite Ep. apply IH.
Qed.

Lemma parse_labels filePath_ content :
  map label (parse filePath_ content) =
  map phase_name (filter is_phase_header (split_lines content)).
Proof. rewrite parse_phases_from. apply phases_from_labels. Qed.

(** C4. A line that matches the task pattern and stands before the first
    phase header leaves no trace: once it has been read the loop still has
    no phase, open or closed, and no task; the result is that of the lines
    after it; no task of the result comes from it; and the phases of the
    result are those of the headers after it. *)
Theorem task_before_first_header filePath_ content pre line post :
  split_lines content = pre ++ line :: post ->
  Forall (fun l => is_phase_header l = false) pre ->
  is_task_line line = true ->
  loop filePath_ 0 (pre ++ [line]) initial_state = initial_state /\
  parse filePath_ content =
    close_phase (loop filePath_ (S (length pre)) post initial_state) /\
  (forall p t, In p (parse filePath_ content) -> In t (children p) ->
               line_of t <> length pre) /\
  map label (parse filePath_ content) =
    map phase_name (filter is_phase_header post).
Proof.
  intros Hsplit Hpre Hline.
  pose proof (task_line_not_header _ Hline) as Hnh.
  assert (Hall : Forall (fun l => is_phase_header l = false) (pre ++ [line])).
  { apply Forall_app. split; auto. }
  assert (Hinit : loop filePath_ 0 (pre ++ [line]) initial_state = initial_state)
    by (apply loop_no_header; exact Hall).
  assert (Hnone : filter is_phase_header pre = []).
  { clear - Hpre. induction Hpre as [|x l Hx _ IH]; simpl; [reflexivity|].
    now rewrite Hx. }
  split; [exact Hinit|]. split; [|split].
  - unfold parse. rewrite Hsplit.
    change (pre ++ line :: post) with (pre ++ [line] ++ post).
    rewrite app_assoc, loop_app, Hinit, length_app. simpl.
    now rewrite Nat.add_comm.
  - intros p t Hp Ht Heq.
    apply In_nth_error in Hp. destruct Hp as [k Hp].
    destruct (parse_task_origin _ _ _ _ _ Hp Ht)
      as (n & l & m & _ & _ & -> & _ & Hcount).
    change (line_of (task_item filePath_ n m)) with n in Heq. subst n.
    rewrite Hsplit, firstn_app, Nat.sub_diag, firstn_all in Hcount.
    simpl in Hcount. rewrite app_nil_r, Hnone in Hcount. discriminate.
  - rewrite parse_labels, Hsplit, filter_app. simpl.
    now rewrite Hnone, Hnh.
Qed.

Lemma task_before_first_header_witness :
  let content := js "intro" ++ nl ++ js "- [ ] T000 early" ++ nl ++ example_doc in
  let filePath_ := js "tasks.md" in
  loop filePath_ 0 ([js "intro"] ++ [js "- [ ] T000 early"]) initial_state
    = initial_state /\
  parse filePath_ content =
    close_phase (loop filePath_ 2 (split_lines example_doc) initial_state) /\
  (forall p t, In p (parse filePath_ content) -> In t (children p) ->
               line_of t <> 1) /\
  map label (parse filePath_ content) =
    map phase_name (filter is_phase_header (split_lines example_doc)).
Proof.
  intros content filePath_.
  apply (task_before_first_header filePath_ content
           [js "intro"] (js "- [ ] T000 early") (split_lines example_doc)).
  - vm_compute. reflexivity.
  - repeat constructor.
  - vm_compute. reflexivity.
Defined.

Lemma line_of_task_item filePath_ i m : line_of (task_item filePath_ i m) = i.
Proof. reflexivity. Qed.

Lemma tasks_until_header_sorted filePath_ lines : forall i,
  StronglySorted lt (map line_of (tasks_until_header filePath_ i lines)) /\
  Forall (fun n => i <= n) (map line_of (tasks_until_header filePath_ i lines)).
Proof.
  induction lines as [|l rest IH]; intros i; simpl.
  - split; constructor.
  - destruct (IH (S i)) as [Hs Hb].
    assert (Hb' : Forall (fun n => i <= n)
                    (map line_of (tasks_until_header filePath_ (S i) rest))).
    { eapply Forall_impl; [|exact Hb]. simpl. intros; lia. }
    destruct (String_match l re_phase); [split; constructor|].
    destruct (String_match l re_task) as [tm|]; [|auto].
    cbn [map]. rewrite line_of_task_item. split.
    + constructor; [exact Hs|].
      eapply Forall_impl; [|exact Hb]. simpl. intros; lia.
    + constructor; [lia|exact Hb'].
Qed.

Lemma phases_from_sorted filePath_ lines : forall i p,
  In p (phases_from filePath_ i lines) ->
  StronglySorted lt (map line_of (children p)).
Proof.
  induction lines as [|l rest IH]; intros i p; simpl; [tauto|].
  destruct (String_match l re_phase) as [pm|]; [|apply IH].
  intros [<-|H]; [|eapply IH; eauto].
  apply tasks_until_header_sorted.
Qed.

(** C6. The phases of the result are the header lines of the document, in
    their order; inside a phase the tasks stand in increasing order of
    source line; and a task of the phase at position [k] comes from a task
    line that has exactly [k + 1] headers above it, so it belongs to the
    phase opened last before it. *)
Theorem document_order filePath_ content :
  map label (parse filePath_ content) =
    map phase_name (filter is_phase_header (split_lines content)) /\
  (forall p, In p (parse filePath_ content) ->
             StronglySorted lt (map line_of (children p))) /\
  (forall k p t,
     nth_error (parse filePath_ content) k = Some p ->
     In t (children p) ->
     exists line m,
       nth_error (split_lines content) (line_of t) = Some line /\
       String_match line re_task = Some m /\
       t = task_item filePath_ (line_of t) m /\
       is_phase_header line = false /\
       length (filter is_phase_header
                 (firstn (line_of t) (split_lines content))) = S k).
Proof.
  split; [apply parse_labels|]. split.
  - intros p. rewrite parse_phases_from. apply phases_from_sorted.
  - intros k p t Hp Ht.
    destruct (parse_task_origin _ _ _ _ _ Hp Ht)
      as (n & line & m & H1 & H2 & -> & H4 & H5).
    rewrite line_of_task_item. exists line, m. auto.
Qed.

Lemma document_order_witness :
  let filePath_ := js "tasks.md" in
  let p := nth 1 (parse filePath_ example_doc) no_item in
  let t := nth 0 (children p) no_item in
  StronglySorted lt (map line_of (children p)) /\
  exists line m,
    nth_error (split_lines example_doc) (line_of t) = Some line /\
    String_match line re_task = Some m /\
    t = task_item filePath_ (line_of t) m /\
    is_phase_header line = false /\
    length (filter is_phase_header
              (firstn (line_of t) (split_lines example_doc))) = 2.
Proof.
  intros filePath_ p t.
  assert (Hp : nth_error (parse filePath_ example_doc) 1 = Some p)
    by (vm_compute; reflexivity).
  assert (Ht : In t (children p)) by (vm_compute; left; reflexivity).
  destruct (document_order filePath_ example_doc) as (_ & Hsorted & Hattach).
  split.
  - apply Hsorted. exact (nth_error_In _ _ Hp).
  - exact (Hattach 1 p t Hp Ht).
Defined.

(** ** Phases without tasks *)

Lemma tasks_until_header_none filePath_ mid rest : forall i,
  Forall (fun l => is_phase_header l = false /\ is_task_line l = false) mid ->
  rest = [] \/
  (exists h2 rest', rest = h2 :: rest' /\ is_phase_header h2 = true) ->
  tasks_until_header filePath_ i (mid ++ rest) = [].
Proof.
  intros i Hmid Hrest. revert i.
  induction Hmid as [|l mid [Hh Ht] _ IH]; intros i; simpl.
  - destruct Hrest as [->|(h2 & rest' & -> & Hh2)]; [reflexivity|].
    simpl. unfold is_phase_header in Hh2.
    destruct (String_match h2 re_phase); [reflexivity|discriminate].
  - apply is_phase_header_false in Hh. rewrite Hh.
    unfold is_task_line in Ht.
    destruct (String_match l re_task); [discriminate|apply IH].
Qed.

Lemma phases_from_at_header filePath_ pre h pm tail : forall i,
  String_match h re_phase = Some pm ->
  nth_error (phases_from filePath_ i (pre ++ h :: tail))
            (length (filter is_phase_header pre)) =
  Some (set_tasks (phase_item filePath_ pm)
          (tasks_until_header filePath_ (S (i + length pre)) tail)).
Proof.
  intros i Hh. revert i.
  induction pre as [|l pre IH]; intros i; simpl.
  - now rewrite Hh, Nat.add_0_r.
  - rewrite Nat.add_succ_r.
    destruct (String_match l re_phase) as [pm'|] eqn:Ep.
    + rewrite (is_phase_header_true _ _ Ep). simpl. apply (IH (S i)).
    + apply is_phase_header_false in Ep. rewrite Ep. apply (IH (S i)).
Qed.

(** C7. A header line with no task line between it and the next header, or
    between it and the end of the document, still gives a phase in the
    result, at the position of its header among the headers and with an
    empty task list; the result has one phase for every header line. *)
Theorem empty_phase_kept filePath_ content pre h mid rest :
  split_lines content = pre ++ h :: mid ++ rest ->
  is_phase_header h = true ->
  Forall (fun l => is_phase_header l = false /\ is_task_line l = false) mid ->
  rest = [] \/
  (exists h2 rest', rest = h2 :: rest' /\ is_phase_header h2 = true) ->
  (exists p,
     nth_error (parse filePath_ content)
               (length (filter is_phase_header pre)) = Some p /\
     label p = phase_name h /\
     type p = js "phase" /\
     tasks p = Some []) /\
  length (parse filePath_ content) =
    length (filter is_phase_header (split_lines content)).
Proof.
  intros Hsplit Hh Hmid Hrest. split.
  - unfold is_phase_header in Hh.
    destruct (String_match h re_phase) as [pm|] eqn:Ep; [|discriminate].
    exists (set_tasks (phase_item filePath_ pm) []).
    rewrite parse_phases_from, Hsplit.
    rewrite (phases_from_at_header _ _ _ _ _ _ Ep).
    rewrite (tasks_until_header_none _ _ _ _ Hmid Hrest).
    unfold phase_name. rewrite Ep. repeat split; reflexivity.
  - rewrite <- (length_map label), parse_labels. apply length_map.
Qed.

Lemma empty_phase_kept_witness :
  let filePath_ := js "tasks.md" in
  let content := example_doc ++ nl ++ js "## Phase 3: Polish" ++ nl ++
                 js "notes" ++ nl ++ js "## Phase 4: Ship" in
  (exists p,
     nth_error (parse filePath_ content) 2 = Some p /\
     label p = js "Phase 3: Polish" /\
     type p = js "phase" /\
     tasks p = Some []) /\
  length (parse filePath_ content) = 4.
Proof.
  intros filePath_ content.
  apply (empty_phase_kept filePath_ content
           (split_lines example_doc) (js "## Phase 3: Polish")
           [js "notes"] [js "## Phase 4: Ship"]).
  - vm_compute. reflexivity.
  - vm_compute. reflexivity.
  - repeat constructor.
  - right. exists (js "## Phase 4: Ship"), []. split; vm_compute; reflexivity.
Defined.

(** ** Totality and determinism *)

(** C8. Whatever the text of the file, [parseTasksFile] returns a list of
    phases and raises nothing; the list is empty for the empty text and for
    a text without a phase header. *)
Theorem parse_total fs filePath_ content :
  fs filePath_ = Some content ->
  exists result,
    parseTasksFile fs filePath_ = Some result /\
    (content = [] -> result = []) /\
    (Forall (fun l => is_phase_header l = false) (split_lines content) ->
     result = []).
Proof.
  intros Hfs. unfold parseTasksFile. rewrite Hfs.
  exists (parse filePath_ content). split; [reflexivity|]. split.
  - intros ->. reflexivity.
  - intros H. unfold parse. now rewrite loop_no_header.
Qed.

Lemma parse_total_witness :
  let content := js "notes" ++ nl ++ js "- [ ] T001 stray [P]" ++ nl in
  let fs := fun _ : jsstring => Some content in
  exists result,
    parseTasksFile fs (js "tasks.md") = Some result /\
    (content = [] -> result = []) /\
    (Forall (fun l => is_phase_header l = false) (split_lines content) ->
     result = []).
Proof.
  intros content fs.
  apply (parse_total fs (js "tasks.md") content). reflexivity.
Defined.

(** ** Deleting every match *)

Lemma rx_sound (A : Type) r : forall s (k : cont A) res,
  rx r s k = Some res ->
  exists m g rest, s = m ++ rest /\ k m g rest = Some res.
Proof.
  induction r as [l|p|p|r1 IH1 r2 IH2|r1 IH1]; intros s k res; simpl.
  - destruct (lit l s) as [rest|] eqn:E; [|discriminate].
    apply lit_inv in E. intros H. exists l, [], rest. auto.
  - destruct s as [|c s]; [discriminate|].
    destruct (p c); [|discriminate]. intros H. exists [c], [], s. auto.
  - destruct s as [|c s]; [discriminate|].
    destruct (p c); [|discriminate]. intros H.
    apply plus_more_sound in H. destruct H as (a & b & -> & _ & H).
    exists ([c] ++ a), [], b. auto.
  - intros H. apply IH1 in H. destruct H as (m1 & g1 & s1 & -> & H).
    apply IH2 in H. destruct H as (m2 & g2 & s2 & -> & H).
    exists (m1 ++ m2), (g1 ++ g2), s2. rewrite <- app_assoc. auto.
  - intros H. apply IH1 in H. destruct H as (m & g & s1 & -> & H).
    exists m, (m :: g), s1. auto.
Qed.

Lemma match_here_sound r s res rest :
  match_here r s = Some (res, rest) ->
  exists m0 g, res = m0 :: g /\ s = m0 ++ rest.
Proof.
  unfold match_here. intros H. apply rx_sound in H.
  destruct H as (m & g & rest' & -> & H). inversion H; subst. eauto.
Qed.

Lemma match_len_le r s : match_len r s <= length s.
Proof.
  unfold match_len.
  destruct (match_here r s) as [[res rest]|] eqn:E; [|lia].
  apply match_here_sound in E. destruct E as (m0 & g & -> & ->).
  rewrite length_app. lia.
Qed.

Section Deletion.
Variable r : regex.

Lemma delete_all_unfold c s :
  delete_all r 0 (c :: s) =
  match match_len r (c :: s) with
  | S n => delete_all r n s
  | O => c :: delete_all r 0 s
  end.
Proof.
  unfold match_len. cbn [delete_all].
  destruct (match_here r (c :: s)) as [[[|m0 g] rest]|]; reflexivity.
Qed.

(** A stretch of text in which no match reaches over the end is
    processed on its own. *)
Lemma delete_all_local tail : forall a skip,
  skip <= length a ->
  (forall a1 a2, a = a1 ++ a2 -> a2 <> [] ->
                 match_len r (a2 ++ tail) = match_len r a2) ->
  delete_all r skip (a ++ tail) =
  delete_all r skip a ++ delete_all r 0 tail.
Proof.
  induction a as [|c a IH]; intros skip Hskip Hloc.
  - simpl in Hskip. assert (skip = 0) as -> by lia.
    destruct tail; reflexivity.
  - assert (Hloc' : forall a1 a2, a = a1 ++ a2 -> a2 <> [] ->
                      match_len r (a2 ++ tail) = match_len r a2).
    { intros a1 a2 -> Hne. apply (Hloc (c :: a1)); auto. }
    destruct skip as [|n].
    + change ((c :: a) ++ tail) with (c :: (a ++ tail)).
      rewrite !delete_all_unfold.
      change (c :: (a ++ tail)) with ((c :: a) ++ tail).
      rewrite (Hloc [] (c :: a)) by (auto; discriminate).
      pose proof (match_len_le r (c :: a)) as Hle. simpl in Hle.
      destruct (match_len r (c :: a)) as [|n].
      * simpl. f_equal. apply IH; [lia|exact Hloc'].
      * apply IH; [lia|exact Hloc'].
    + simpl. simpl in Hskip. apply IH; [lia|exact Hloc'].
Qed.

Lemma delete_all_skip x b :
  delete_all r (length x) (x ++ b) = delete_all r 0 b.
Proof.
  induction x as [|c x IH]; simpl; [|exact IH].
  destruct b; reflexivity.
Qed.


(** A match, and the text before it when no earlier match reaches into
    it: the match goes, and the two sides are processed apart. *)
Lemma delete_all_occurrence a t b :
  t <> [] ->
  match_len r (t ++ b) = length t ->
  (forall a1 a2, a = a1 ++ a2 -> a2 <> [] ->
                 match_len r (a2 ++ t ++ b) = match_len r a2) ->
  delete_all r 0 (a ++ t ++ b) = delete_all r 0 a ++ delete_all r 0 b.
Proof.
  intros Ht Hlen Hloc.
  rewrite delete_all_local by (auto; lia). f_equal.
  destruct t as [|c t]; [congruence|].
  change ((c :: t) ++ b) with (c :: (t ++ b)).
  rewrite delete_all_unfold.
  change (c :: (t ++ b)) with ((c :: t) ++ b).
  rewrite Hlen. simpl. apply delete_all_skip.
Qed.
End Deletion.


(** A pattern whose matches are the tags of a family, each of them an
    opening bracket followed by text without one. *)
Section Tag.
Variable r : regex.
Variable tag : jsstring -> Prop.
Hypothesis match_tag : forall s res rest,
  match_here r s = Some (res, rest) <->
  exists t, tag t /\ s = t ++ rest /\ res = [t].
Hypothesis tag_bracket : forall t,
  tag t -> exists t', t = 91%N :: t' /\ Forall (fun c => c <> 91%N) t'.

Lemma match_len_tag t b : tag t -> match_len r (t ++ b) = length t.
Proof.
  intros Ht. unfold match_len.
  assert (E : match_here r (t ++ b) = Some ([t], b))
    by (apply match_tag; eauto).
  now rewrite E.
Qed.

Lemma match_len_no_tag s :
  match_here r s = None -> match_len r s = 0.
Proof. unfold match_len. now intros ->. Qed.

Lemma tag_local a2 tail :
  a2 <> [] ->
  tail = [] \/ (exists tail', tail = 91%N :: tail') ->
  match_len r (a2 ++ tail) = match_len r a2.
Proof.
  intros Hne Htail.
  destruct (match_here r (a2 ++ tail)) as [[res rest]|] eqn:E.
  - apply match_tag in E. destruct E as (t & Ht & Heq & ->).
    assert (Hpre : exists rest2, a2 = t ++ rest2).
    { destruct Htail as [->|[tail' ->]].
      - rewrite app_nil_r in Heq. eauto.
      - apply app_eq_app in Heq.
        destruct Heq as [l [[H1 H2]|[H1 H2]]]; [eauto|].
        destruct l as [|x l];
          [rewrite app_nil_r in H1; exists []; rewrite app_nil_r; congruence|].
        exfalso. inversion H2; subst x.
        destruct (tag_bracket _ Ht) as (t' & Ht' & Hall).
        destruct a2 as [|y a2]; [congruence|].
        rewrite Ht' in H1. inversion H1; subst.
        apply Forall_app in Hall. destruct Hall as [_ Hall].
        inversion Hall; congruence. }
    destruct Hpre as [rest2 ->].
    rewrite <- app_assoc. now rewrite !match_len_tag.
  - rewrite (match_len_no_tag _ E). symmetry.
    destruct (match_here r a2) as [[res rest2]|] eqn:E2;
      [|now apply match_len_no_tag].
    apply match_tag in E2. destruct E2 as (t & Ht & -> & ->).
    rewrite <- app_assoc in E.
    assert (E' : match_here r (t ++ rest2 ++ tail) = Some ([t], rest2 ++ tail))
      by (apply match_tag; eauto).
    congruence.
Qed.

(** Every tag of the text is deleted, wherever it stands. *)
Lemma tag_deleted a t b :
  tag t ->
  delete_all r 0 (a ++ t ++ b) = delete_all r 0 a ++ delete_all r 0 b.
Proof.
  intros Ht. destruct (tag_bracket _ Ht) as (t' & Ht' & _).
  apply delete_all_occurrence.
  - rewrite Ht'. discriminate.
  - now apply match_len_tag.
  - intros a1 a2 _ Hne. apply tag_local; [exact Hne|].
    right. rewrite Ht'. simpl. eauto.
Qed.


End Tag.

(** ** The two tags *)

Lemma P_match s res rest :
  match_here re_P s = Some (res, rest) <->
  exists t, is_P_tag t /\ s = t ++ rest /\ res = [t].
Proof.
  unfold match_here, re_P, is_P_tag; cbn [rx]. split.
  - destruct (lit (js "[P]") s) as [rest'|] eqn:E; [|discriminate].
    apply lit_inv in E. intros H; inversion H; subst. eauto.
  - intros (t & -> & -> & ->). now rewrite lit_app.
Qed.

Lemma P_bracket t :
  is_P_tag t -> exists t', t = 91%N :: t' /\ Forall (fun c => c <> 91%N) t'.
Proof.
  intros ->. exists (js "P]"). split; [reflexivity|].
  repeat constructor; discriminate.
Qed.

Lemma digit_not_bracket c : digit c = true -> c <> 91%N /\ c <> 93%N.
Proof.
  unfold digit. intros H. apply andb_true_iff in H. destruct H as [_ H].
  apply N.leb_le in H. split; intros ->; lia.
Qed.

Lemma US_match s res rest :
  match_here re_US s = Some (res, rest) <->
  exists t, is_US_tag t /\ s = t ++ rest /\ res = [t].
Proof.
  unfold match_here, re_US, is_US_tag; cbn [rx]. split.
  - destruct (lit (js "[US") s) as [s1|] eqn:E1; [|discriminate].
    apply lit_inv in E1. destruct s1 as [|d s1]; [discriminate|].
    destruct (digit d) eqn:Hd; [|discriminate].
    intros H. apply plus_more_sound in H.
    destruct H as (a & b & -> & Ha & H).
    destruct (lit (js "]") b) as [b'|] eqn:E2; [|discriminate].
    apply lit_inv in E2. inversion H; subst.
    exists (js "[US" ++ (d :: a) ++ js "]"). split.
    + exists (d :: a). repeat split; auto. discriminate.
    + simpl. rewrite <- !app_assoc. auto.
  - intros (t & (ds & Hne & Hds & ->) & -> & ->).
    rewrite <- !app_assoc, lit_app.
    destruct ds as [|d ds]; [congruence|]. inversion Hds; subst.
    simpl app at 1. cbv beta iota. rewrite H1.
    rewrite plus_more_blocked.
    + rewrite <- app_assoc, span_prefix by assumption. simpl.
      rewrite app_nil_r. reflexivity.
    + intros t c r Hc. change (js "]") with [93%N]. cbn [lit].
      destruct (digit_not_bracket _ Hc) as [_ Hc'].
      destruct (N.eqb_spec 93 c); [congruence|reflexivity].
Qed.

Lemma US_bracket t :
  is_US_tag t -> exists t', t = 91%N :: t' /\ Forall (fun c => c <> 91%N) t'.
Proof.
  intros (ds & _ & Hds & ->). exists (js "US" ++ ds ++ js "]").
  split; [reflexivity|].
  repeat (constructor; [discriminate|]).
  apply Forall_app. split.
  - eapply Forall_impl; [|exact Hds]. intros c Hc.
    now apply digit_not_bracket.
  - repeat constructor. discriminate.
Qed.





(** ** A greedy [+] followed by a second one *)

Section GiveBack.
Variable A : Type.
Variables p q : code_unit -> bool.
Hypothesis p_in_q : forall c, p c = true -> q c = true.
Variable F : jsstring -> list jsstring -> jsstring -> list jsstring ->
             jsstring -> A.

(** What follows the first [+] is a second [+], over [q], and then
    success.  On a text that ends inside the first class, the first [+]
    gives its last character to the second. *)
Lemma plus_gives_back ds : forall taken,
  Forall (fun c => p c = true) ds ->
  plus_more p
    (fun m1 g1 s1 =>
       match s1 with
       | [] => None
       | c :: s' =>
           if q c
           then plus_more q (fun m2 g2 s2 => Some (F m1 g1 m2 g2 s2)) [c] s'
           else None
       end) taken ds =
  match rev ds with
  | [] => None
  | x :: front => Some (F (taken ++ rev front) [] [x] [] [])
  end.
Proof.
  induction ds as [|c ds IH]; intros taken Hds; [reflexivity|].
  inversion Hds as [|? ? Hc Hds']; subst.
  cbn [plus_more rev]. rewrite Hc, (IH _ Hds').
  destruct (rev ds) as [|x front] eqn:E; simpl.
  - apply (f_equal (@rev _)) in E. rewrite rev_involutive in E. subst ds.
    simpl. rewrite (p_in_q _ Hc), app_nil_r. reflexivity.
  - rewrite rev_app_distr, <- app_assoc. reflexivity.
Qed.
End GiveBack.

Lemma digit_is_dot c : digit c = true -> dot c = true.
Proof.
  unfold digit, dot. intros H. apply andb_true_iff in H.
  destruct H as [H1 H2]. apply N.leb_le in H1, H2.
  destruct (N.eqb_spec c 10); [lia|]. destruct (N.eqb_spec c 13); [lia|].
  destruct (N.eqb_spec c 8232); [lia|]. destruct (N.eqb_spec c 8233); [lia|].
  reflexivity.
Qed.

(** A line that ends with its id: the last digit of the id is taken for the
    text, and a one-digit id is not accepted. *)
Lemma task_match_bare_id mk d ds :
  marker mk = true ->
  Forall (fun c => digit c = true) (d :: ds) ->
  String_match (js "- [" ++ mk :: js "] T" ++ d :: ds) re_task =
  match rev ds with
  | [] => None
  | x :: front =>
      Some [js "- [" ++ mk :: js "] T" ++ d :: ds; [mk];
            js "T" ++ d :: rev front; [x]]
  end.
Proof.
  intros Hmk Hds. inversion Hds as [|? ? Hd Hds']; subst.
  unfold String_match, re_task, match_here; cbn [anchored body rx].
  rewrite (lit_app (js "- [") (mk :: js "] T" ++ d :: ds)), Hmk.
  change (js "] T" ++ d :: ds) with (js "] " ++ js "T" ++ d :: ds).
  rewrite (lit_app (js "] ") (js "T" ++ d :: ds)).
  rewrite (lit_app (js "T") (d :: ds)), Hd.
  etransitivity.
  { apply (f_equal (option_map fst)).
    exact (plus_gives_back _ digit dot digit_is_dot
             (fun m1 g1 m2 g2 s2 =>
                ((js "- [" ++ [mk] ++ js "] " ++ (js "T" ++ m1) ++ m2)
                 :: [] ++ [[mk]] ++ [] ++ ((js "T" ++ m1) :: [] ++ g1) ++ m2 :: g2,
                 s2)) ds [d] Hds'). }
  destruct (rev ds) as [|x front] eqn:E; [reflexivity|].
  simpl. do 3 f_equal.
  apply (f_equal (@rev _)) in E. rewrite rev_involutive in E. simpl in E.
  rewrite E. reflexivity.
Qed.

(** C10. On the line [- [ ] T001], with or without a carriage return after
    it, the task pattern matches: the id gives back its last digit, so the
    task is recorded as [T00] with the text [1].  Only an id of a single
    digit with nothing after it is refused. *)
Theorem bare_id_loses_last_digit :
  well_formed (js "## Phase 1: Setup" ++ nl ++ js "- [ ] T001") = true /\
  String_match (js "- [ ] T001") re_task
  = Some [js "- [ ] T001"; js " "; js "T00"; js "1"] /\
  map phase_view
      (parse (js "tasks.md")
             (js "## Phase 1: Setup" ++ nl ++ js "- [ ] T001"))
  = [ (js "Phase 1: Setup",
       [ Some {| taskId := js "T00"; description := js "1";
                 isCompleted := false; hasParallel := false;
                 story := []; lineNumber := 1 |} ]) ] /\
  map phase_view
      (parse (js "tasks.md")
             (js "## Phase 1: Setup" ++ [CR] ++ nl ++
              js "- [x] T001" ++ [CR] ++ nl))
  = [ (js "Phase 1: Setup",
       [ Some {| taskId := js "T00"; description := js "1";
                 isCompleted := true; hasParallel := false;
                 story := []; lineNumber := 1 |} ]) ] /\
  String_match (js "- [ ] T1") re_task = None.
Proof. vm_compute. auto. Qed.

(** * Further properties of the parser *)

(** ** Trimming *)

Lemma trimStart_split s :
  exists ws, s = ws ++ trimStart s /\
             Forall (fun c => is_whitespace c = true) ws.
Proof.
  induction s as [|c s IH]; simpl.
  - exists []. auto.
  - destruct (is_whitespace c) eqn:E.
    + destruct IH as (ws & Hs & Hws). exists (c :: ws). split; auto.
      simpl. congruence.
    + exists []. auto.
Qed.

Lemma trimStart_head s c rest :
  trimStart s = c :: rest -> is_whitespace c = false.
Proof.
  induction s as [|x s IH]; simpl; [discriminate|].
  destruct (is_whitespace x) eqn:E; [exact IH|].
  intros H; inversion H; subst. exact E.
Qed.

Lemma trimEnd_split s :
  exists ws, s = trimEnd s ++ ws /\
             Forall (fun c => is_whitespace c = true) ws.
Proof.
  unfold trimEnd. destruct (trimStart_split (rev s)) as (ws & Hs & Hws).
  exists (rev ws). split.
  - rewrite <- rev_app_distr, <- Hs. symmetry. apply rev_involutive.
  - apply Forall_rev. exact Hws.
Qed.

Lemma trimEnd_last s front c :
  trimEnd s = front ++ [c] -> is_whitespace c = false.
Proof.
  unfold trimEnd. intros H. apply (f_equal (@rev _)) in H.
  rewrite rev_involutive, rev_app_distr in H. simpl in H.
  exact (trimStart_head _ _ _ H).
Qed.

Lemma trim_head s c rest : trim s = c :: rest -> is_whitespace c = false.
Proof.
  unfold trim. intros H.
  destruct (trimEnd_split (trimStart s)) as (ws & Hs & _).
  rewrite H in Hs. simpl in Hs. exact (trimStart_head _ _ _ Hs).
Qed.

Lemma trim_last s front c : trim s = front ++ [c] -> is_whitespace c = false.
Proof. unfold trim. apply trimEnd_last. Qed.

Lemma truncate_length s : length (truncate s) <= 80.
Proof.
  destruct (Nat.le_gt_cases (length s) 80) as [H|H].
  - now rewrite truncate_short.
  - destruct (truncate_long s H) as [_ ->]. lia.
Qed.

(** ** The cleaned text in the words of the specification *)

Section Stripping.
Variable r : regex.
Variable tag : jsstring -> Prop.
Hypothesis match_tag : forall s res rest,
  match_here r s = Some (res, rest) <->
  exists t, tag t /\ s = t ++ rest /\ res = [t].
Hypothesis tag_bracket : forall t,
  tag t -> exists t', t = 91%N :: t' /\ Forall (fun c => c <> 91%N) t'.

(** The deletion of the matches is the stripping of the tags. *)
Lemma delete_all_stripped s : tags_stripped tag s (delete_all r 0 s).
Proof.
  remember (length s) as n eqn:Hn.
  revert s Hn. induction n as [n IH] using lt_wf_ind. intros s Hn.
  destruct s as [|c s]; [constructor|].
  rewrite delete_all_unfold.
  destruct (match_here r (c :: s)) as [[res rest]|] eqn:E.
  - apply match_tag in E. destruct E as (t & Ht & Heq & _).
    rewrite Heq, (match_len_tag r tag match_tag t rest Ht).
    destruct (tag_bracket _ Ht) as (t' & -> & _).
    inversion Heq; subst c s. cbn [length].
    rewrite delete_all_skip.
    apply (stripped_tag tag (91%N :: t') rest); [exact Ht|].
    apply (IH (length rest)); [|reflexivity].
    subst n. cbn [length]. rewrite length_app. lia.
  - rewrite (match_len_no_tag r _ E).
    apply stripped_keep.
    + intros t rest Ht Heq.
      assert (E' : match_here r (c :: s) = Some ([t], rest))
        by (apply match_tag; eauto).
      congruence.
    + apply (IH (length s)); [|reflexivity]. subst n. simpl. lia.
Qed.

(** The stripping of the tags leaves one text only. *)
Lemma tags_stripped_unique s x :
  tags_stripped tag s x -> x = delete_all r 0 s.
Proof.
  induction 1 as [|t s x Ht _ IH|c s x Hno _ IH].
  - reflexivity.
  - rewrite IH.
    exact (eq_sym (tag_deleted r tag match_tag tag_bracket [] t s Ht)).
  - rewrite delete_all_unfold.
    destruct (match_here r (c :: s)) as [[res rest]|] eqn:E.
    + apply match_tag in E. destruct E as (t & Ht & Heq & _).
      exfalso. exact (Hno t rest Ht Heq).
    + rewrite (match_len_no_tag r _ E). now rewrite IH.
Qed.
End Stripping.

Lemma trimStart_white l s :
  Forall (fun c => is_whitespace c = true) l ->
  trimStart (l ++ s) = trimStart s.
Proof.
  induction 1 as [|c l Hc _ IH]; [reflexivity|].
  simpl. now rewrite Hc.
Qed.

Lemma trimmed_trim s : trimmed s (trim s).
Proof.
  destruct (trimStart_split s) as (l & Hl & Hwl).
  destruct (trimEnd_split (trimStart s)) as (r & Hr & Hwr).
  exists l, r. fold (trim s) in Hr.
  split; [now rewrite <- Hr|]. repeat split; auto.
  - apply trim_head.
  - apply trim_last.
Qed.

(** The trimming leaves one text only. *)
Lemma trimmed_unique s x : trimmed s x -> x = trim s.
Proof.
  intros (l & r & -> & Hl & Hr & Hhead & Hlast).
  unfold trim. rewrite trimStart_white by exact Hl.
  assert (Hrev : Forall (fun c => is_whitespace c = true) (rev r))
    by (now apply Forall_rev).
  destruct x as [|c rest].
  - simpl. rewrite <- (app_nil_r r), trimStart_white by exact Hr.
    reflexivity.
  - assert (Hc := Hhead c rest eq_refl).
    change (trimStart ((c :: rest) ++ r))
      with (if is_whitespace c then trimStart (rest ++ r)
            else (c :: rest) ++ r).
    rewrite Hc. unfold trimEnd.
    rewrite rev_app_distr, trimStart_white by exact Hrev.
    destruct (exists_last (l := c :: rest)) as (front & z & Hx);
      [discriminate|].
    rewrite Hx, rev_app_distr. simpl.
    rewrite (Hlast front z Hx). simpl. now rewrite rev_involutive.
Qed.

(** C2. The stored description of a task is decided by the text that is
    left of the description after its parallel tags and then its story tags
    have been stripped and the white space at its ends trimmed: when that
    text has more than 80 characters, its first 77 characters followed by
    "...", 80 characters in all; when it has 80 or fewer, that text
    unchanged, however long the description was with its tags.  Stripping
    and trimming are those of the specification, and each leaves one text
    only. *)
Theorem description_truncation filePath_ content p t :
  In p (parse filePath_ content) ->
  In t (children p) ->
  exists line m d no_P no_US cleaned,
    taskData t = Some d /\
    nth_error (split_lines content) (lineNumber d) = Some line /\
    String_match line re_task = Some m /\
    let raw := trim (group m 3) in
    tags_stripped is_P_tag raw no_P /\
    tags_stripped is_US_tag no_P no_US /\
    trimmed no_US cleaned /\
    (forall x, tags_stripped is_P_tag raw x -> x = no_P) /\
    (forall x, tags_stripped is_US_tag no_P x -> x = no_US) /\
    (forall x, trimmed no_US x -> x = cleaned) /\
    (80 < length cleaned ->
     description d = firstn 77 cleaned ++ js "..." /\
     length (description d) = 80) /\
    (length cleaned <= 80 -> description d = cleaned).
Proof.
  intros Hp Ht.
  destruct (parse_task_line _ _ _ _ Hp Ht) as (n & line & m & H1 & H2 & ->).
  exists line, m. eexists.
  exists (delete_all re_P 0 (trim (group m 3))).
  exists (delete_all re_US 0 (delete_all re_P 0 (trim (group m 3)))).
  exists (clean (trim (group m 3))).
  rewrite taskData_task_item.
  split; [reflexivity|]. cbn [lineNumber description].
  split; [exact H1|]. split; [exact H2|]. cbv zeta.
  split; [apply (delete_all_stripped re_P is_P_tag P_match P_bracket)|].
  split; [apply (delete_all_stripped re_US is_US_tag US_match US_bracket)|].
  split; [apply trimmed_trim|].
  split; [apply (tags_stripped_unique re_P is_P_tag P_match P_bracket)|].
  split; [apply (tags_stripped_unique re_US is_US_tag US_match US_bracket)|].
  split; [apply trimmed_unique|].
  split; [apply truncate_long | apply truncate_short].
Qed.

Lemma description_truncation_witness :
  let p := nth 0 (parse (js "tasks.md") long_doc) no_item in
  let long_task := nth 0 (children p) no_item in
  let tagged_task := nth 1 (children p) no_item in
  (option_map description (taskData long_task)
   = Some (repeat 97%N 77 ++ js "...") /\
    exists line m d no_P no_US cleaned,
      taskData long_task = Some d /\
      nth_error (split_lines long_doc) (lineNumber d) = Some line /\
      String_match line re_task = Some m /\
      let raw := trim (group m 3) in
      tags_stripped is_P_tag raw no_P /\
      tags_stripped is_US_tag no_P no_US /\
      trimmed no_US cleaned /\
      (forall x, tags_stripped is_P_tag raw x -> x = no_P) /\
      (forall x, tags_stripped is_US_tag no_P x -> x = no_US) /\
      (forall x, trimmed no_US x -> x = cleaned) /\
      (80 < length cleaned ->
       description d = firstn 77 cleaned ++ js "..." /\
       length (description d) = 80) /\
      (length cleaned <= 80 -> description d = cleaned)) /\
  (option_map description (taskData tagged_task)
   = Some (repeat 98%N 78) /\
    exists line m d no_P no_US cleaned,
      taskData tagged_task = Some d /\
      nth_error (split_lines long_doc) (lineNumber d) = Some line /\
      String_match line re_task = Some m /\
      let raw := trim (group m 3) in
      tags_stripped is_P_tag raw no_P /\
      tags_stripped is_US_tag no_P no_US /\
      trimmed no_US cleaned /\
      (forall x, tags_stripped is_P_tag raw x -> x = no_P) /\
      (forall x, tags_stripped is_US_tag no_P x -> x = no_US) /\
      (forall x, trimmed no_US x -> x = cleaned) /\
      (80 < length cleaned ->
       description d = firstn 77 cleaned ++ js "..." /\
       length (description d) = 80) /\
      (length cleaned <= 80 -> description d = cleaned)).
Proof.
  intros p long_task tagged_task.
  assert (Hp : In p (parse (js "tasks.md") long_doc))
    by (vm_compute; left; reflexivity).
  split; (split; [vm_compute; reflexivity|]).
  - apply (description_truncation (js "tasks.md") long_doc p long_task Hp).
    vm_compute. left. reflexivity.
  - apply (description_truncation (js "tasks.md") long_doc p tagged_task Hp).
    vm_compute. right. left. reflexivity.
Defined.

(** X1. The description stored for a task has at most 80 code units and
    neither begins nor ends with a white-space character. *)
Theorem description_bounded_and_trimmed filePath_ content p t d :
  In p (parse filePath_ content) ->
  In t (children p) ->
  taskData t = Some d ->
  length (description d) <= 80 /\
  (forall c rest, description d = c :: rest -> is_whitespace c = false) /\
  (forall front c, description d = front ++ [c] -> is_whitespace c = false).
Proof.
  intros Hp Ht Hd.
  destruct (parse_task_line _ _ _ _ Hp Ht) as (n & line & m & _ & _ & ->).
  rewrite taskData_task_item in Hd. inversion Hd; subst d; clear Hd.
  cbn [description].
  set (x := clean (trim (group m 3))).
  assert (Hx : x = trim (String_replace_g
                           (String_replace_g (trim (group m 3)) re_P) re_US))
    by reflexivity.
  split; [apply truncate_length|].
  destruct (Nat.le_gt_cases (length x) 80) as [H|H].
  - rewrite (truncate_short _ H), Hx. split.
    + intros c rest. apply trim_head.
    + intros front c. apply trim_last.
  - destruct (truncate_long x H) as [-> _]. split.
    + intros c rest E. destruct x as [|y x']; [simpl in H; lia|].
      simpl in E. inversion E; subst. exact (trim_head _ _ _ (eq_sym Hx)).
    + intros front c E.
      change (js "...") with ([46%N; 46%N] ++ [46%N]) in E.
      rewrite app_assoc in E. apply app_inj_tail in E.
      destruct E as [_ <-]. reflexivity.
Qed.

Lemma description_bounded_and_trimmed_witness :
  exists d,
    taskData (nth 0 (children (nth 0 (parse (js "tasks.md") long_doc) no_item))
                  no_item) = Some d /\
    length (description d) <= 80 /\
    (forall c rest, description d = c :: rest -> is_whitespace c = false) /\
    (forall front c, description d = front ++ [c] -> is_whitespace c = false).
Proof.
  eexists. split; [vm_compute; reflexivity|].
  apply (description_bounded_and_trimmed (js "tasks.md") long_doc
           (nth 0 (parse (js "tasks.md") long_doc) no_item)
           (nth 0 (children (nth 0 (parse (js "tasks.md") long_doc) no_item))
                no_item)).
  - vm_compute. left. reflexivity.
  - vm_compute. left. reflexivity.
  - vm_compute. reflexivity.
Defined.

(** ** No task line is lost *)

Lemma StronglySorted_app (A : Type) (R : A -> A -> Prop) a b :
  StronglySorted R a -> StronglySorted R b ->
  (forall x y, In x a -> In y b -> R x y) ->
  StronglySorted R (a ++ b).
Proof.
  induction a as [|x a IH]; intros Ha Hb Hab; simpl; [exact Hb|].
  inversion Ha as [|? ? Ha' Hx]; subst. constructor.
  - apply IH; auto. intros; apply Hab; simpl; auto.
  - apply Forall_app. split; [exact Hx|].
    apply Forall_forall. intros y Hy. apply Hab; simpl; auto.
Qed.

Lemma filter_firstn_nil (A : Type) (f : A -> bool) l : forall a b,
  filter f (firstn a l) = [] -> b <= a -> filter f (firstn b l) = [].
Proof.
  induction l as [|x l IH]; intros a b H Hle.
  - now rewrite firstn_nil.
  - destruct b as [|b]; [reflexivity|]. destruct a as [|a]; [lia|].
    simpl in *. destruct (f x); [discriminate|]. apply (IH a); [exact H|lia].
Qed.

Lemma tasks_until_header_complete filePath_ lines : forall i n line m,
  nth_error lines n = Some line ->
  String_match line re_task = Some m ->
  filter is_phase_header (firstn (S n) lines) = [] ->
  In (task_item filePath_ (i + n) m) (tasks_until_header filePath_ i lines).
Proof.
  induction lines as [|l rest IH]; intros i n line m Hn Hm Hf.
  - destruct n; discriminate.
  - simpl in Hf. destruct (is_phase_header l) eqn:Hl; [discriminate|].
    apply is_phase_header_false in Hl. simpl. rewrite Hl.
    destruct n as [|n]; simpl in Hn.
    + inversion Hn; subst l. rewrite Hm, Nat.add_0_r. now left.
    + assert (Hin : In (task_item filePath_ (i + S n) m)
                       (tasks_until_header filePath_ (S i) rest)).
      { rewrite Nat.add_succ_r. apply (IH (S i) n line m); auto. }
      destruct (String_match l re_task); [now right|exact Hin].
Qed.

Lemma phases_from_complete filePath_ lines : forall i n line m,
  nth_error lines n = Some line ->
  String_match line re_task = Some m ->
  existsb is_phase_header (firstn n lines) = true ->
  In (task_item filePath_ (i + n) m)
     (flat_map children (phases_from filePath_ i lines)).
Proof.
  induction lines as [|l rest IH]; intros i n line m Hn Hm He.
  - destruct n; discriminate.
  - destruct n as [|n]; [discriminate|]. simpl in Hn, He.
    rewrite Nat.add_succ_r. simpl.
    destruct (String_match l re_phase) as [pm|] eqn:Ep.
    + simpl. apply in_or_app.
      destruct (existsb is_phase_header (firstn n rest)) eqn:E.
      * right. apply (IH (S i) n line m); auto.
      * left. change (children (set_tasks (phase_item filePath_ pm)
                         (tasks_until_header filePath_ (S i) rest)))
          with (tasks_until_header filePath_ (S i) rest).
        apply (tasks_until_header_complete _ _ (S i) n line m); auto.
        assert (Hline : is_phase_header line = false).
        { apply task_line_not_header. unfold is_task_line. now rewrite Hm. }
        clear - Hn E Hline. revert n Hn E.
        induction rest as [|x rest IHr]; intros [|n]; simpl;
          try discriminate.
        -- intros H _. inversion H; subst. now rewrite Hline.
        -- intros H E. apply orb_false_iff in E. destruct E as [-> E].
           apply (IHr n); auto.
    + apply is_phase_header_false in Ep. rewrite Ep in He. simpl in He.
      apply (IH (S i) n line m); auto.
Qed.

Lemma phases_from_children_below filePath_ lines i t :
  In t (flat_map children (phases_from filePath_ i lines)) ->
  exists n, line_of t = i + n /\ filter is_phase_header (firstn n lines) <> [].
Proof.
  intros H. apply in_flat_map in H. destruct H as (p & Hp & Ht).
  apply In_nth_error in Hp. destruct Hp as [k Hp].
  destruct (phases_from_origin _ _ _ _ _ _ Hp Ht)
    as (n & line & m & _ & _ & -> & _ & Hc).
  exists n. split; [reflexivity|]. intros E. now rewrite E in Hc.
Qed.

Lemma phases_from_sorted_all filePath_ lines : forall i,
  StronglySorted lt
    (map line_of (flat_map children (phases_from filePath_ i lines))).
Proof.
  induction lines as [|l rest IH]; intros i; simpl; [constructor|].
  destruct (String_match l re_phase) as [pm|]; [|apply IH].
  simpl. rewrite map_app. apply StronglySorted_app; [|apply IH|].
  - apply tasks_until_header_sorted.
  - intros x y Hx Hy.
    apply in_map_iff in Hx. destruct Hx as (tx & <- & Hx).
    apply in_map_iff in Hy. destruct Hy as (ty & <- & Hy).
    change (children (set_tasks (phase_item filePath_ pm)
               (tasks_until_header filePath_ (S i) rest)))
      with (tasks_until_header filePath_ (S i) rest) in Hx.
    apply tasks_until_header_origin in Hx.
    destruct Hx as (n & _ & m & _ & _ & -> & Hn).
    apply phases_from_children_below in Hy.
    destruct Hy as (n' & -> & Hn').
    rewrite line_of_task_item.
    destruct (Nat.lt_ge_cases n n') as [Hlt|Hge]; [lia|].
    exfalso. apply Hn'. apply (filter_firstn_nil _ _ _ (S n)); [exact Hn|lia].
Qed.

Lemma existsb_filter (A : Type) (f : A -> bool) l :
  existsb f l = true <-> filter f l <> [].
Proof.
  induction l as [|x l IH]; simpl; [split; [discriminate|congruence]|].
  destruct (f x); simpl; [split; [discriminate|reflexivity]|exact IH].
Qed.

(** X2. Read phase after phase, the tasks of the result are exactly the
    lines of the document that match the task pattern and stand below a
    phase header, each of them once and in the order of the document:
    their line numbers increase strictly, and a line number occurs among
    them if and only if it is the index of such a line. *)
Theorem every_task_line_kept filePath_ content :
  let lines := split_lines content in
  let found := map line_of (flat_map children (parse filePath_ content)) in
  StronglySorted lt found /\
  forall n,
    In n found <->
    exists line,
      nth_error lines n = Some line /\
      is_task_line line = true /\
      existsb is_phase_header (firstn n lines) = true.
Proof.
  intros lines found. subst found. rewrite parse_phases_from. fold lines.
  split; [apply phases_from_sorted_all|].
  intros n. split.
  - intros H. apply in_map_iff in H. destruct H as (t & <- & Ht).
    apply in_flat_map in Ht. destruct Ht as (p & Hp & Ht).
    apply In_nth_error in Hp. destruct Hp as [k Hp].
    destruct (phases_from_origin _ _ _ _ _ _ Hp Ht)
      as (j & line & m & H1 & H2 & -> & _ & Hc).
    rewrite line_of_task_item. change (0 + j) with j. exists line.
    split; [exact H1|]. split; [unfold is_task_line; now rewrite H2|].
    apply existsb_filter. intros E. now rewrite E in Hc.
  - intros (line & H1 & H2 & H3). unfold is_task_line in H2.
    destruct (String_match line re_task) as [m|] eqn:Em; [|discriminate].
    apply in_map_iff. exists (task_item filePath_ n m).
    split; [apply line_of_task_item|].
    exact (phases_from_complete filePath_ lines 0 n line m H1 Em H3).
Qed.

Lemma every_task_line_kept_witness :
  In 4 (map line_of (flat_map children (parse (js "tasks.md") example_doc))).
Proof.
  apply (proj2 (every_task_line_kept (js "tasks.md") example_doc)).
  exists (js "- [ ] T003 Compile sources [P][US2]").
  repeat split; vm_compute; reflexivity.
Defined.

(** ** The name of a phase *)






Lemma phases_from_phase_origin filePath_ lines : forall i p,
  In p (phases_from filePath_ i lines) ->
  exists line pm ts,
    In line lines /\ String_match line re_phase = Some pm /\
    p = set_tasks (phase_item filePath_ pm) ts.
Proof.
  induction lines as [|l rest IH]; intros i p; simpl; [tauto|].
  assert (Hrest : In p (phases_from filePath_ (S i) rest) ->
    exists line pm ts,
      (l = line \/ In line rest) /\ String_match line re_phase = Some pm /\
      p = set_tasks (phase_item filePath_ pm) ts).
  { intros H. destruct (IH _ _ H) as (line & pm & ts & H1 & H2 & H3).
    exists line, pm, ts. auto. }
  destruct (String_match l re_phase) as [pm|] eqn:Ep; [|exact Hrest].
  intros [<-|H]; [|auto].
  exists l, pm, (tasks_until_header filePath_ (S i) rest). auto.
Qed.



(** * The task view *)

Lemma collect_phases_flat h specsPath features : forall found res,
  collect_phases h specsPath features found = Some res ->
  res = found ++ flat_map (phases_of_feature h specsPath) features.
Proof.
  induction features as [|feature rest IH]; intros found res; simpl.
  - intros H; inversion H. now rewrite app_nil_r.
  - unfold phases_of_feature at 1, parseTasksFile.
    destruct (existsSync h _); [|apply IH].
    destruct (readFileSync h _) as [content|]; [|discriminate].
    intros H. apply IH in H. now rewrite <- app_assoc in H.
Qed.

Lemma phases_of_feature_parse h specsPath feature r :
  In r (phases_of_feature h specsPath feature) ->
  exists filePath_ content,
    readFileSync h filePath_ = Some content /\
    In r (parse filePath_ content).
Proof.
  unfold phases_of_feature.
  destruct (existsSync h _); [|simpl; tauto].
  destruct (readFileSync h _) as [content|] eqn:E; [|simpl; tauto].
  eauto.
Qed.

Lemma findTasksFiles_items h items r :
  findTasksFiles h = Some items ->
  In r items ->
  (exists text, r = info_item text) \/
  (exists filePath_ content,
     readFileSync h filePath_ = Some content /\
     In r (parse filePath_ content)).
Proof.
  unfold findTasksFiles.
  destruct (workspaceFolder h) as [folder|];
    [|intros H; inversion H; subst; simpl; tauto].
  destruct (negb (existsSync h _)).
  - intros H; inversion H; subst. intros [<-|[]]. left. eauto.
  - destruct (readdirSync h _) as [features|]; [|discriminate].
    destruct (collect_phases h _ features []) as [found|] eqn:E;
      [|discriminate].
    apply collect_phases_flat in E. simpl in E.
    intros H; inversion H; subst items; clear H.
    destruct (0 <? length found).
    + subst found. intros Hr. right.
      apply in_flat_map in Hr. destruct Hr as (feature & _ & Hr).
      exact (phases_of_feature_parse _ _ _ _ Hr).
    + intros [<-|[]]. left. eauto.
Qed.

(** X4. The tree of the task view has two levels.  An item the root shows
    is a placeholder without children or a phase whose children are its
    tasks; a child of a phase is a task, has no children of its own, shows
    its description as tooltip and carries the command that opens its file
    at its line. *)
Theorem task_tree_two_levels h roots r :
  getChildren h None = Some roots ->
  In r roots ->
  (type r = js "info" /\ getChildren h (Some r) = Some []) \/
  (type r = js "phase" /\
   getChildren h (Some r) = Some (children r) /\
   forall t, In t (children r) ->
     type t = js "task" /\
     getChildren h (Some t) = Some [] /\
     exists d,
       taskData t = Some d /\
       tooltip t = Some (description d) /\
       command t = Some {| command_name := js "vscode.open";
                           command_title := js "Open Task";
                           command_file := filePath r;
                           command_line := lineNumber d |}).
Proof.
  simpl. intros Hroots Hr.
  destruct (findTasksFiles_items _ _ _ Hroots Hr)
    as [[text ->]|(filePath_ & content & _ & Hp)].
  - left. split; reflexivity.
  - right. pose proof Hp as Hp'. rewrite parse_phases_from in Hp'.
    destruct (phases_from_phase_origin _ _ _ _ Hp')
      as (line & pm & ts & _ & _ & E).
    assert (Hty : type r = js "phase") by (rewrite E; reflexivity).
    assert (Hfp : filePath r = filePath_) by (rewrite E; reflexivity).
    split; [exact Hty|]. rewrite Hty. split; [reflexivity|].
    intros t Ht.
    destruct (parse_task_line _ _ _ _ Hp Ht) as (n & l & m & _ & _ & ->).
    split; [reflexivity|]. split; [reflexivity|].
    eexists. rewrite taskData_task_item. split; [reflexivity|].
    rewrite Hfp. split; reflexivity.
Qed.

Lemma task_tree_two_levels_witness :
  let roots := match getChildren example_host None with
               | Some items => items
               | None => []
               end in
  let r := nth 0 roots no_item in
  (type r = js "info" /\ getChildren example_host (Some r) = Some []) \/
  (type r = js "phase" /\
   getChildren example_host (Some r) = Some (children r) /\
   forall t, In t (children r) ->
     type t = js "task" /\
     getChildren example_host (Some t) = Some [] /\
     exists d,
       taskData t = Some d /\
       tooltip t = Some (description d) /\
       command t = Some {| command_name := js "vscode.open";
                           command_title := js "Open Task";
                           command_file := filePath r;
                           command_line := lineNumber d |}).
Proof.
  intros roots r.
  apply (task_tree_two_levels example_host roots r).
  - vm_compute. reflexivity.
  - vm_compute. left. reflexivity.
Defined.


Lemma findTasksFiles_cases h folder items :
  workspaceFolder h = Some folder ->
  findTasksFiles h = Some items ->
  let specsPath := path_join h [folder; js "specs"] in
  items <> [] /\
  ((existsSync h specsPath = false /\
    items = [info_item (js "No specs/ folder found")]) \/
   (existsSync h specsPath = true /\
    exists features,
      readdirSync h specsPath = Some features /\
      let found := flat_map (phases_of_feature h specsPath) features in
      ((found <> [] /\ items = found) \/
       (found = [] /\ items = [info_item (js "No tasks found")])))).
Proof.
  intros Hws. unfold findTasksFiles. rewrite Hws. cbv zeta.
  destruct (existsSync h (path_join h [folder; js "specs"])); simpl.
  2:{ intros H; inversion H; subst. split; [congruence|]. left. auto. }
  destruct (readdirSync h _) as [features|]; [|discriminate].
  destruct (collect_phases h _ features []) as [found|] eqn:E; [|discriminate].
  apply collect_phases_flat in E. simpl in E. subst found.
  intros H; inversion H; subst items; clear H.
  destruct (flat_map _ features) as [|x found] eqn:Ef; simpl.
  - split; [congruence|]. right. split; [reflexivity|].
    exists features. split; [reflexivity|]. right. auto.
  - split; [congruence|]. right. split; [reflexivity|].
    exists features. split; [reflexivity|]. left. split; [congruence|auto].
Qed.

(** X5. With a workspace folder open, [findTasksFiles] never answers with an
    empty list.  Without a [specs] folder it answers with the placeholder
    "No specs/ folder found"; otherwise with the phases of the [tasks.md]
    of every feature folder that has one, file after file in the order of
    the directory listing, or, when these are no phases at all, with the
    placeholder "No tasks found". *)
Theorem findTasksFiles_result h folder items :
  workspaceFolder h = Some folder ->
  findTasksFiles h = Some items ->
  let specsPath := path_join h [folder; js "specs"] in
  items <> [] /\
  ((existsSync h specsPath = false /\
    items = [info_item (js "No specs/ folder found")]) \/
   (existsSync h specsPath = true /\
    exists features,
      readdirSync h specsPath = Some features /\
      let found := flat_map (phases_of_feature h specsPath) features in
      ((found <> [] /\ items = found) \/
       (found = [] /\ items = [info_item (js "No tasks found")])))).
Proof. apply findTasksFiles_cases. Qed.

Lemma findTasksFiles_result_witness :
  match findTasksFiles example_host with
  | Some items => length items = 2
  | None => False
  end /\
  exists items,
    findTasksFiles example_host = Some items /\ items <> [].
Proof.
  split; [vm_compute; reflexivity|].
  destruct (findTasksFiles example_host) as [items|] eqn:E;
    [|vm_compute in E; discriminate].
  exists items. split; [reflexivity|].
  exact (proj1 (findTasksFiles_result example_host (js "/ws") items
                  eq_refl E)).
Defined.

Lemma collect_phases_unreadable h specsPath feature features : forall found,
  In feature features ->
  existsSync h (path_join h [specsPath; feature; js "tasks.md"]) = true ->
  readFileSync h (path_join h [specsPath; feature; js "tasks.md"]) = None ->
  collect_phases h specsPath features found = None.
Proof.
  induction features as [|x rest IH]; intros found Hin He Hr; [destruct Hin|].
  simpl. destruct Hin as [->|Hin].
  - unfold parseTasksFile. now rewrite He, Hr.
  - destruct (existsSync h (path_join h [specsPath; x; js "tasks.md"]));
      [|now apply IH].
    destruct (parseTasksFile _ _); [now apply IH|reflexivity].
Qed.

(** X6. One [tasks.md] that exists but cannot be read is enough for
    [findTasksFiles] to fail as a whole: the error of [readFileSync] is not
    caught, and the phases of the other features are not shown. *)
Theorem unreadable_tasks_file_fails h folder features feature :
  workspaceFolder h = Some folder ->
  let specsPath := path_join h [folder; js "specs"] in
  existsSync h specsPath = true ->
  readdirSync h specsPath = Some features ->
  In feature features ->
  existsSync h (path_join h [specsPath; feature; js "tasks.md"]) = true ->
  readFileSync h (path_join h [specsPath; feature; js "tasks.md"]) = None ->
  findTasksFiles h = None.
Proof.
  intros Hws specsPath Hs Hd Hin He Hr. unfold findTasksFiles.
  rewrite Hws. fold specsPath. rewrite Hs, Hd. simpl.
  now rewrite (collect_phases_unreadable _ _ feature _ [] Hin He Hr).
Qed.

(** [example_host] with a folder in the place of the second [tasks.md]. *)
Lemma unreadable_tasks_file_fails_witness :
  findTasksFiles
    {| path_join := path_join example_host;
       existsSync := fun p =>
         existsSync example_host p ||
         jsstring_eqb p (js "/ws/specs/002-empty/tasks.md");
       readdirSync := readdirSync example_host;
       readFileSync := readFileSync example_host;
       workspaceFolder := Some (js "/ws") |} = None.
Proof.
  apply (unreadable_tasks_file_fails _ (js "/ws")
           [js "001-calc"; js "002-empty"] (js "002-empty"));
    try reflexivity.
  right. left. reflexivity.
Defined.



(** * The commands on a phase *)

Lemma jsstring_eqb_eq a : forall b, jsstring_eqb a b = true <-> a = b.
Proof.
  induction a as [|x a IH]; intros [|y b]; simpl;
    try (split; [discriminate|congruence]); [tauto|].
  rewrite andb_true_iff, N.eqb_eq, IH. split.
  - intros [-> ->]. reflexivity.
  - intros H; inversion H; auto.
Qed.

Lemma lines_of_incomplete line ts :
  exists ls, lines_of line (filter is_incomplete ts) = Some ls.
Proof.
  induction ts as [|t ts [ls IH]]; simpl; [eauto|].
  unfold is_incomplete at 1.
  destruct (taskData t) as [d|] eqn:E; [|eauto].
  destruct (negb (isCompleted d)); [|eauto].
  simpl. rewrite E, IH. eauto.
Qed.

Lemma filter_nil_iff (A : Type) (f : A -> bool) l :
  filter f l = [] <-> forall x, In x l -> f x = false.
Proof.
  induction l as [|x l IH]; simpl; [tauto|].
  destruct (f x) eqn:E.
  - split; [discriminate|]. intros H. specialize (H x (or_introl eq_refl)).
    congruence.
  - rewrite IH. split; [intros H y [<-|Hy]; auto|auto].
Qed.

(** X8. [implementPhase] never throws.  When no task of the phase is left
    to do, a phase without tasks included, it only says that all tasks are
    completed.  The chat is opened only after the user has answered "Yes",
    and only for a phase with a task that is not completed. *)
Theorem implementPhase_gate phaseItem confirm chat_throws :
  exists effects,
    implementPhase phaseItem confirm chat_throws = Some effects /\
    ((forall t, In t (children phaseItem) -> is_incomplete t = false) ->
     effects = [ShowInformationMessage
                  (js "All tasks in this phase are completed!") []]) /\
    (forall query,
       In (ChatOpen query) effects ->
       confirm = Some (js "Yes") /\
       exists t d, In t (children phaseItem) /\ taskData t = Some d /\
                   isCompleted d = false).
Proof.
  unfold implementPhase.
  destruct (filter is_incomplete (children phaseItem)) as [|t0 ts] eqn:Ef.
  - eexists. split; [reflexivity|]. split; [reflexivity|].
    intros query Hq. simpl in Hq. destruct Hq as [Hq|[]]. discriminate.
  - assert (Ht0 : exists t d, In t (children phaseItem) /\
                    taskData t = Some d /\ isCompleted d = false).
    { assert (Hin : In t0 (filter is_incomplete (children phaseItem)))
        by (rewrite Ef; now left).
      apply filter_In in Hin. destruct Hin as [Hin Hinc].
      unfold is_incomplete in Hinc.
      destruct (taskData t0) as [d|] eqn:Ed; [|discriminate].
      exists t0, d. repeat split; auto. now apply negb_true_iff. }
    assert (Hnot : ~ forall t, In t (children phaseItem) ->
                               is_incomplete t = false).
    { intros H. apply filter_nil_iff in H. congruence. }
    destruct (lines_of_incomplete implement_line (children phaseItem))
      as [ls Hls].
    rewrite Ef in Hls. cbn [length Nat.eqb].
    destruct confirm as [answer|].
    + destruct (jsstring_eqb answer (js "Yes")) eqn:Ea.
      * apply jsstring_eqb_eq in Ea. subst answer. rewrite Hls.
        eexists. split; [reflexivity|]. split; [intros H; now elim Hnot|].
        intros query _. auto.
      * eexists. split; [reflexivity|]. split; [intros H; now elim Hnot|].
        intros query Hq. simpl in Hq. destruct Hq as [Hq|[]]. discriminate.
    + eexists. split; [reflexivity|]. split; [intros H; now elim Hnot|].
      intros query Hq. simpl in Hq. destruct Hq as [Hq|[]]. discriminate.
Qed.

Lemma implementPhase_gate_witness :
  exists t d,
    In t (children (nth 0 (parse (js "tasks.md") example_doc) no_item)) /\
    taskData t = Some d /\ isCompleted d = false.
Proof.
  destruct (implementPhase_gate
              (nth 0 (parse (js "tasks.md") example_doc) no_item)
              (Some (js "Yes")) false) as (effects & E & _ & H).
  vm_compute in E. inversion E as [E']. rewrite <- E' in H.
  refine (proj2 (H _ _)). right. left. reflexivity.
Defined.

Lemma lines_of_none line ts :
  lines_of line ts = None <-> exists t, In t ts /\ taskData t = None.
Proof.
  induction ts as [|t ts IH]; simpl.
  - split; [discriminate|intros (t & [] & _)].
  - destruct (taskData t) as [d|] eqn:E.
    + destruct (lines_of line ts) as [ls|].
      * split; [discriminate|].
        intros (x & [<-|Hx] & Hd); [congruence|].
        assert (Hf : Some ls = None) by (apply (proj2 IH); eauto).
        discriminate.
      * split; [|reflexivity]. intros _.
        destruct (proj1 IH eq_refl) as (x & Hx & Hd). eauto.
    + split; [|reflexivity]. intros _. exists t. auto.
Qed.

Lemma complete_incomplete_count ts :
  (forall t, In t ts -> taskData t <> None) ->
  length (filter is_complete ts) + length (filter is_incomplete ts)
  = length ts.
Proof.
  induction ts as [|t ts IH]; intros H; simpl; [reflexivity|].
  assert (IH' := IH (fun x Hx => H x (or_intror Hx))).
  assert (Ht : is_incomplete t = negb (is_complete t)).
  { unfold is_complete, is_incomplete.
    destruct (taskData t) as [d|] eqn:E; [reflexivity|].
    exfalso. apply (H t); [now left|exact E]. }
  rewrite Ht. destruct (is_complete t); simpl; lia.
Qed.

Lemma parsed_children_have_data filePath_ content p t :
  In p (parse filePath_ content) -> In t (children p) ->
  taskData t <> None.
Proof.
  intros Hp Ht.
  destruct (parse_task_line _ _ _ _ Hp Ht) as (n & l & m & _ & _ & ->).
  rewrite taskData_task_item. discriminate.
Qed.

(** The lines of the task list that begin with the mark of a completed
    task are as many as the completed tasks. *)
Lemma verify_lines_marked ts : forall ls,
  lines_of verify_line ts = Some ls ->
  length ls = length ts /\
  length (filter (fun l => match l with
                           | c :: _ => N.eqb c 10003
                           | [] => false
                           end) ls)
  = length (filter is_complete ts).
Proof.
  induction ts as [|t ts IH]; intros ls H; simpl in H.
  - inversion H. split; reflexivity.
  - destruct (taskData t) as [d|] eqn:Ed; [|discriminate].
    destruct (lines_of verify_line ts) as [ls'|]; [|discriminate].
    inversion H; subst ls. destruct (IH ls' eq_refl) as [Hl Hc].
    split; [simpl; now rewrite Hl|].
    unfold is_complete at 1. cbn [filter]. rewrite Ed.
    unfold verify_line at 1.
    destruct (isCompleted d); cbn [app N.eqb Pos.eqb length];
      now rewrite Hc.
Qed.

(** X9. [verifyPhase] throws, before it has shown anything, exactly when a
    child of the item has no task data.  On a phase that comes from the
    parser it does not throw, and the numbers it reports fit the list it
    reports: the prompt holds one line for each task, its summary
    "completed/total" gives the number of lines with the mark of a
    completed task over the number of lines, and in the message shown when
    the chat cannot be opened the completed and the incomplete tasks add up
    to that total. *)
Theorem verifyPhase_counts phaseItem chat_throws :
  (verifyPhase phaseItem chat_throws = None <->
   exists t, In t (children phaseItem) /\ taskData t = None) /\
  (forall filePath_ content,
     In phaseItem (parse filePath_ content) ->
     exists ls completed incomplete,
       verifyPhase phaseItem chat_throws =
       Some (ChatOpen
               (Some (verify_prompt (label phaseItem) (Array_join ls nl)
                                    completed (length ls))) ::
             if chat_throws then
               [ShowInformationMessage
                  (js "Verify " ++ label phaseItem ++ nl ++ nl ++
                   js "Completed: " ++ Number_toString completed ++
                   js "/" ++ Number_toString (length ls) ++ nl ++
                   js "Incomplete: " ++ Number_toString incomplete) []]
             else []) /\
       length ls = length (children phaseItem) /\
       completed
       = length (filter (fun l => match l with
                                  | c :: _ => N.eqb c 10003
                                  | [] => false
                                  end) ls) /\
       completed + incomplete = length ls).
Proof.
  assert (Hnone : verifyPhase phaseItem chat_throws = None <->
                  exists t, In t (children phaseItem) /\ taskData t = None).
  { rewrite <- (lines_of_none verify_line). unfold verifyPhase.
    destruct (lines_of verify_line (children phaseItem));
      split; congruence. }
  split; [exact Hnone|].
  intros filePath_ content Hp.
  assert (Hdata : forall t, In t (children phaseItem) -> taskData t <> None)
    by (intros t Ht; exact (parsed_children_have_data _ _ _ _ Hp Ht)).
  unfold verifyPhase.
  destruct (lines_of verify_line (children phaseItem)) as [ls|] eqn:El.
  - destruct (verify_lines_marked _ _ El) as [Hl Hc].
    exists ls, (length (filter is_complete (children phaseItem))),
      (length (filter is_incomplete (children phaseItem))).
    rewrite Hl. split; [reflexivity|]. split; [reflexivity|].
    split; [now rewrite Hc|].
    now apply complete_incomplete_count.
  - exfalso. apply (lines_of_none verify_line) in El.
    destruct El as (t & Ht & Hd). exact (Hdata t Ht Hd).
Qed.

Lemma verifyPhase_counts_witness :
  let phaseItem := nth 0 (parse (js "tasks.md") example_doc) no_item in
  exists ls completed incomplete,
    verifyPhase phaseItem true =
    Some [ChatOpen
            (Some (verify_prompt (label phaseItem) (Array_join ls nl)
                                 completed (length ls)));
          ShowInformationMessage
            (js "Verify " ++ label phaseItem ++ nl ++ nl ++
             js "Completed: " ++ Number_toString completed ++
             js "/" ++ Number_toString (length ls) ++ nl ++
             js "Incomplete: " ++ Number_toString incomplete) []] /\
    length ls = length (children phaseItem) /\
    completed
    = length (filter (fun l => match l with
                               | c :: _ => N.eqb c 10003
                               | [] => false
                               end) ls) /\
    completed + incomplete = length ls.
Proof.
  intros phaseItem.
  apply (proj2 (verifyPhase_counts phaseItem true)
               (js "tasks.md") example_doc).
  vm_compute. left. reflexivity.
Defined.

(** * The workflow view *)

Lemma split_on_two sep x y : 2 <= length (split_on sep (x ++ sep :: y)).
Proof.
  induction x as [|c x IH]; simpl.
  - rewrite N.eqb_refl. simpl. destruct y; simpl.
    + lia.
    + destruct (N.eqb c sep); simpl; [lia|].
      destruct (split_on sep y); simpl; lia.
  - destruct (N.eqb c sep); simpl; [lia|].
    destruct (split_on sep (x ++ sep :: y)) as [|l ls]; simpl in *; lia.
Qed.

Lemma split_on_plain sep name :
  Forall (fun c => c <> sep) name -> split_on sep name = [name].
Proof.
  induction 1 as [|c name Hc _ IH]; simpl; [reflexivity|].
  destruct (N.eqb_spec c sep); [contradiction|]. now rewrite IH.
Qed.

(** The last piece of a split is what follows the last separator. *)
Lemma last_split_on sep name : forall x,
  Forall (fun c => c <> sep) name ->
  last (split_on sep (x ++ sep :: name)) [] = name.
Proof.
  intros x Hname. induction x as [|c x IH]; simpl.
  - rewrite N.eqb_refl, (split_on_plain _ _ Hname). reflexivity.
  - pose proof (split_on_two sep x name) as H2.
    destruct (split_on sep (x ++ sep :: name)) as [|l [|l' ls]];
      simpl in H2; try lia.
    destruct (N.eqb c sep); exact IH.
Qed.

(** Whatever the name of the feature folder, the file looked for in it is
    the last piece of the output file of the step. *)
Lemma output_name_fixed step feature :
  In step workflow_steps ->
  Step.id step <> js "init" ->
  Step.id step <> js "constitution" ->
  output_name step feature = Array_pop (split_on 47%N (Step.outputFile step)).
Proof.
  intros Hin Hi Hc.
  assert (Hname : forall pre name,
            find_first (js "[feature]") (Step.outputFile step)
              = Some (pre, 47%N :: name) ->
            Forall (fun c => c <> 47%N) name ->
            output_name step feature = name).
  { intros pre name Hf Hn. unfold output_name, String_replace, Array_pop.
    rewrite Hf, app_assoc. now apply last_split_on. }
  simpl in Hin.
  destruct Hin as [<-|[<-|[<-|[<-|[<-|[<-|[]]]]]]];
    try (exfalso; apply Hi; reflexivity);
    try (exfalso; apply Hc; reflexivity).
  - rewrite (Hname (js "specs/") (js "spec.md")); [reflexivity|reflexivity|].
    repeat constructor; discriminate.
  - rewrite (Hname (js "specs/") (js "plan.md")); [reflexivity|reflexivity|].
    repeat constructor; discriminate.
  - rewrite (Hname (js "specs/") (js "tasks.md")); [reflexivity|reflexivity|].
    repeat constructor; discriminate.
  - reflexivity.
Qed.

Lemma any_feature_has_iff h specsPath step name features :
  (forall feature, output_name step feature = name) ->
  (any_feature_has h specsPath step features = true <->
   exists feature,
     In feature features /\
     existsSync h (path_join h [specsPath; feature; name]) = true).
Proof.
  intros Hname. induction features as [|x rest IH]; simpl.
  - split; [discriminate|intros (f & [] & _)].
  - rewrite Hname.
    destruct (existsSync h (path_join h [specsPath; x; name])) eqn:E.
    + split; [|reflexivity]. intros _. exists x. auto.
    + rewrite IH. split.
      * intros (f & Hf & He). exists f. auto.
      * intros (f & [<-|Hf] & He); [congruence|]. exists f. auto.
Qed.

(** X10. For the steps that are checked in the feature folders (2 to 5),
    the file looked for does not depend on the name of the feature folder:
    it is the last piece of the output file of the step ([spec.md],
    [plan.md], [tasks.md], and for step 5 the text [Implementation files]).
    With a [specs] folder that can be listed, the step is complete exactly
    when some entry of [specs] holds a file of that name, and pending
    otherwise. *)
Theorem feature_step_status h folder step features :
  In step workflow_steps ->
  Step.id step <> js "init" ->
  Step.id step <> js "constitution" ->
  let specsPath := path_join h [folder; js "specs"] in
  let name := Array_pop (split_on 47%N (Step.outputFile step)) in
  existsSync h specsPath = true ->
  readdirSync h specsPath = Some features ->
  (forall feature, output_name step feature = name) /\
  exists status,
    checkStepStatus h step folder = Some status /\
    (status = js "complete" \/ status = js "pending") /\
    (status = js "complete" <->
     exists feature,
       In feature features /\
       existsSync h (path_join h [specsPath; feature; name]) = true).
Proof.
  intros Hin Hi Hc specsPath name He Hd.
  assert (Hname : forall feature, output_name step feature = name)
    by (intros feature; now apply output_name_fixed).
  split; [exact Hname|].
  unfold checkStepStatus.
  destruct (jsstring_eqb (Step.id step) (js "init")) eqn:E1;
    [apply jsstring_eqb_eq in E1; contradiction|].
  destruct (jsstring_eqb (Step.id step) (js "constitution")) eqn:E2;
    [apply jsstring_eqb_eq in E2; contradiction|].
  fold specsPath. rewrite He, Hd. simpl.
  pose proof (any_feature_has_iff h specsPath step name features Hname) as Hany.
  destruct (any_feature_has h specsPath step features).
  - exists (js "complete"). split; [reflexivity|]. split; [now left|].
    split; [intros _; now apply Hany|reflexivity].
  - exists (js "pending"). split; [reflexivity|]. split; [now right|].
    split; [discriminate|]. intros H. apply Hany in H. discriminate.
Qed.

Lemma feature_step_status_witness :
  checkStepStatus example_host (nth 4 workflow_steps (nth 0 workflow_steps
    {| Step.id := []; Step.label := []; Step.description := [];
       Step.command := []; Step.outputFile := []; Step.icon := [];
       Step.needsInput := false; Step.inputPrompt := None |})) (js "/ws")
  = Some (js "complete") /\
  exists status,
    checkStepStatus example_host
      {| Step.id := js "tasks";
         Step.label := js "4. Task Breakdown";
         Step.description := js "Actionable tasks";
         Step.command := js "/speckit.tasks";
         Step.outputFile := js "specs/[feature]/tasks.md";
         Step.icon := js "tasklist";
         Step.needsInput := false;
         Step.inputPrompt := None |} (js "/ws") = Some status /\
    (status = js "complete" \/ status = js "pending") /\
    (status = js "complete" <->
     exists feature,
       In feature [js "001-calc"; js "002-empty"] /\
       existsSync example_host
         (path_join example_host [js "/ws/specs"; feature; js "tasks.md"])
       = true).
Proof.
  split; [vm_compute; reflexivity|].
  refine (proj2 (feature_step_status example_host (js "/ws") _
                   [js "001-calc"; js "002-empty"] _ _ _ eq_refl eq_refl)).
  - simpl. do 4 right. left. reflexivity.
  - discriminate.
  - discriminate.
Defined.

Lemma checkStepStatus_none h step folder :
  checkStepStatus h step folder = None <->
  Step.id step <> js "init" /\ Step.id step <> js "constitution" /\
  existsSync h (path_join h [folder; js "specs"]) = true /\
  readdirSync h (path_join h [folder; js "specs"]) = None.
Proof.
  unfold checkStepStatus.
  destruct (jsstring_eqb (Step.id step) (js "init")) eqn:E1.
  { apply jsstring_eqb_eq in E1. split; [discriminate|tauto]. }
  destruct (jsstring_eqb (Step.id step) (js "constitution")) eqn:E2.
  { apply jsstring_eqb_eq in E2. split; [discriminate|tauto]. }
  assert (H1 : Step.id step <> js "init")
    by (intros H; apply jsstring_eqb_eq in H; congruence).
  assert (H2 : Step.id step <> js "constitution")
    by (intros H; apply jsstring_eqb_eq in H; congruence).
  destruct (existsSync h _); simpl.
  - destruct (readdirSync h _); split; try discriminate; try tauto.
    intros (_ & _ & _ & H). discriminate.
  - split; [discriminate|]. intros (_ & _ & H & _). discriminate.
Qed.

Lemma step_items_none h folder steps :
  step_items h folder steps = None <->
  exists step, In step steps /\ checkStepStatus h step folder = None.
Proof.
  induction steps as [|s rest IH]; simpl.
  - split; [discriminate|intros (x & [] & _)].
  - destruct (checkStepStatus h s folder) as [status|] eqn:E.
    + destruct (step_items h folder rest) as [items|].
      * split; [discriminate|].
        intros (x & [<-|Hx] & Hn); [congruence|].
        assert (Hf : Some items = None) by (apply IH; eauto). discriminate.
      * split; [|reflexivity]. intros _.
        destruct (proj1 IH eq_refl) as (x & Hx & Hn). eauto.
    + split; [|reflexivity]. intros _. exists s. auto.
Qed.

Lemma step_items_some h folder steps : forall items,
  step_items h folder steps = Some items ->
  map item_step items = steps /\
  forall it, In it items ->
    checkStepStatus h (item_step it) folder = Some (item_status it) /\
    it = new_WorkflowStepItem (item_step it) (item_status it).
Proof.
  induction steps as [|s rest IH]; intros items; simpl.
  - intros H; inversion H; subst. split; [reflexivity|intros it []].
  - destruct (checkStepStatus h s folder) as [status|] eqn:E; [|discriminate].
    destruct (step_items h folder rest) as [items'|]; [|discriminate].
    intros H; inversion H; subst items; clear H.
    destruct (IH items' eq_refl) as [Hm Hall]. split.
    + simpl. now rewrite Hm.
    + intros it [<-|Hit]; [split; [exact E|reflexivity]|now apply Hall].
Qed.

(** X11. With a workspace folder open, the workflow view fails as a whole
    exactly when the [specs] folder exists but cannot be listed.  Otherwise
    it shows the six steps in their order, each with the status found for
    it and with the mark of that status in front of its label. *)
Theorem workflow_steps_shown h folder :
  workspaceFolder h = Some folder ->
  (getWorkflowSteps h = None <->
   existsSync h (path_join h [folder; js "specs"]) = true /\
   readdirSync h (path_join h [folder; js "specs"]) = None) /\
  (forall items,
     getWorkflowSteps h = Some items ->
     map item_step items = workflow_steps /\
     forall it, In it items ->
       checkStepStatus h (item_step it) folder = Some (item_status it) /\
       item_label it =
         (if jsstring_eqb (item_status it) (js "complete")
          then [9989%N] else [9203%N])
         ++ js " " ++ Step.label (item_step it)).
Proof.
  intros Hws. unfold getWorkflowSteps. rewrite Hws. split.
  - rewrite step_items_none. split.
    + intros (step & _ & Hn). apply checkStepStatus_none in Hn. tauto.
    + intros [He Hd]. exists (nth 2 workflow_steps (nth 0 workflow_steps
        {| Step.id := []; Step.label := []; Step.description := [];
           Step.command := []; Step.outputFile := []; Step.icon := [];
           Step.needsInput := false; Step.inputPrompt := None |})).
      split; [simpl; auto|].
      apply checkStepStatus_none. repeat split; auto; discriminate.
  - intros items H. apply step_items_some in H. destruct H as [Hm Hall].
    split; [exact Hm|]. intros it Hit.
    destruct (Hall it Hit) as [Hs Hn]. split; [exact Hs|].
    rewrite Hn at 1. reflexivity.
Qed.

Lemma workflow_steps_shown_witness :
  match getWorkflowSteps example_host with
  | Some items => map item_status items
  | None => []
  end = [js "pending"; js "pending"; js "pending"; js "pending";
         js "complete"; js "pending"] /\
  (getWorkflowSteps example_host = None <->
   existsSync example_host (path_join example_host [js "/ws"; js "specs"])
     = true /\
   readdirSync example_host (path_join example_host [js "/ws"; js "specs"])
     = None).
Proof.
  split; [vm_compute; reflexivity|].
  exact (proj1 (workflow_steps_shown example_host (js "/ws") eq_refl)).
Defined.

(** * Copying the setup files *)

(** ** Names and paths *)

Lemma jsstring_eqb_neq a b : jsstring_eqb a b = false <-> a <> b.
Proof.
  split.
  - intros H E. apply jsstring_eqb_eq in E. congruence.
  - intros H. destruct (jsstring_eqb a b) eqn:E; [|reflexivity].
    apply jsstring_eqb_eq in E. contradiction.
Qed.

Lemma jsstring_eqb_refl a : jsstring_eqb a a = true.
Proof. now apply jsstring_eqb_eq. Qed.

Lemma entry_set_same name x es :
  Fs.entry name (Fs.set_entry name x es) = Some x.
Proof.
  induction es as [|[n y] es IH]; simpl.
  - now rewrite jsstring_eqb_refl.
  - destruct (jsstring_eqb n name) eqn:E; simpl; now rewrite E.
Qed.

Lemma entry_set_other name m x es :
  m <> name -> Fs.entry m (Fs.set_entry name x es) = Fs.entry m es.
Proof.
  intros Hm. induction es as [|[n y] es IH]; simpl.
  - apply not_eq_sym in Hm. apply jsstring_eqb_neq in Hm. now rewrite Hm.
  - destruct (jsstring_eqb n name) eqn:E; simpl.
    + apply jsstring_eqb_eq in E. subst n.
      apply not_eq_sym in Hm. apply jsstring_eqb_neq in Hm. now rewrite Hm.
    + now rewrite IH.
Qed.

Lemma prefix_nil q : Fs.prefix [] q.
Proof. now exists q. Qed.

Lemma prefix_cons n p m q :
  Fs.prefix (n :: p) (m :: q) <-> n = m /\ Fs.prefix p q.
Proof.
  split.
  - intros [r H]. inversion H; subst. split; [reflexivity|now exists r].
  - intros [-> [r ->]]. now exists r.
Qed.

Lemma apart_cons n p m q :
  Fs.apart (n :: p) (m :: q) <-> n <> m \/ Fs.apart p q.
Proof.
  unfold Fs.apart. rewrite !prefix_cons.
  destruct (jsstring_eqb n m) eqn:E.
  - apply jsstring_eqb_eq in E. subst m. split.
    + intros [H1 H2]. right. split; intros H; [apply H1|apply H2]; auto.
    + intros [H|[H1 H2]]; [congruence|]. split; intros [_ H]; auto.
  - apply jsstring_eqb_neq in E. split; [auto|].
    intros _. split; intros [H _]; congruence.
Qed.

Lemma apart_nil_l q : ~ Fs.apart [] q.
Proof. intros [H _]. apply H. apply prefix_nil. Qed.

Lemma apart_nil_r p : ~ Fs.apart p [].
Proof. intros [_ H]. apply H. apply prefix_nil. Qed.

Lemma apart_sym p q : Fs.apart p q -> Fs.apart q p.
Proof. intros [H1 H2]. split; assumption. Qed.

Lemma apart_app_l p r : forall q, Fs.apart p q -> Fs.apart (p ++ r) q.
Proof.
  induction p as [|n p IH]; intros q H; [now apply apart_nil_l in H|].
  destruct q as [|m q]; [now apply apart_nil_r in H|].
  simpl. apply apart_cons. apply apart_cons in H.
  destruct H as [H|H]; [now left|right; now apply IH].
Qed.

Lemma apart_app_both p : forall q a b,
  Fs.apart p q -> Fs.apart (p ++ a) (q ++ b).
Proof.
  intros q a b H. apply apart_app_l. apply apart_sym.
  apply apart_app_l. now apply apart_sym.
Qed.

Lemma apart_siblings p n m : n <> m -> Fs.apart (p ++ [n]) (p ++ [m]).
Proof.
  intros H. induction p as [|x p IH]; simpl; apply apart_cons; auto.
Qed.

Lemma apart_sibling_below p n m r :
  n <> m -> Fs.apart (p ++ [n]) (p ++ m :: r).
Proof.
  intros H. induction p as [|x p IH]; simpl; apply apart_cons; auto.
Qed.

(** ** What the calls of [fs] leave alone *)

Section Disk.
Variable sys : Fs.system.

(** A call that the system lets through does to the tree what the tree
    allows. *)
Lemma mkdirSync_make_folders fs p fs' :
  Fs.mkdirSync sys fs p = Some fs' -> Fs.make_folders fs p = Some fs'.
Proof. unfold Fs.mkdirSync. now destruct (sys fs (Fs.Mkdir p)). Qed.

Lemma writeFileSync_put fs p data fs' :
  Fs.writeFileSync sys fs p data = Some fs' -> Fs.put fs p data = Some fs'.
Proof. unfold Fs.writeFileSync. now destruct (sys fs _). Qed.

Lemma readdirSync_listing fs p entries :
  Fs.readdirSync sys fs p = Some entries -> Fs.listing fs p = Some entries.
Proof. unfold Fs.readdirSync. now destruct (sys fs _). Qed.

Lemma readFileSync_content fs p c :
  Fs.readFileSync sys fs p = Some c -> Fs.content fs p = Some c.
Proof. unfold Fs.readFileSync. now destruct (sys fs _). Qed.

Lemma copyFileSync_put fs src dest fs' :
  Fs.copyFileSync sys fs src dest = Some fs' ->
  exists c, Fs.content fs src = Some c /\ Fs.put fs dest c = Some fs'.
Proof.
  unfold Fs.copyFileSync. destruct (sys fs _); [discriminate|].
  destruct (Fs.content fs src) as [c|]; [eauto|discriminate].
Qed.

Lemma make_folders_frame p : forall n n' q,
  Fs.make_folders n p = Some n' -> Fs.apart p q ->
  Fs.lookup n' q = Fs.lookup n q.
Proof.
  induction p as [|name rest IH]; intros n n' q Hm Ha.
  - now apply apart_nil_l in Ha.
  - destruct q as [|m q]; [now apply apart_nil_r in Ha|].
    destruct n as [c|es]; simpl in Hm; [discriminate|].
    destruct (Fs.make_folders _ rest) as [child'|] eqn:E; [|discriminate].
    inversion Hm; subst n'; clear Hm. simpl.
    destruct (jsstring_eqb m name) eqn:Em.
    + apply jsstring_eqb_eq in Em. subst m.
      apply apart_cons in Ha. destruct Ha as [Ha|Ha]; [congruence|].
      rewrite entry_set_same, (IH _ _ _ E Ha).
      destruct (Fs.entry name es); [reflexivity|].
      destruct q; [now apply apart_nil_r in Ha|reflexivity].
    + apply jsstring_eqb_neq in Em. now rewrite entry_set_other.
Qed.

Lemma mkdirSync_frame p : forall n n' q,
  Fs.mkdirSync sys n p = Some n' -> Fs.apart p q ->
  Fs.lookup n' q = Fs.lookup n q.
Proof.
  intros n n' q H. apply mkdirSync_make_folders in H. revert H.
  apply make_folders_frame.
Qed.

Lemma put_frame p data : forall n n' q,
  Fs.put n p data = Some n' -> Fs.apart p q ->
  Fs.lookup n' q = Fs.lookup n q.
Proof.
  induction p as [|name rest IH]; intros n n' q Hw Ha.
  - now apply apart_nil_l in Ha.
  - destruct q as [|m q]; [now apply apart_nil_r in Ha|].
    destruct n as [c|es]; simpl in Hw; [discriminate|]. simpl.
    destruct (jsstring_eqb m name) eqn:Em.
    + apply jsstring_eqb_eq in Em. subst m.
      apply apart_cons in Ha. destruct Ha as [Ha|Ha]; [congruence|].
      destruct (Fs.entry name es) as [child|] eqn:Ee.
      * destruct (Fs.put child rest data) as [child'|] eqn:E;
          [|discriminate].
        inversion Hw; subst n'. simpl.
        rewrite entry_set_same. apply (IH _ _ _ E Ha).
      * destruct rest; [|discriminate]. now apply apart_nil_l in Ha.
    + apply jsstring_eqb_neq in Em.
      destruct (Fs.entry name es) as [child|] eqn:Ee.
      * destruct (Fs.put child rest data) as [child'|];
          [|discriminate].
        inversion Hw; subst n'. simpl. now rewrite entry_set_other.
      * destruct rest; [|discriminate].
        inversion Hw; subst n'. simpl. now rewrite entry_set_other.
Qed.

Lemma writeFileSync_frame p data : forall n n' q,
  Fs.writeFileSync sys n p data = Some n' -> Fs.apart p q ->
  Fs.lookup n' q = Fs.lookup n q.
Proof.
  intros n n' q H. apply writeFileSync_put in H. revert H.
  apply put_frame.
Qed.

Lemma copyFileSync_frame fs src dest fs' q :
  Fs.copyFileSync sys fs src dest = Some fs' -> Fs.apart dest q ->
  Fs.lookup fs' q = Fs.lookup fs q.
Proof.
  intros H. apply copyFileSync_put in H. destruct H as (c & _ & H).
  revert H. apply put_frame.
Qed.

Section CopyFrame.
Variable recurse : Fs.node -> Fs.path -> Fs.path -> Fs.outcome Fs.node.
Hypothesis recurse_frame : forall fs s d fs' q,
  recurse fs s d = Fs.Done fs' -> Fs.apart d q ->
  Fs.lookup fs' q = Fs.lookup fs q.

Lemma copy_entries_frame source dest entries : forall fs fs' q,
  Fs.copy_entries sys recurse fs source dest entries = Fs.Done fs' ->
  Fs.apart dest q ->
  Fs.lookup fs' q = Fs.lookup fs q.
Proof.
  induction entries as [|[name isDir] rest IH]; intros fs fs' q H Ha; simpl in H.
  - now inversion H.
  - assert (Ha' : Fs.apart (dest ++ [name]) q) by now apply apart_app_l.
    unfold Fs.copy_entry in H. destruct isDir.
    + destruct (recurse fs (source ++ [name]) (dest ++ [name]))
        as [fs1| |] eqn:E; try discriminate.
      rewrite (IH _ _ _ H Ha). exact (recurse_frame _ _ _ _ _ E Ha').
    + destruct (Fs.copyFileSync sys fs (source ++ [name]) (dest ++ [name]))
        as [fs1|] eqn:E; [|discriminate].
      rewrite (IH _ _ _ H Ha). exact (copyFileSync_frame _ _ _ _ _ E Ha').
Qed.

End CopyFrame.

(** The copy changes nothing outside its destination. *)
Lemma copyDirectoryRecursive_frame fuel : forall fs source dest fs' q,
  Fs.copyDirectoryRecursive sys fuel fs source dest = Fs.Done fs' ->
  Fs.apart dest q ->
  Fs.lookup fs' q = Fs.lookup fs q.
Proof.
  induction fuel as [|fuel IH]; intros fs source dest fs' q H Ha;
    [discriminate|].
  simpl in H.
  destruct (if Fs.existsSync fs dest then Some fs else Fs.mkdirSync sys fs dest)
    as [fs1|] eqn:E1; [|discriminate].
  destruct (Fs.readdirSync sys fs1 source) as [entries|]; [|discriminate].
  rewrite (copy_entries_frame _ IH _ _ _ _ _ _ H Ha).
  destruct (Fs.existsSync fs dest).
  - now inversion E1.
  - exact (mkdirSync_frame _ _ _ _ E1 Ha).
Qed.

(** ** What a copy brings and what it keeps *)

Lemma lookup_app p : forall n q,
  Fs.lookup n (p ++ q) =
  match Fs.lookup n p with
  | Some m => Fs.lookup m q
  | None => None
  end.
Proof.
  induction p as [|name p IH]; intros n q; simpl; [reflexivity|].
  destruct n as [c|es]; [reflexivity|].
  destruct (Fs.entry name es); [apply IH|reflexivity].
Qed.

Lemma lookup_file_below c q n :
  Fs.lookup (Fs.File c) q = Some n -> q = [] /\ n = Fs.File c.
Proof. destruct q; simpl; [intros H; inversion H; auto|discriminate]. Qed.

Lemma entry_name_listed name es child :
  Fs.entry name es = Some child -> In name (map fst es).
Proof.
  induction es as [|[n x] es IH]; simpl; [discriminate|].
  destruct (jsstring_eqb n name) eqn:E; [|auto].
  apply jsstring_eqb_eq in E. auto.
Qed.

Lemma put_written p data : forall n n',
  Fs.put n p data = Some n' ->
  Fs.lookup n' p = Some (Fs.File data).
Proof.
  induction p as [|name rest IH]; intros n n' H; simpl in H.
  - destruct n; [|discriminate]. now inversion H.
  - destruct n as [c|es]; [discriminate|].
    destruct (Fs.entry name es) as [child|].
    + destruct (Fs.put child rest data) as [child'|] eqn:E;
        [|discriminate].
      inversion H; subst. simpl. rewrite entry_set_same.
      exact (IH _ _ E).
    + destruct rest; [|discriminate].
      inversion H; subst. simpl. now rewrite entry_set_same.
Qed.

Lemma writeFileSync_written p data : forall n n',
  Fs.writeFileSync sys n p data = Some n' ->
  Fs.lookup n' p = Some (Fs.File data).
Proof.
  intros n n' H. apply writeFileSync_put in H. revert H.
  apply put_written.
Qed.

(** A file that has been copied is at its destination as it is at its
    source. *)
Lemma copyFileSync_written fs src dest fs' :
  Fs.copyFileSync sys fs src dest = Some fs' ->
  exists c, Fs.lookup fs src = Some (Fs.File c) /\
            Fs.lookup fs' dest = Some (Fs.File c).
Proof.
  intros H. apply copyFileSync_put in H. destruct H as (c & Hc & H).
  exists c. split; [|exact (put_written _ _ _ _ H)].
  unfold Fs.content in Hc.
  destruct (Fs.lookup fs src) as [[c0|es]|]; congruence.
Qed.

Lemma put_onto_folder p data : forall n es,
  Fs.lookup n p = Some (Fs.Folder es) -> Fs.put n p data = None.
Proof.
  induction p as [|name rest IH]; intros n es H; simpl in *.
  - inversion H. reflexivity.
  - destruct n as [c|es0]; [reflexivity|].
    destruct (Fs.entry name es0) as [child|]; [|discriminate].
    now rewrite (IH _ _ H).
Qed.

Lemma copyFileSync_onto_folder fs src dest es :
  Fs.lookup fs dest = Some (Fs.Folder es) ->
  Fs.copyFileSync sys fs src dest = None.
Proof.
  intros H. unfold Fs.copyFileSync.
  destruct (sys fs _); [reflexivity|].
  destruct (Fs.content fs src); [|reflexivity].
  exact (put_onto_folder _ _ _ _ H).
Qed.

Lemma put_through_file p data : forall n c q,
  Fs.lookup n p = Some (Fs.File c) -> q <> [] ->
  Fs.put n (p ++ q) data = None.
Proof.
  induction p as [|name rest IH]; intros n c q H Hq; simpl in *.
  - inversion H; subst. destruct q; [congruence|reflexivity].
  - destruct n as [c0|es0]; [reflexivity|].
    destruct (Fs.entry name es0) as [child|]; [|discriminate].
    now rewrite (IH _ _ _ H Hq).
Qed.

Lemma copyFileSync_through_file fs src p c q :
  Fs.lookup fs p = Some (Fs.File c) -> q <> [] ->
  Fs.copyFileSync sys fs src (p ++ q) = None.
Proof.
  intros H Hq. unfold Fs.copyFileSync.
  destruct (sys fs _); [reflexivity|].
  destruct (Fs.content fs src); [|reflexivity].
  exact (put_through_file _ _ _ _ _ H Hq).
Qed.

Lemma make_folders_through_file p : forall n c q,
  Fs.lookup n p = Some (Fs.File c) -> Fs.make_folders n (p ++ q) = None.
Proof.
  induction p as [|name rest IH]; intros n c q H; simpl in *.
  - inversion H; subst. destruct q; reflexivity.
  - destruct n as [c0|es0]; [discriminate|].
    destruct (Fs.entry name es0) as [child|]; [|discriminate].
    now rewrite (IH _ _ _ H).
Qed.

Lemma mkdirSync_through_file p : forall n c q,
  Fs.lookup n p = Some (Fs.File c) -> Fs.mkdirSync sys n (p ++ q) = None.
Proof.
  intros n c q H. unfold Fs.mkdirSync.
  destruct (sys n _); [reflexivity|].
  exact (make_folders_through_file _ _ _ _ H).
Qed.

Section CopyPresent.
Variable recurse : Fs.node -> Fs.path -> Fs.path -> Fs.outcome Fs.node.
Hypothesis recurse_frame : forall fs s d fs' q,
  recurse fs s d = Fs.Done fs' -> Fs.apart d q ->
  Fs.lookup fs' q = Fs.lookup fs q.
Hypothesis recurse_present : forall fs s d fs' rel c,
  recurse fs s d = Fs.Done fs' -> Fs.apart s d ->
  Fs.lookup fs (s ++ rel) = Some (Fs.File c) ->
  Fs.lookup fs' (d ++ rel) = Some (Fs.File c).
Hypothesis recurse_kept : forall fs s d fs' rel c,
  recurse fs s d = Fs.Done fs' -> Fs.apart s d ->
  Fs.lookup fs (d ++ rel) = Some (Fs.File c) ->
  (forall c', Fs.lookup fs (s ++ rel) <> Some (Fs.File c')) ->
  Fs.lookup fs' (d ++ rel) = Some (Fs.File c).

Lemma round_frame fs source dest n isDir fs1 q :
  Fs.copy_entry sys recurse fs source dest n isDir = Fs.Done fs1 ->
  Fs.apart (dest ++ [n]) q ->
  Fs.lookup fs1 q = Fs.lookup fs q.
Proof.
  unfold Fs.copy_entry. destruct isDir.
  - apply recurse_frame.
  - destruct (Fs.copyFileSync sys _ _ _) as [fs'|] eqn:E; [|discriminate].
    intros H; inversion H; subst. now apply copyFileSync_frame with (1 := E).
Qed.

Lemma round_present fs source dest n isDir fs1 rel c :
  Fs.copy_entry sys recurse fs source dest n isDir = Fs.Done fs1 ->
  Fs.apart source dest ->
  Fs.lookup fs (source ++ n :: rel) = Some (Fs.File c) ->
  Fs.lookup fs1 (dest ++ n :: rel) = Some (Fs.File c).
Proof.
  unfold Fs.copy_entry. intros H Ha Hs.
  change (n :: rel) with ([n] ++ rel) in *. rewrite app_assoc in *.
  destruct isDir.
  - apply (recurse_present _ _ _ _ _ _ H); [now apply apart_app_both|exact Hs].
  - destruct (Fs.copyFileSync sys fs (source ++ [n]) (dest ++ [n]))
      as [fs'|] eqn:E; [|discriminate].
    inversion H; subst fs'.
    destruct (copyFileSync_written _ _ _ _ E) as (c0 & Hc0 & Hd0).
    rewrite lookup_app, Hc0 in Hs.
    apply lookup_file_below in Hs. destruct Hs as [-> Hc]. inversion Hc; subst.
    rewrite app_nil_r. exact Hd0.
Qed.

Lemma round_kept fs source dest n isDir fs1 rel c :
  Fs.copy_entry sys recurse fs source dest n isDir = Fs.Done fs1 ->
  Fs.apart source dest ->
  Fs.lookup fs (dest ++ n :: rel) = Some (Fs.File c) ->
  (forall c', Fs.lookup fs (source ++ n :: rel) <> Some (Fs.File c')) ->
  Fs.lookup fs1 (dest ++ n :: rel) = Some (Fs.File c).
Proof.
  unfold Fs.copy_entry. intros H Ha Hd Hs.
  change (n :: rel) with ([n] ++ rel) in *. rewrite app_assoc in *.
  destruct isDir.
  - apply (recurse_kept _ _ _ _ _ _ H); [now apply apart_app_both| |];
      assumption.
  - exfalso.
    destruct (Fs.copyFileSync sys fs (source ++ [n]) (dest ++ [n]))
      as [fs'|] eqn:E; [|discriminate].
    destruct (copyFileSync_written _ _ _ _ E) as (c0 & E0 & _).
    destruct rel as [|x rel].
    + apply (Hs c0). now rewrite app_nil_r.
    + rewrite lookup_app in Hd.
      destruct (Fs.lookup fs (dest ++ [n])) as [[c1|es1]|] eqn:E1;
        try discriminate.
      rewrite (copyFileSync_onto_folder _ _ _ _ E1) in E. discriminate.
Qed.

Lemma copy_entries_present source dest entries : forall fs fs' n rel c,
  Fs.copy_entries sys recurse fs source dest entries = Fs.Done fs' ->
  Fs.apart source dest ->
  Fs.lookup fs (source ++ n :: rel) = Some (Fs.File c) ->
  In n (map fst entries) \/
  Fs.lookup fs (dest ++ n :: rel) = Some (Fs.File c) ->
  Fs.lookup fs' (dest ++ n :: rel) = Some (Fs.File c).
Proof.
  induction entries as [|[m isDir] rest IH]; intros fs fs' n rel c H Ha Hs Hor;
    simpl in H.
  - inversion H; subst. destruct Hor as [[]|Hd]. exact Hd.
  - destruct (Fs.copy_entry sys recurse fs source dest m isDir) as [fs1| |] eqn:E;
      try discriminate.
    assert (Hs1 : Fs.lookup fs1 (source ++ n :: rel) = Some (Fs.File c)).
    { rewrite (round_frame _ _ _ _ _ _ _ E); [exact Hs|].
      apply apart_app_both. now apply apart_sym. }
    apply (IH _ _ _ _ _ H Ha Hs1).
    destruct (jsstring_eqb m n) eqn:Em.
    + apply jsstring_eqb_eq in Em. subst m. right.
      exact (round_present _ _ _ _ _ _ _ _ E Ha Hs).
    + apply jsstring_eqb_neq in Em.
      destruct Hor as [[Hm|Hin]|Hd]; [contradiction|now left|right].
      rewrite (round_frame _ _ _ _ _ _ _ E); [exact Hd|].
      now apply apart_sibling_below.
Qed.

Lemma copy_entries_kept source dest entries : forall fs fs' n rel c,
  Fs.copy_entries sys recurse fs source dest entries = Fs.Done fs' ->
  Fs.apart source dest ->
  Fs.lookup fs (dest ++ n :: rel) = Some (Fs.File c) ->
  (forall c', Fs.lookup fs (source ++ n :: rel) <> Some (Fs.File c')) ->
  Fs.lookup fs' (dest ++ n :: rel) = Some (Fs.File c).
Proof.
  induction entries as [|[m isDir] rest IH]; intros fs fs' n rel c H Ha Hd Hs;
    simpl in H.
  - now inversion H; subst.
  - destruct (Fs.copy_entry sys recurse fs source dest m isDir) as [fs1| |] eqn:E;
      try discriminate.
    apply (IH _ _ _ _ _ H Ha).
    + destruct (jsstring_eqb m n) eqn:Em.
      * apply jsstring_eqb_eq in Em. subst m.
        exact (round_kept _ _ _ _ _ _ _ _ E Ha Hd Hs).
      * apply jsstring_eqb_neq in Em.
        rewrite (round_frame _ _ _ _ _ _ _ E); [exact Hd|].
        now apply apart_sibling_below.
    + intros c'. rewrite (round_frame _ _ _ _ _ _ _ E); [apply Hs|].
      apply apart_app_both. now apply apart_sym.
Qed.

End CopyPresent.

Lemma listing_names fs p entries :
  Fs.listing fs p = Some entries ->
  exists es, Fs.lookup fs p = Some (Fs.Folder es) /\
             entries = map (fun e => (fst e, Fs.is_folder (snd e))) es /\
             map fst entries = map fst es.
Proof.
  unfold Fs.listing.
  destruct (Fs.lookup fs p) as [[c|es]|]; try discriminate.
  intros H; inversion H; subst. exists es. repeat split.
  rewrite map_map. reflexivity.
Qed.

Lemma readdirSync_names fs p entries :
  Fs.readdirSync sys fs p = Some entries ->
  exists es, Fs.lookup fs p = Some (Fs.Folder es) /\
             entries = map (fun e => (fst e, Fs.is_folder (snd e))) es /\
             map fst entries = map fst es.
Proof.
  intros H. apply readdirSync_listing in H. revert H.
  apply listing_names.
Qed.

Lemma copyDirectoryRecursive_present fuel : forall fs s d fs' rel c,
  Fs.copyDirectoryRecursive sys fuel fs s d = Fs.Done fs' -> Fs.apart s d ->
  Fs.lookup fs (s ++ rel) = Some (Fs.File c) ->
  Fs.lookup fs' (d ++ rel) = Some (Fs.File c).
Proof.
  induction fuel as [|fuel IH]; intros fs s d fs' rel c H Ha Hs;
    [discriminate|].
  simpl in H.
  destruct (if Fs.existsSync fs d then Some fs else Fs.mkdirSync sys fs d)
    as [fs1|] eqn:E1; [|discriminate].
  assert (Hs1 : Fs.lookup fs1 (s ++ rel) = Some (Fs.File c)).
  { destruct (Fs.existsSync fs d); [now inversion E1; subst|].
    rewrite (mkdirSync_frame _ _ _ _ E1); [exact Hs|].
    apply apart_sym. apply apart_app_l. exact Ha. }
  destruct (Fs.readdirSync sys fs1 s) as [entries|] eqn:Er; [|discriminate].
  apply readdirSync_names in Er. destruct Er as (es & Hl & _ & Hn).
  rewrite lookup_app, Hl in Hs1.
  destruct rel as [|n rel]; [discriminate|].
  apply (copy_entries_present _ (copyDirectoryRecursive_frame fuel) IH
           _ _ _ _ _ _ _ _ H Ha).
  - now rewrite lookup_app, Hl.
  - left. rewrite Hn. simpl in Hs1.
    destruct (Fs.entry n es) as [child|] eqn:Ee; [|discriminate].
    exact (entry_name_listed _ _ _ Ee).
Qed.

(** A copy onto a file does nothing or throws. *)
Lemma copyDirectoryRecursive_onto_file fuel fs s d c fs' :
  Fs.lookup fs d = Some (Fs.File c) ->
  Fs.copyDirectoryRecursive sys fuel fs s d = Fs.Done fs' -> fs' = fs.
Proof.
  intros Hd. destruct fuel as [|fuel]; [discriminate|]. simpl.
  unfold Fs.existsSync. rewrite Hd.
  destruct (Fs.readdirSync sys fs s) as [[|[n isDir] rest]|]; try discriminate.
  - intros H; now inversion H.
  - simpl. unfold Fs.copy_entry. destruct isDir.
    + destruct fuel as [|fuel]; [discriminate|]. simpl.
      unfold Fs.existsSync. rewrite lookup_app, Hd. simpl.
      rewrite (mkdirSync_through_file _ _ _ _ Hd). discriminate.
    + rewrite (copyFileSync_through_file _ _ _ _ _ Hd); discriminate.
Qed.

Lemma copyDirectoryRecursive_kept fuel : forall fs s d fs' rel c,
  Fs.copyDirectoryRecursive sys fuel fs s d = Fs.Done fs' -> Fs.apart s d ->
  Fs.lookup fs (d ++ rel) = Some (Fs.File c) ->
  (forall c', Fs.lookup fs (s ++ rel) <> Some (Fs.File c')) ->
  Fs.lookup fs' (d ++ rel) = Some (Fs.File c).
Proof.
  induction fuel as [|fuel IH]; intros fs s d fs' rel c H Ha Hd Hs;
    [discriminate|].
  destruct rel as [|n rel].
  - rewrite app_nil_r in *.
    now rewrite (copyDirectoryRecursive_onto_file _ _ _ _ _ _ Hd H).
  - simpl in H.
    assert (He : Fs.existsSync fs d = true).
    { unfold Fs.existsSync. rewrite lookup_app in Hd.
      now destruct (Fs.lookup fs d). }
    rewrite He in H.
    destruct (Fs.readdirSync sys fs s) as [entries|]; [|discriminate].
    exact (copy_entries_kept _ (copyDirectoryRecursive_frame fuel) IH
             _ _ _ _ _ _ _ _ H Ha Hd Hs).
Qed.

(** X12. [copyDirectoryRecursive] changes nothing outside its destination:
    whatever is at a path that neither leads to the destination nor lies
    in it is after the copy what it was before.  The source, when it is
    such a path, is among what is left as it was. *)
Theorem copy_touches_destination_only fuel fs source dest fs' q :
  Fs.copyDirectoryRecursive sys fuel fs source dest = Fs.Done fs' ->
  Fs.apart dest q ->
  Fs.lookup fs' q = Fs.lookup fs q.
Proof. apply copyDirectoryRecursive_frame. Qed.

(** X13. After [copyDirectoryRecursive] has returned, every file of the
    source is in the destination, at the same place below it and with the
    same content; a file that was there before is overwritten. *)
Theorem copy_brings_every_file fuel fs source dest fs' rel content :
  Fs.copyDirectoryRecursive sys fuel fs source dest = Fs.Done fs' ->
  Fs.apart source dest ->
  Fs.lookup fs (source ++ rel) = Some (Fs.File content) ->
  Fs.lookup fs' (dest ++ rel) = Some (Fs.File content) /\
  Fs.lookup fs' (source ++ rel) = Some (Fs.File content).
Proof.
  intros H Ha Hs. split.
  - exact (copyDirectoryRecursive_present _ _ _ _ _ _ _ H Ha Hs).
  - rewrite (copyDirectoryRecursive_frame _ _ _ _ _ _ H); [exact Hs|].
    apply apart_sym. apply apart_app_l. exact Ha.
Qed.

(** X14. [copyDirectoryRecursive] merges: a file of the destination stays
    as it was unless the source has a file at the same place. *)
Theorem copy_keeps_other_files fuel fs source dest fs' rel content :
  Fs.copyDirectoryRecursive sys fuel fs source dest = Fs.Done fs' ->
  Fs.apart source dest ->
  Fs.lookup fs (dest ++ rel) = Some (Fs.File content) ->
  (forall c, Fs.lookup fs (source ++ rel) <> Some (Fs.File c)) ->
  Fs.lookup fs' (dest ++ rel) = Some (Fs.File content).
Proof. apply copyDirectoryRecursive_kept. Qed.

(** ** A copy into a new folder succeeds *)

Lemma make_folders_prefix_folder q : forall n n' p,
  Fs.make_folders n q = Some n' -> Fs.prefix p q ->
  exists es, Fs.lookup n' p = Some (Fs.Folder es).
Proof.
  induction q as [|name rest IH]; intros n n' p H [r Hr].
  - symmetry in Hr. apply app_eq_nil in Hr. destruct Hr as [-> _].
    destruct n as [c|es]; simpl in H; [discriminate|].
    inversion H; subst. simpl. eauto.
  - destruct n as [c|es]; simpl in H; [discriminate|].
    destruct (Fs.make_folders _ rest) as [child'|] eqn:E; [|discriminate].
    inversion H; subst n'; clear H.
    destruct p as [|m p]; [simpl; eauto|].
    simpl in Hr. inversion Hr; subst m rest. simpl.
    rewrite entry_set_same. apply (IH _ _ _ E). now exists r.
Qed.

Lemma mkdirSync_prefix_folder q : forall n n' p,
  Fs.mkdirSync sys n q = Some n' -> Fs.prefix p q ->
  exists es, Fs.lookup n' p = Some (Fs.Folder es).
Proof.
  intros n n' p H. apply mkdirSync_make_folders in H. revert H.
  apply make_folders_prefix_folder.
Qed.

Lemma put_prefix_folder q data : forall n n' p,
  Fs.put n q data = Some n' -> Fs.prefix p q -> p <> q ->
  exists es, Fs.lookup n' p = Some (Fs.Folder es).
Proof.
  induction q as [|name rest IH]; intros n n' p H [r Hr] Hne.
  - symmetry in Hr. apply app_eq_nil in Hr. destruct Hr as [-> _].
    congruence.
  - destruct n as [c|es]; simpl in H; [discriminate|].
    destruct p as [|m p].
    + destruct (Fs.entry name es) as [child|].
      * destruct (Fs.put child rest data); [|discriminate].
        inversion H; subst. simpl. eauto.
      * destruct rest; [|discriminate]. inversion H; subst. simpl. eauto.
    + simpl in Hr. inversion Hr; subst m rest.
      destruct (Fs.entry name es) as [child|].
      * destruct (Fs.put child (p ++ r) data) as [child'|] eqn:E;
          [|discriminate].
        inversion H; subst. simpl. rewrite entry_set_same.
        apply (IH _ _ _ E); [now exists r|congruence].
      * destruct (p ++ r) eqn:Epr; [|discriminate].
        apply app_eq_nil in Epr. destruct Epr as [-> ->]. congruence.
Qed.

Lemma copyFileSync_prefix_folder fs src dest fs' p :
  Fs.copyFileSync sys fs src dest = Some fs' ->
  Fs.prefix p dest -> p <> dest ->
  exists es, Fs.lookup fs' p = Some (Fs.Folder es).
Proof.
  intros H. apply copyFileSync_put in H. destruct H as (c & _ & H).
  revert H. apply put_prefix_folder.
Qed.

Lemma prefix_app_r p d r : Fs.prefix p d -> Fs.prefix p (d ++ r).
Proof. intros [x ->]. exists (x ++ r). now rewrite app_assoc. Qed.

Lemma prefix_proper p d n : Fs.prefix p d -> p <> d ++ [n].
Proof.
  intros [x ->] H. apply (f_equal (@length _)) in H.
  rewrite !length_app in H. simpl in H. lia.
Qed.

Lemma copyDirectoryRecursive_keeps_folder fuel : forall fs s d fs' p es,
  Fs.copyDirectoryRecursive sys fuel fs s d = Fs.Done fs' ->
  Fs.prefix p d -> Fs.lookup fs p = Some (Fs.Folder es) ->
  exists es', Fs.lookup fs' p = Some (Fs.Folder es').
Proof.
  induction fuel as [|fuel IH]; intros fs s d fs' p es H Hp Hl;
    [discriminate|].
  simpl in H.
  destruct (if Fs.existsSync fs d then Some fs else Fs.mkdirSync sys fs d)
    as [fs1|] eqn:E1; [|discriminate].
  assert (Hl1 : exists es1, Fs.lookup fs1 p = Some (Fs.Folder es1)).
  { destruct (Fs.existsSync fs d); [inversion E1; subst; eauto|].
    exact (mkdirSync_prefix_folder _ _ _ _ E1 Hp). }
  destruct (Fs.readdirSync sys fs1 s) as [entries|]; [|discriminate].
  clear E1 Hl. revert fs1 Hl1 H.
  induction entries as [|[n isDir] rest IHe]; intros fs1 [es1 Hl1] H;
    simpl in H.
  - inversion H; subst. eauto.
  - destruct (Fs.copy_entry sys _ fs1 s d n isDir) as [fs2| |] eqn:E;
      try discriminate.
    apply (IHe fs2); [|exact H].
    unfold Fs.copy_entry in E. destruct isDir.
    + apply (IH _ _ _ _ _ es1 E); [now apply prefix_app_r|exact Hl1].
    + destruct (Fs.copyFileSync sys fs1 (s ++ [n]) (d ++ [n]))
        as [fs3|] eqn:Ew; [|discriminate].
      inversion E; subst fs3.
      apply (copyFileSync_prefix_folder _ _ _ _ _ Ew);
        [now apply prefix_app_r|now apply prefix_proper].
Qed.

Lemma make_folders_fresh q : forall n n',
  Fs.lookup n q = None -> Fs.make_folders n q = Some n' ->
  Fs.lookup n' q = Some (Fs.Folder []).
Proof.
  induction q as [|name rest IH]; intros n n' Hl Hm; [discriminate|].
  destruct n as [c|es]; simpl in Hm; [discriminate|]. simpl in Hl.
  destruct (Fs.make_folders _ rest) as [child'|] eqn:E; [|discriminate].
  inversion Hm; subst n'. simpl. rewrite entry_set_same.
  destruct (Fs.entry name es) as [child|].
  - exact (IH _ _ Hl E).
  - destruct rest as [|x rest].
    + simpl in E. now inversion E.
    + exact (IH (Fs.Folder []) _ eq_refl E).
Qed.

Lemma mkdirSync_fresh q : forall n n',
  Fs.lookup n q = None -> Fs.mkdirSync sys n q = Some n' ->
  Fs.lookup n' q = Some (Fs.Folder []).
Proof.
  intros n n' Hl H. apply mkdirSync_make_folders in H.
  exact (make_folders_fresh _ _ _ Hl H).
Qed.

Lemma make_folders_new p n : forall fs es,
  Fs.lookup fs p = Some (Fs.Folder es) ->
  Fs.lookup fs (p ++ [n]) = None ->
  exists fs', Fs.make_folders fs (p ++ [n]) = Some fs'.
Proof.
  induction p as [|x p IH]; intros fs es Hl Hn; simpl in *.
  - inversion Hl; subst fs. simpl.
    destruct (Fs.entry n es); [discriminate|]. simpl. eauto.
  - destruct fs as [c|es0]; [discriminate|]. simpl.
    destruct (Fs.entry x es0) as [child|]; [|discriminate].
    destruct (IH _ _ Hl Hn) as [child' ->]. eauto.
Qed.

Lemma put_new p n data : forall fs es,
  Fs.lookup fs p = Some (Fs.Folder es) ->
  Fs.lookup fs (p ++ [n]) = None ->
  exists fs', Fs.put fs (p ++ [n]) data = Some fs'.
Proof.
  induction p as [|x p IH]; intros fs es Hl Hn; simpl in *.
  - inversion Hl; subst fs.
    destruct (Fs.entry n es); [discriminate|]. eauto.
  - destruct fs as [c|es0]; [discriminate|].
    destruct (Fs.entry x es0) as [child|]; [|discriminate].
    destruct (IH _ _ Hl Hn) as [child' ->]. eauto.
Qed.

Lemma distinct_names_entry es : forall n child,
  Fs.distinct_names (Fs.Folder es) -> In (n, child) es ->
  Fs.entry n es = Some child /\ Fs.distinct_names child /\
  Fs.depth child < Fs.depth (Fs.Folder es).
Proof.
  induction es as [|[m x] es IH]; intros n child [Hnd Hall] Hin;
    [destruct Hin|].
  simpl in Hnd. inversion Hnd as [|? ? Hm Hnd']; subst.
  destruct Hall as [Hx Hall].
  destruct Hin as [Heq|Hin].
  - inversion Heq; subst. simpl. rewrite jsstring_eqb_refl.
    repeat split; auto. lia.
  - assert (Hne : m <> n).
    { intros ->. apply Hm. apply in_map_iff. exists (n, child). auto. }
    apply jsstring_eqb_neq in Hne. simpl Fs.entry. rewrite Hne.
    destruct (IH n child (conj Hnd' Hall) Hin) as (He & Hd & Hlt).
    repeat split; auto. simpl in *. lia.
Qed.

Lemma of_copy_below s d n c :
  Fs.of_copy (s ++ [n]) (d ++ [n]) c -> Fs.of_copy s d c.
Proof.
  assert (H : forall a b : Fs.path, Fs.prefix (a ++ [n]) b -> Fs.prefix a b).
  { intros a b [r ->]. exists ([n] ++ r). now rewrite app_assoc. }
  destruct c; simpl; auto. intros [H1 H2]. auto.
Qed.

Lemma copyDirectoryRecursive_fresh fuel : forall fs s d es,
  (forall disk c, Fs.of_copy s d c -> sys disk c = false) ->
  Fs.lookup fs s = Some (Fs.Folder es) ->
  Fs.distinct_names (Fs.Folder es) ->
  Fs.apart s d ->
  Fs.lookup fs d = None ->
  Fs.make_folders fs d <> None ->
  Fs.depth (Fs.Folder es) <= fuel ->
  exists fs', Fs.copyDirectoryRecursive sys fuel fs s d = Fs.Done fs'.
Proof.
  induction fuel as [|fuel IH]; intros fs s d es Hok Hs Hdn Ha Hd Hm Hf.
  - simpl in Hf. lia.
  - assert (Hself : forall a : Fs.path, Fs.prefix a a)
      by (intros a; exists []; now rewrite app_nil_r).
    assert (Hstep1 : forall a n, Fs.prefix a (a ++ [n]))
      by (intros a n; now exists [n]).
    simpl. unfold Fs.existsSync. rewrite Hd.
    unfold Fs.mkdirSync. rewrite (Hok fs (Fs.Mkdir d) (Hself d)).
    destruct (Fs.make_folders fs d) as [fs1|] eqn:Em; [|congruence].
    assert (Hs1 : Fs.lookup fs1 s = Some (Fs.Folder es)).
    { rewrite (make_folders_frame _ _ _ _ Em); [exact Hs|now apply apart_sym]. }
    unfold Fs.readdirSync, Fs.listing.
    rewrite (Hok fs1 (Fs.Readdir s) (Hself s)), Hs1.
    pose proof (make_folders_fresh _ _ _ Hd Em) as Hd1.
    assert (Hfolder : exists e, Fs.lookup fs1 d = Some (Fs.Folder e))
      by eauto.
    assert (Hnone : forall n child, In (n, child) es ->
                      Fs.lookup fs1 (d ++ [n]) = None).
    { intros n child _. rewrite lookup_app, Hd1. reflexivity. }
    assert (Hincl : incl es es) by apply incl_refl.
    assert (Hnd : NoDup (map fst es)) by apply Hdn.
    cut (forall todo fs1,
           Fs.lookup fs1 s = Some (Fs.Folder es) ->
           (exists e, Fs.lookup fs1 d = Some (Fs.Folder e)) ->
           (forall n child, In (n, child) todo ->
                            Fs.lookup fs1 (d ++ [n]) = None) ->
           incl todo es -> NoDup (map fst todo) ->
           exists fs',
             Fs.copy_entries sys (Fs.copyDirectoryRecursive sys fuel) fs1 s d
               (map (fun e => (fst e, Fs.is_folder (snd e))) todo)
             = Fs.Done fs').
    { intros Hloop. now apply Hloop. }
    clear fs fs1 Hd Hm Em Hs Hd1 Hs1 Hfolder Hnone Hincl Hnd.
    induction todo as [|[n child] todo IHt];
      intros fs1 Hs1 Hfolder Hnone Hincl Hnd; simpl; [eauto|].
    destruct (distinct_names_entry es n child Hdn (Hincl _ (or_introl eq_refl)))
      as (He & Hdc & Hlt).
    assert (Hsrc : Fs.lookup fs1 (s ++ [n]) = Some child).
    { rewrite lookup_app, Hs1. simpl. now rewrite He. }
    destruct Hfolder as [e Hfolder].
    assert (Hnew : Fs.lookup fs1 (d ++ [n]) = None)
      by (apply (Hnone n child); now left).
    simpl in Hnd. inversion Hnd as [|? ? Hn Hnd']; subst.
    assert (Hstep : exists fs2,
              Fs.copy_entry sys (Fs.copyDirectoryRecursive sys fuel) fs1 s d n
                            (Fs.is_folder child) = Fs.Done fs2).
    { unfold Fs.copy_entry. destruct child as [c|es']; simpl.
      - unfold Fs.copyFileSync, Fs.content.
        rewrite (Hok fs1 (Fs.CopyFile (s ++ [n]) (d ++ [n]))
                     (conj (Hstep1 s n) (Hstep1 d n))), Hsrc.
        destruct (put_new d n c _ _ Hfolder Hnew) as [fs2 ->].
        eauto.
      - apply (IH fs1 (s ++ [n]) (d ++ [n]) es'); auto.
        + intros disk c Hc. apply Hok. exact (of_copy_below _ _ _ _ Hc).
        + now apply apart_app_both.
        + destruct (make_folders_new d n _ _ Hfolder Hnew) as [fs2 ->].
          discriminate.
        + simpl in Hf, Hlt. simpl. lia. }
    destruct Hstep as [fs2 Hstep]. rewrite Hstep.
    assert (Hframe : forall q, Fs.apart (d ++ [n]) q ->
                       Fs.lookup fs2 q = Fs.lookup fs1 q).
    { intros q Hq.
      exact (round_frame _ (copyDirectoryRecursive_frame fuel)
               _ _ _ _ _ _ _ Hstep Hq). }
    apply IHt.
    + rewrite Hframe; [exact Hs1|].
      apply apart_app_l. now apply apart_sym.
    + unfold Fs.copy_entry in Hstep. destruct (Fs.is_folder child).
      * exact (copyDirectoryRecursive_keeps_folder _ _ _ _ _ _ _ Hstep
                 (prefix_app_r _ _ _ (ex_intro _ [] (eq_sym (app_nil_r d))))
                 Hfolder).
      * destruct (Fs.copyFileSync sys fs1 (s ++ [n]) (d ++ [n]))
          as [fs3|] eqn:Ew; [|discriminate].
        inversion Hstep; subst fs3.
        apply (copyFileSync_prefix_folder _ _ _ _ _ Ew).
        -- apply prefix_app_r. exists []. now rewrite app_nil_r.
        -- apply prefix_proper. exists []. now rewrite app_nil_r.
    + intros m child' Hin. rewrite Hframe.
      * apply (Hnone m child'). now right.
      * apply apart_siblings. intros ->. apply Hn.
        apply in_map_iff. exists (m, child'). auto.
    + intros x Hx. apply Hincl. now right.
    + exact Hnd'.
Qed.

(** X15. Copying a folder whose names are distinct into a place where
    nothing is yet succeeds within as many nested calls as the folder is
    deep, provided the tree allows the first folder to be made (no file
    stands on the way to it) and the system refuses none of the calls of
    the copy: no [mkdirSync] at or below the destination, no [readdirSync]
    at or below the source, and no [copyFileSync] from below the source to
    below the destination.  Afterwards the new folder holds every file of
    the source. *)
Theorem copy_into_new_folder_succeeds fuel fs source dest es :
  (forall disk c, Fs.of_copy source dest c -> sys disk c = false) ->
  Fs.lookup fs source = Some (Fs.Folder es) ->
  Fs.distinct_names (Fs.Folder es) ->
  Fs.apart source dest ->
  Fs.existsSync fs dest = false ->
  Fs.make_folders fs dest <> None ->
  Fs.depth (Fs.Folder es) <= fuel ->
  exists fs',
    Fs.copyDirectoryRecursive sys fuel fs source dest = Fs.Done fs' /\
    forall rel content,
      Fs.lookup fs (source ++ rel) = Some (Fs.File content) ->
      Fs.lookup fs' (dest ++ rel) = Some (Fs.File content).
Proof.
  intros Hok Hs Hdn Ha He Hm Hf.
  assert (Hd : Fs.lookup fs dest = None).
  { unfold Fs.existsSync in He. now destruct (Fs.lookup fs dest). }
  destruct (copyDirectoryRecursive_fresh fuel fs source dest es
              Hok Hs Hdn Ha Hd Hm Hf) as [fs' H].
  exists fs'. split; [exact H|].
  intros rel content.
  exact (copyDirectoryRecursive_present _ _ _ _ _ _ _ H Ha).
Qed.

(** ** The settings *)

Lemma make_folders_keeps_file p : forall fs fs' q c,
  Fs.lookup fs q = Some (Fs.File c) -> Fs.make_folders fs p = Some fs' ->
  Fs.lookup fs' q = Some (Fs.File c).
Proof.
  induction p as [|name rest IH]; intros fs fs' q c Hq Hm.
  - destruct fs; simpl in Hm; [discriminate|]. now inversion Hm; subst.
  - destruct fs as [c0|es]; simpl in Hm; [discriminate|].
    destruct (Fs.make_folders _ rest) as [child'|] eqn:E; [|discriminate].
    inversion Hm; subst fs'; clear Hm.
    destruct q as [|m q]; [discriminate|]. simpl in *.
    destruct (jsstring_eqb m name) eqn:Em.
    + apply jsstring_eqb_eq in Em. subst m. rewrite entry_set_same.
      destruct (Fs.entry name es) as [child|]; [|discriminate].
      exact (IH _ _ _ _ Hq E).
    + apply jsstring_eqb_neq in Em. now rewrite entry_set_other.
Qed.

Lemma mkdirSync_keeps_file p : forall fs fs' q c,
  Fs.lookup fs q = Some (Fs.File c) -> Fs.mkdirSync sys fs p = Some fs' ->
  Fs.lookup fs' q = Some (Fs.File c).
Proof.
  intros fs fs' q c Hq H. apply mkdirSync_make_folders in H.
  exact (make_folders_keeps_file _ _ _ _ _ Hq H).
Qed.


Lemma content_written fs p data fs' :
  Fs.put fs p data = Some fs' ->
  Fs.content fs' p = Some data.
Proof.
  intros H. unfold Fs.content.
  now rewrite (put_written _ _ _ _ H).
Qed.

Lemma content_lookup fs p c :
  Fs.content fs p = Some c <-> Fs.lookup fs p = Some (Fs.File c).
Proof.
  unfold Fs.content.
  destruct (Fs.lookup fs p) as [[c0|es]|]; split; congruence.
Qed.

Section Settings.
Variable J : Type.
Variable ops : json_ops J.

Lemma copyVSCodeSettings_frame fs src dst fs' shown q :
  copyVSCodeSettings sys J ops fs src dst = Fs.Done (fs', shown) ->
  Fs.apart dst q ->
  Fs.lookup fs' q = Fs.lookup fs q.
Proof.
  unfold copyVSCodeSettings. intros H Ha.
  destruct (negb (Fs.existsSync fs (src ++ [js "settings.json"])));
    [now inversion H|].
  destruct (if Fs.existsSync fs dst then Some fs else Fs.mkdirSync sys fs dst)
    as [fs1|] eqn:E1; [|discriminate].
  assert (H1 : Fs.lookup fs1 q = Fs.lookup fs q).
  { destruct (Fs.existsSync fs dst); [now inversion E1|].
    exact (mkdirSync_frame _ _ _ _ E1 Ha). }
  assert (Ha' : Fs.apart (dst ++ [js "settings.json"]) q)
    by now apply apart_app_l.
  assert (Hcopy : forall fs2,
            Fs.copyFileSync sys fs1 (src ++ [js "settings.json"])
                            (dst ++ [js "settings.json"]) = Some fs2 ->
            Fs.lookup fs2 q = Fs.lookup fs q).
  { intros fs2 Hc. now rewrite (copyFileSync_frame _ _ _ _ _ Hc Ha'). }
  destruct (Fs.readFileSync sys fs1 (src ++ [js "settings.json"]))
    as [sc|]; [|discriminate].
  destruct (strip_parse ops sc) as [sj|].
  - destruct (Fs.existsSync fs1 (dst ++ [js "settings.json"])).
    + destruct (Fs.readFileSync sys fs1 (dst ++ [js "settings.json"])) as [dc|];
        [|now inversion H; subst].
      destruct (JSON_parse ops dc) as [dj|]; [|now inversion H; subst].
      destruct (Fs.writeFileSync sys fs1 _ _) as [fs2|] eqn:Ew;
        [|now inversion H; subst].
      inversion H; subst.
      now rewrite (writeFileSync_frame _ _ _ _ _ Ew Ha').
    + destruct (Fs.copyFileSync sys fs1 _ _) as [fs2|] eqn:Ec; [|discriminate].
      inversion H; subst. now apply Hcopy.
  - destruct (Fs.copyFileSync sys fs1 _ _) as [fs2|] eqn:Ec; [|discriminate].
    inversion H; subst. now apply Hcopy.
Qed.

(** X16. When the workspace has no [settings.json] yet, or when the one of
    the setup is not read as JSON, [copyVSCodeSettings] puts the settings
    of the setup into the workspace as they are and shows nothing; in the
    second case a [settings.json] the workspace had is overwritten. *)
Theorem settings_copied_verbatim fs src dst content fs' shown :
  Fs.content fs (src ++ [js "settings.json"]) = Some content ->
  Fs.existsSync fs (dst ++ [js "settings.json"]) = false \/
  strip_parse ops content = None ->
  copyVSCodeSettings sys J ops fs src dst = Fs.Done (fs', shown) ->
  Fs.content fs' (dst ++ [js "settings.json"]) = Some content /\
  shown = [].
Proof.
  intros Hs Hor. unfold copyVSCodeSettings.
  assert (He : Fs.existsSync fs (src ++ [js "settings.json"]) = true).
  { unfold Fs.existsSync. apply content_lookup in Hs. now rewrite Hs. }
  rewrite He. simpl.
  destruct (if Fs.existsSync fs dst then Some fs else Fs.mkdirSync sys fs dst)
    as [fs1|] eqn:E1; [|discriminate].
  assert (Hs1 : Fs.content fs1 (src ++ [js "settings.json"]) = Some content).
  { destruct (Fs.existsSync fs dst); [now inversion E1; subst|].
    apply content_lookup. apply content_lookup in Hs.
    exact (mkdirSync_keeps_file _ _ _ _ _ Hs E1). }
  assert (Hd1 : Fs.existsSync fs (dst ++ [js "settings.json"]) = false ->
                Fs.existsSync fs1 (dst ++ [js "settings.json"]) = false).
  { destruct (Fs.existsSync fs dst) eqn:Ed; [now inversion E1; subst|].
    intros _. unfold Fs.existsSync in *. rewrite lookup_app.
    assert (Hn : Fs.lookup fs dst = None)
      by (now destruct (Fs.lookup fs dst)).
    now rewrite (mkdirSync_fresh _ _ _ Hn E1). }
  destruct (Fs.readFileSync sys fs1 (src ++ [js "settings.json"]))
    as [sc|] eqn:Er; [|discriminate].
  apply readFileSync_content in Er.
  assert (sc = content) by congruence. subst sc.
  assert (Hcopy : forall fs2,
            Fs.copyFileSync sys fs1 (src ++ [js "settings.json"])
                            (dst ++ [js "settings.json"]) = Some fs2 ->
            Fs.content fs2 (dst ++ [js "settings.json"]) = Some content).
  { intros fs2 Hc. apply copyFileSync_put in Hc.
    destruct Hc as (c & Hc & Hp).
    assert (c = content) by congruence. subst c.
    exact (content_written _ _ _ _ Hp). }
  destruct (strip_parse ops content) as [sj|].
  - destruct Hor as [Hor|Hor]; [|discriminate].
    rewrite (Hd1 Hor).
    destruct (Fs.copyFileSync sys fs1 _ _) as [fs2|] eqn:Ec; [|discriminate].
    intros H; inversion H; subst. split; [now apply Hcopy|reflexivity].
  - destruct (Fs.copyFileSync sys fs1 _ _) as [fs2|] eqn:Ec; [|discriminate].
    intros H; inversion H; subst. split; [now apply Hcopy|reflexivity].
Qed.


End Settings.

(** ** The whole setup *)

Lemma copyDirectoryRecursive_system_error fuel : forall fs s d e,
  Fs.copyDirectoryRecursive sys fuel fs s d = Fs.Throws e ->
  e = Fs.SystemError.
Proof.
  induction fuel as [|fuel IH]; intros fs s d e H; [discriminate|].
  simpl in H.
  destruct (if Fs.existsSync fs d then Some fs else Fs.mkdirSync sys fs d)
    as [fs1|]; [|now inversion H].
  destruct (Fs.readdirSync sys fs1 s) as [entries|]; [|now inversion H].
  revert fs1 H. induction entries as [|[name isDir] rest IHe];
    intros fs1 H; [discriminate|].
  simpl in H.
  destruct (Fs.copy_entry sys (Fs.copyDirectoryRecursive sys fuel) fs1 s d name isDir)
    as [fs2|e'|] eqn:E; [now apply (IHe fs2)| |discriminate].
  inversion H; subst e'. unfold Fs.copy_entry in E.
  destruct isDir; [exact (IH _ _ _ _ E)|].
  destruct (Fs.copyFileSync sys fs1 _ _); [discriminate|now inversion E].
Qed.

Section Setup.
Variable J : Type.
Variable ops : json_ops J.
Variable fuel : nat.
Variables setupSource workspacePath : Fs.path.
Hypothesis Hapart : Fs.apart setupSource workspacePath.

Lemma copy_setup_dir_frame dir fs n shown fs' n' shown' q :
  copy_setup_dir sys J ops fuel setupSource workspacePath dir (fs, n, shown)
  = Fs.Done (fs', n', shown') ->
  Fs.apart (workspacePath ++ [dir]) q ->
  Fs.lookup fs' q = Fs.lookup fs q.
Proof.
  unfold copy_setup_dir. intros H Ha.
  destruct (negb (Fs.existsSync fs (setupSource ++ [dir])));
    [now inversion H|].
  destruct (jsstring_eqb dir (js ".vscode")).
  - destruct (copyVSCodeSettings sys J ops fs _ _) as [[fs2 shown2]| |] eqn:E;
      try discriminate.
    inversion H; subst.
    exact (copyVSCodeSettings_frame _ _ _ _ _ _ _ _ E Ha).
  - destruct (Fs.copyDirectoryRecursive sys fuel fs _ _) as [fs2| |] eqn:E;
      try discriminate.
    inversion H; subst.
    exact (copyDirectoryRecursive_frame _ _ _ _ _ _ E Ha).
Qed.

Lemma copy_setup_dir_count dir fs n shown fs' n' shown' :
  copy_setup_dir sys J ops fuel setupSource workspacePath dir (fs, n, shown)
  = Fs.Done (fs', n', shown') ->
  n' = n + (if Fs.existsSync fs (setupSource ++ [dir]) then 1 else 0).
Proof.
  unfold copy_setup_dir. intros H.
  destruct (Fs.existsSync fs (setupSource ++ [dir])); simpl in H;
    [|inversion H; lia].
  destruct (jsstring_eqb dir (js ".vscode")).
  - destruct (copyVSCodeSettings sys J ops fs _ _) as [[fs2 shown2]| |];
      try discriminate.
    inversion H; lia.
  - destruct (Fs.copyDirectoryRecursive sys fuel fs _ _) as [fs2| |];
      try discriminate.
    inversion H; lia.
Qed.

Lemma copy_setup_dir_present dir fs n shown fs' n' shown' rel c :
  copy_setup_dir sys J ops fuel setupSource workspacePath dir (fs, n, shown)
  = Fs.Done (fs', n', shown') ->
  dir <> js ".vscode" ->
  Fs.lookup fs (setupSource ++ dir :: rel) = Some (Fs.File c) ->
  Fs.lookup fs' (workspacePath ++ dir :: rel) = Some (Fs.File c).
Proof.
  unfold copy_setup_dir. intros H Hd Hs.
  assert (He : Fs.existsSync fs (setupSource ++ [dir]) = true).
  { unfold Fs.existsSync.
    change (dir :: rel) with ([dir] ++ rel) in Hs.
    rewrite app_assoc, lookup_app in Hs.
    now destruct (Fs.lookup fs (setupSource ++ [dir])). }
  rewrite He in H. simpl in H.
  destruct (jsstring_eqb dir (js ".vscode")) eqn:Ev.
  { now apply jsstring_eqb_eq in Ev. }
  destruct (Fs.copyDirectoryRecursive sys fuel fs _ _) as [fs2| |] eqn:E;
    try discriminate.
  inversion H; subst.
  change (dir :: rel) with ([dir] ++ rel) in *.
  rewrite app_assoc in *.
  refine (copyDirectoryRecursive_present _ _ _ _ _ _ _ E _ Hs).
  now apply apart_app_both.
Qed.

Lemma copy_setup_dirs_spec directories : forall fs n shown fs' n' shown',
  copy_setup_dirs sys J ops fuel setupSource workspacePath directories
                  (fs, n, shown) = Fs.Done (fs', n', shown') ->
  n' = n + length (filter (fun dir => Fs.existsSync fs (setupSource ++ [dir]))
                          directories) /\
  forall q, (forall dir, In dir directories ->
                         Fs.apart (workspacePath ++ [dir]) q) ->
            Fs.lookup fs' q = Fs.lookup fs q.
Proof.
  induction directories as [|dir rest IH]; intros fs n shown fs' n' shown' H.
  - simpl in H. inversion H; subst. simpl. split; [lia|reflexivity].
  - cbn [copy_setup_dirs] in H.
    destruct (copy_setup_dir sys J ops fuel setupSource workspacePath dir
                (fs, n, shown)) as [[[fs1 n1] shown1]| |] eqn:E1;
      try discriminate.
    destruct (IH _ _ _ _ _ _ H) as [Hn Hf].
    pose proof (copy_setup_dir_count _ _ _ _ _ _ _ E1) as Hc.
    assert (Hsame : forall d, Fs.existsSync fs1 (setupSource ++ [d])
                              = Fs.existsSync fs (setupSource ++ [d])).
    { intros d. unfold Fs.existsSync.
      rewrite (copy_setup_dir_frame _ _ _ _ _ _ _ _ E1); [reflexivity|].
      apply apart_sym. now apply apart_app_both. }
    split.
    + rewrite Hn, Hc. simpl.
      rewrite (filter_ext _ _ Hsame).
      destruct (Fs.existsSync fs (setupSource ++ [dir])); simpl; lia.
    + intros q Hq. rewrite Hf by (intros d Hd; apply Hq; now right).
      apply (copy_setup_dir_frame _ _ _ _ _ _ _ _ E1).
      apply Hq. now left.
Qed.

Lemma copy_setup_dirs_present directories :
  forall fs n shown fs' n' shown' dir rel c,
  copy_setup_dirs sys J ops fuel setupSource workspacePath directories
                  (fs, n, shown) = Fs.Done (fs', n', shown') ->
  NoDup directories -> In dir directories -> dir <> js ".vscode" ->
  Fs.lookup fs (setupSource ++ dir :: rel) = Some (Fs.File c) ->
  Fs.lookup fs' (workspacePath ++ dir :: rel) = Some (Fs.File c).
Proof.
  induction directories as [|d rest IH];
    intros fs n shown fs' n' shown' dir rel c H Hnd Hin Hv Hs;
    [destruct Hin|].
  cbn [copy_setup_dirs] in H.
  destruct (copy_setup_dir sys J ops fuel setupSource workspacePath d
              (fs, n, shown)) as [[[fs1 n1] shown1]| |] eqn:E1;
    try discriminate.
  inversion Hnd as [|? ? Hnotin Hnd']; subst.
  destruct Hin as [->|Hin].
  - destruct (copy_setup_dirs_spec _ _ _ _ _ _ _ H) as [_ Hf].
    rewrite Hf.
    + exact (copy_setup_dir_present _ _ _ _ _ _ _ _ _ E1 Hv Hs).
    + intros d' Hd'. apply apart_sibling_below. intros ->. contradiction.
  - apply (IH _ _ _ _ _ _ _ _ _ H Hnd' Hin Hv).
    rewrite (copy_setup_dir_frame _ _ _ _ _ _ _ _ E1); [exact Hs|].
    apply apart_sym. apply apart_app_both. exact Hapart.
Qed.

End Setup.

Lemma copy_setup_dirs_system_error J (ops : json_ops J) fuel setupSource
      workspacePath directories : forall st e,
  copy_setup_dirs sys J ops fuel setupSource workspacePath directories st
  = Fs.Throws e ->
  e = Fs.SystemError.
Proof.
  induction directories as [|d rest IH]; intros st e;
    cbn [copy_setup_dirs]; [discriminate|].
  destruct (copy_setup_dir sys J ops fuel setupSource workspacePath d st)
    as [st1|e1|] eqn:E1; [apply IH| |discriminate].
  intros He. inversion He; subst e1. revert E1. unfold copy_setup_dir.
  destruct st as [[fs n] shown].
  destruct (negb _); [discriminate|].
  destruct (jsstring_eqb d (js ".vscode")).
  - destruct (copyVSCodeSettings sys J ops fs _ _) as [[? ?]|e2|] eqn:E2;
      try discriminate.
    intros He2. inversion He2; subst e2. revert E2.
    unfold copyVSCodeSettings.
    repeat match goal with
           | |- context [match ?x with _ => _ end] => destruct x
           end; intros E2; inversion E2; reflexivity.
  - destruct (Fs.copyDirectoryRecursive sys fuel fs _ _) as [?|e2|] eqn:E2;
      try discriminate.
    intros He2. inversion He2; subst e2.
    exact (copyDirectoryRecursive_system_error _ _ _ _ _ E2).
Qed.

(** X18. [copySetupFiles] throws its own error exactly when the extension
    has no [setup] folder, before anything is written.  When the setup
    lies apart from the workspace and the call returns, the number it
    returns is the number of the three folders [.github], [.specify] and
    [.vscode] that the setup has (at most three, whatever the number of
    files copied), and nothing of the file system outside these three
    folders of the workspace has changed. *)
Theorem copySetupFiles_count_and_frame J (ops : json_ops J) fuel fs
        extensionPath workspacePath :
  Fs.apart (extensionPath ++ [js "setup"]) workspacePath ->
  (copySetupFiles sys J ops fuel fs extensionPath workspacePath
   = Fs.Throws Fs.SetupNotFound <->
   Fs.existsSync fs (extensionPath ++ [js "setup"]) = false) /\
  forall fs' copiedFiles shown,
    copySetupFiles sys J ops fuel fs extensionPath workspacePath
    = Fs.Done (fs', copiedFiles, shown) ->
    copiedFiles
    = length (filter (fun dir =>
                        Fs.existsSync fs (extensionPath ++ [js "setup"; dir]))
                     setup_directories) /\
    copiedFiles <= 3 /\
    forall q, Fs.apart (workspacePath ++ [js ".github"]) q ->
              Fs.apart (workspacePath ++ [js ".specify"]) q ->
              Fs.apart (workspacePath ++ [js ".vscode"]) q ->
              Fs.lookup fs' q = Fs.lookup fs q.
Proof.
  intros Ha. unfold copySetupFiles. split.
  - destruct (Fs.existsSync fs (extensionPath ++ [js "setup"])) eqn:E;
      cbn [negb]; [|tauto].
    split; [|discriminate]. intros H.
    now apply copy_setup_dirs_system_error in H.
  - intros fs' copiedFiles shown H.
    destruct (negb (Fs.existsSync fs (extensionPath ++ [js "setup"])));
      [discriminate|].
    destruct (copy_setup_dirs_spec J ops fuel _ _ Ha _ _ _ _ _ _ _ H)
      as [Hn Hf].
    assert (Hc : copiedFiles
                 = length (filter (fun dir =>
                     Fs.existsSync fs (extensionPath ++ [js "setup"; dir]))
                     setup_directories)).
    { rewrite Hn. rewrite Nat.add_0_l. apply f_equal. apply filter_ext.
      intros d. now rewrite <- app_assoc. }
    split; [exact Hc|]. split.
    + rewrite Hc. apply (filter_length_le _ setup_directories).
    + intros q H1 H2 H3. apply Hf.
      intros d [<-|[<-|[<-|[]]]]; assumption.
Qed.

(** X19. When the setup lies apart from the workspace and [copySetupFiles]
    returns, every file below the [.github] and the [.specify] folder of
    the setup is in the workspace under the same relative path and with
    the same content: what is copied first is not lost to what is copied
    after it. *)
Theorem setup_brings_every_file J (ops : json_ops J) fuel fs extensionPath
        workspacePath fs' copiedFiles shown dir rel content :
  Fs.apart (extensionPath ++ [js "setup"]) workspacePath ->
  copySetupFiles sys J ops fuel fs extensionPath workspacePath
  = Fs.Done (fs', copiedFiles, shown) ->
  dir = js ".github" \/ dir = js ".specify" ->
  Fs.lookup fs (extensionPath ++ js "setup" :: dir :: rel)
  = Some (Fs.File content) ->
  Fs.lookup fs' (workspacePath ++ dir :: rel) = Some (Fs.File content).
Proof.
  intros Ha H Hdir Hs. unfold copySetupFiles in H.
  destruct (negb (Fs.existsSync fs (extensionPath ++ [js "setup"])));
    [discriminate|].
  refine (copy_setup_dirs_present J ops fuel _ _ Ha setup_directories
            _ _ _ _ _ _ dir rel content H _ _ _ _).
  - unfold setup_directories.
    repeat constructor; simpl; intros Hin;
      repeat (destruct Hin as [Hin|Hin]; [discriminate|]); exact Hin.
  - destruct Hdir as [->| ->]; simpl; auto.
  - destruct Hdir as [->| ->]; discriminate.
  - rewrite <- app_assoc. exact Hs.
Qed.

(** X20. Of the [.vscode] folder only [settings.json] is taken:
    [copyVSCodeSettings] leaves every other path below the destination as
    it was, so no other file of the setup's [.vscode] folder reaches the
    workspace. *)
Theorem only_settings_file_changes J (ops : json_ops J) fs sourcePath
        destPath fs' shown name rel :
  copyVSCodeSettings sys J ops fs sourcePath destPath = Fs.Done (fs', shown) ->
  name <> js "settings.json" ->
  Fs.lookup fs' (destPath ++ name :: rel)
  = Fs.lookup fs (destPath ++ name :: rel).
Proof.
  unfold copyVSCodeSettings. intros H Hname.
  destruct (negb (Fs.existsSync fs (sourcePath ++ [js "settings.json"])));
    [now inversion H|].
  destruct (if Fs.existsSync fs destPath then Some fs
            else Fs.mkdirSync sys fs destPath) as [fs1|] eqn:E1; [|discriminate].
  assert (H1 : Fs.lookup fs1 (destPath ++ name :: rel)
               = Fs.lookup fs (destPath ++ name :: rel)).
  { destruct (Fs.existsSync fs destPath) eqn:Ed; [now inversion E1|].
    assert (Hn : Fs.lookup fs destPath = None)
      by (unfold Fs.existsSync in Ed; now destruct (Fs.lookup fs destPath)).
    rewrite !lookup_app, Hn, (mkdirSync_fresh _ _ _ Hn E1). reflexivity. }
  assert (Ha : Fs.apart (destPath ++ [js "settings.json"])
                        (destPath ++ name :: rel))
    by (apply apart_sibling_below; congruence).
  assert (Hcopy : forall fs2,
            Fs.copyFileSync sys fs1 (sourcePath ++ [js "settings.json"])
                            (destPath ++ [js "settings.json"]) = Some fs2 ->
            Fs.lookup fs2 (destPath ++ name :: rel)
            = Fs.lookup fs (destPath ++ name :: rel)).
  { intros fs2 Hc. now rewrite (copyFileSync_frame _ _ _ _ _ Hc Ha). }
  destruct (Fs.readFileSync sys fs1 (sourcePath ++ [js "settings.json"]))
    as [sc|]; [|discriminate].
  destruct (strip_parse ops sc) as [sj|].
  - destruct (Fs.existsSync fs1 (destPath ++ [js "settings.json"])).
    + destruct (Fs.readFileSync sys fs1 (destPath ++ [js "settings.json"]))
        as [dc|]; [|now inversion H; subst].
      destruct (JSON_parse ops dc) as [dj|]; [|now inversion H; subst].
      destruct (Fs.writeFileSync sys fs1 _ _) as [fs2|] eqn:Ew;
        [|now inversion H; subst].
      inversion H; subst.
      now rewrite (writeFileSync_frame _ _ _ _ _ Ew Ha).
    + destruct (Fs.copyFileSync sys fs1 _ _) as [fs2|] eqn:Ec; [|discriminate].
      inversion H; subst. now apply Hcopy.
  - destruct (Fs.copyFileSync sys fs1 _ _) as [fs2|] eqn:Ec; [|discriminate].
    inversion H; subst. now apply Hcopy.
Qed.

(** ** The view of a step's output *)

Lemma any_feature_has_true h specsPath step features :
  any_feature_has h specsPath step features = true <->
  exists feature,
    In feature features /\
    existsSync h (path_join h [specsPath; feature; output_name step feature])
    = true.
Proof.
  induction features as [|x rest IH]; simpl.
  - split; [discriminate|intros (f & [] & _)].
  - destruct (existsSync h (path_join h [specsPath; x; output_name step x]))
      eqn:E.
    + split; [|reflexivity]. intros _. exists x. auto.
    + rewrite IH. split.
      * intros (f & Hf & He). exists f. auto.
      * intros (f & [<-|Hf] & He); [congruence|]. exists f. auto.
Qed.

(** X21. The view of a step's output agrees with the status shown for the
    step.  When [viewWorkflowOutput] opens or reveals something, with the
    user's pick (if one is made) taken from the features offered, then
    [checkStepStatus] finds the step complete; and when the step is
    complete and no entry of [specs] has the empty name, there is a pick
    among the features offered with which something is opened. *)
Theorem view_agrees_with_status h folder step :
  workspaceFolder h = Some folder ->
  let specsPath := path_join h [folder; js "specs"] in
  let offered (pick : option jsstring) :=
    forall feature, pick = Some feature ->
      exists features,
        readdirSync h specsPath = Some features /\ In feature features in
  (forall pick effects command file,
     offered pick ->
     viewWorkflowOutput h step pick = Some effects ->
     In (ExecuteCommand command file) effects ->
     checkStepStatus h step folder = Some (js "complete")) /\
  ((forall features,
      readdirSync h specsPath = Some features -> ~ In [] features) ->
   checkStepStatus h step folder = Some (js "complete") ->
   exists pick effects command file,
     offered pick /\
     viewWorkflowOutput h step pick = Some effects /\
     In (ExecuteCommand command file) effects).
Proof.
  intros Hws specsPath offered.
  unfold viewWorkflowOutput, checkStepStatus. rewrite Hws.
  destruct (jsstring_eqb (Step.id step) (js "init")).
  { destruct (existsSync h (path_join h [folder; js ".specify"])); split.
    - reflexivity.
    - intros _ _. exists None. do 3 eexists.
      split; [intros f Hf; discriminate|].
      split; [reflexivity|]. left. reflexivity.
    - intros pick effects c f _ H Hin. inversion H; subst.
      destruct Hin as [Hin|[]]; discriminate.
    - intros _ H. discriminate. }
  destruct (jsstring_eqb (Step.id step) (js "constitution")).
  { destruct (existsSync h (path_join h [folder; Step.outputFile step]));
      split.
    - reflexivity.
    - intros _ _. exists None. do 3 eexists.
      split; [intros f Hf; discriminate|].
      split; [reflexivity|]. left. reflexivity.
    - intros pick effects c f _ H Hin. inversion H; subst.
      destruct Hin as [Hin|[]]; discriminate.
    - intros _ H. discriminate. }
  fold specsPath.
  destruct (existsSync h specsPath); cbn [negb].
  2:{ split.
      - intros pick effects c f _ H Hin. inversion H; subst.
        destruct Hin as [Hin|[]]; discriminate.
      - intros _ H. discriminate. }
  destruct (readdirSync h specsPath) as [features|] eqn:Hd.
  2:{ split; [discriminate|]. intros _ H. discriminate. }
  pose proof (any_feature_has_true h specsPath step features) as Hany.
  split.
  - intros pick effects c f Hoff H Hin.
    destruct (length features =? 0).
    { inversion H; subst. destruct Hin as [Hin|[]]; discriminate. }
    destruct pick as [[|x feature]|].
    + inversion H; subst. destruct Hin as [Hin|[]]; discriminate.
    + destruct (Hoff _ eq_refl) as (features' & Hf' & Hin').
      inversion Hf'; subst features'.
      match type of H with
      | (if ?b then _ else _) = _ => destruct b eqn:He
      end.
      * replace (any_feature_has h specsPath step features) with true;
          [reflexivity|].
        symmetry. apply Hany. exists (x :: feature). auto.
      * inversion H; subst. simpl in Hin.
        destruct Hin as [Hin|[Hin|[]]]; discriminate.
    + inversion H; subst. destruct Hin as [Hin|[]]; discriminate.
  - intros Hne H.
    destruct (any_feature_has h specsPath step features) eqn:Ea;
      [|discriminate].
    destruct (proj1 Hany eq_refl) as (feature & Hin & He).
    assert (Hlen : (length features =? 0) = false)
      by (destruct features; [destruct Hin|reflexivity]).
    rewrite Hlen.
    exists (Some feature).
    destruct feature as [|x feature]; [now apply Hne in Hin|].
    rewrite He. do 3 eexists.
    split; [|split; [reflexivity|right; left; reflexivity]].
    intros f Hf. inversion Hf; subst. eauto.
Qed.

(** ** Running a step *)

(** X22. For the steps 1 to 5 of the workflow view, [runWorkflowStep]
    leaves the disk alone, and what it puts on the clipboard is the command
    that [getWorkflowSteps] lists for the step, followed by a space and the
    text the user typed when the step asks for input and the text is not
    empty.  Nothing is put on the clipboard exactly when the step asks for
    input and the input box is dismissed. *)
Theorem clipboard_holds_listed_command J (ops : json_ops J) fuel
        system_message fs dirname workspaceFolder step answer choice
        chat_throws :
  In step workflow_steps ->
  Step.id step <> js "init" ->
  snd (runWorkflowStep sys J ops fuel system_message fs dirname workspaceFolder
                       step answer choice chat_throws) = Fs.Done fs /\
  forall text,
    In (ClipboardWriteText text)
       (fst (runWorkflowStep sys J ops fuel system_message fs dirname
                             workspaceFolder step answer choice chat_throws))
    <->
    exists userInput,
      (if Step.needsInput step then answer else Some []) = Some userInput /\
      text = Step.command step ++
             match userInput with
             | [] => []
             | _ => js " " ++ userInput
             end.
Proof.
  intros Hin Hid. unfold workflow_steps in Hin. simpl in Hin.
  destruct Hin as [<-|[<-|[<-|[<-|[<-|[<-|[]]]]]]];
    [now exfalso; apply Hid| | | | |];
    clear Hid; unfold runWorkflowStep, full_prompt, step_is;
    cbn [Step.id Step.needsInput Step.command Step.inputPrompt andb negb];
    repeat match goal with
           | |- context [jsstring_eqb (js ?a) (js ?b)] =>
               let v := eval vm_compute in (jsstring_eqb (js a) (js b)) in
               change (jsstring_eqb (js a) (js b)) with v
           end;
    cbn [andb negb orb];
    destruct answer as [[|u us]|];
    cbn [fst snd app];
    (split; [reflexivity|]);
    intros text;
    (split;
     [ intros H; apply in_app_or in H || idtac
     | intros (userInput & Hu & ->) ]).
  all: try (inversion Hu; subst; clear Hu).
  all: try discriminate.
  all: try (rewrite ?app_nil_r; simpl; tauto).
  all: try (simpl in H;
            repeat match goal with
                   | H : _ \/ _ |- _ => destruct H as [H|H]
                   | H : False |- _ => destruct H
                   | H : In _ (if ?b then _ else _) |- _ => destruct b
                   | H : In _ (_ :: _) |- _ => destruct H as [H|H]
                   | H : In _ [] |- _ => destruct H
                   end;
            first [ discriminate
                  | inversion H; subst; eexists;
                    (split; [reflexivity|]);
                    rewrite ?app_nil_r; reflexivity ]).
Qed.

(** ** Initializing *)

Lemma copySetupFiles_present J (ops : json_ops J) fuel fs extensionPath
      workspacePath fs' copiedFiles shown dir rel content :
  Fs.apart (extensionPath ++ [js "setup"]) workspacePath ->
  copySetupFiles sys J ops fuel fs extensionPath workspacePath
  = Fs.Done (fs', copiedFiles, shown) ->
  dir = js ".github" \/ dir = js ".specify" ->
  Fs.lookup fs (extensionPath ++ js "setup" :: dir :: rel)
  = Some (Fs.File content) ->
  Fs.lookup fs' (workspacePath ++ dir :: rel) = Some (Fs.File content).
Proof.
  intros Ha H Hdir Hs. unfold copySetupFiles in H.
  destruct (negb (Fs.existsSync fs (extensionPath ++ [js "setup"])));
    [discriminate|].
  refine (copy_setup_dirs_present J ops fuel _ _ Ha setup_directories
            _ _ _ _ _ _ dir rel content H _ _ _ _).
  - unfold setup_directories.
    repeat constructor; simpl; intros Hin;
      repeat (destruct Hin as [Hin|Hin]; [discriminate|]); exact Hin.
  - destruct Hdir as [->| ->]; simpl; auto.
  - destruct Hdir as [->| ->]; discriminate.
  - rewrite <- app_assoc. exact Hs.
Qed.

(** X23. The step [init] never throws and asks for no input.  It leaves
    the disk as it is when no workspace folder is open, and when the
    workspace has a [.specify] folder already and the user does not press
    "Reinitialize".  Whenever it reports success, with the setup apart
    from the workspace, the copy has ended well and every file below the
    [.github] and the [.specify] folder of the setup is in the workspace;
    an error of the copy is shown as a failure, never as success. *)
Theorem init_reports_what_it_did J (ops : json_ops J) fuel system_message
        fs dirname workspaceFolder step answer choice chat_throws :
  Step.id step = js "init" ->
  let run := runWorkflowStep sys J ops fuel system_message fs dirname
                             workspaceFolder step answer choice chat_throws in
  (match workspaceFolder with
   | None => True
   | Some fsPath =>
       Fs.existsSync fs (fsPath ++ [js ".specify"]) = true /\
       choice <> Some (js "Reinitialize")
   end ->
   snd run = Fs.Done fs /\ ~ In initializing_message (fst run)) /\
  (forall e, snd run = Fs.Throws e ->
             In (failed_message (error_message system_message e)) (fst run) /\
             ~ In initialized_message (fst run)) /\
  (In initialized_message (fst run) ->
   exists fsPath fs',
     workspaceFolder = Some fsPath /\ snd run = Fs.Done fs' /\
     (Fs.apart (dirname ++ [js "setup"]) fsPath ->
      forall dir rel content,
        dir = js ".github" \/ dir = js ".specify" ->
        Fs.lookup fs (dirname ++ js "setup" :: dir :: rel)
        = Some (Fs.File content) ->
        Fs.lookup fs' (fsPath ++ dir :: rel) = Some (Fs.File content))).
Proof.
  intros Hid run. subst run. unfold runWorkflowStep, step_is. rewrite Hid.
  change (jsstring_eqb (js "init") (js "init")) with true.
  rewrite andb_false_r. cbn [negb app fst snd].
  unfold run_init.
  destruct workspaceFolder as [fsPath|].
  2:{ cbn [fst snd]. split; [|split].
      - intros _. split; [reflexivity|].
        intros [H|[]]; discriminate.
      - intros e H. discriminate.
      - intros [H|[]]; discriminate. }
  assert (Hre : jsstring_eqb (match choice with Some c => c | None => [] end)
                             (js "Reinitialize") = true ->
                choice = Some (js "Reinitialize")).
  { intros H. apply jsstring_eqb_eq in H.
    destruct choice; [now subst|discriminate]. }
  pose proof (copySetupFiles_present J ops fuel fs dirname fsPath) as Hp.
  destruct (copySetupFiles sys J ops fuel fs dirname fsPath)
    as [[[fs' n] shown]|e|];
    destruct (Fs.existsSync fs (fsPath ++ [js ".specify"]));
    try destruct (jsstring_eqb (match choice with Some c => c | None => [] end)
                               (js "Open .specify/"));
    try destruct (jsstring_eqb (match choice with Some c => c | None => [] end)
                               (js "Reinitialize"));
    cbn [fst snd];
    (split; [|split]);
    try (intros [Ht Hc]; first [discriminate | now exfalso; auto]);
    try (intros e0 He0; discriminate);
    try (intros _; split; [reflexivity|];
         intros Hin; simpl in Hin;
         repeat destruct Hin as [Hin|Hin];
         try contradiction; vm_compute in Hin; discriminate);
    try (intros e0 He0; inversion He0; subst e0; split;
         [simpl; tauto|];
         intros Hin; simpl in Hin;
         repeat destruct Hin as [Hin|Hin];
         try contradiction; vm_compute in Hin; discriminate);
    try (intros Hin; exfalso; simpl in Hin;
         repeat destruct Hin as [Hin|Hin];
         try contradiction; vm_compute in Hin; discriminate);
    try (intros _; exists fsPath, fs';
         split; [reflexivity|]; split; [reflexivity|];
         intros Ha dir rel content Hdir Hl;
         exact (Hp fs' n shown dir rel content Ha eq_refl Hdir Hl)).
Qed.

End Disk.

(** ** The examples *)

Lemma example_disk_copy :
  Fs.copyDirectoryRecursive Fs.permissive 3 example_disk
    [js "ext"; js "setup"; js ".github"] [js "ws"; js ".github"] =
  Fs.Done example_disk_after_copy.
Proof. vm_compute. reflexivity. Qed.

Lemma copy_touches_destination_only_witness :
  Fs.lookup example_disk_after_copy [js "ws"; js "src"; js "main.js"] =
  Fs.lookup example_disk [js "ws"; js "src"; js "main.js"].
Proof.
  apply (copy_touches_destination_only Fs.permissive 3 example_disk
           [js "ext"; js "setup"; js ".github"] [js "ws"; js ".github"]).
  - exact example_disk_copy.
  - apply apart_cons. right. apply apart_cons. left. discriminate.
Defined.

Lemma copy_brings_every_file_witness :
  Fs.lookup example_disk_after_copy
    ([js "ws"; js ".github"] ++ [js "agents"; js "plan.md"])
  = Some (Fs.File (js "plan agent")) /\
  Fs.lookup example_disk_after_copy
    ([js "ext"; js "setup"; js ".github"] ++ [js "agents"; js "plan.md"])
  = Some (Fs.File (js "plan agent")).
Proof.
  apply (copy_brings_every_file Fs.permissive 3 example_disk
           [js "ext"; js "setup"; js ".github"] [js "ws"; js ".github"]).
  - exact example_disk_copy.
  - apply apart_cons. left. discriminate.
  - reflexivity.
Defined.

Lemma copy_keeps_other_files_witness :
  Fs.lookup example_disk_after_copy
    ([js "ws"; js ".github"] ++ [js "own.md"])
  = Some (Fs.File (js "mine")).
Proof.
  apply (copy_keeps_other_files Fs.permissive 3 example_disk
           [js "ext"; js "setup"; js ".github"] [js "ws"; js ".github"]).
  - exact example_disk_copy.
  - apply apart_cons. left. discriminate.
  - reflexivity.
  - intros c. discriminate.
Defined.

Lemma copy_into_new_folder_succeeds_witness :
  exists fs',
    Fs.copyDirectoryRecursive read_only_settings 3 example_disk
      [js "ext"; js "setup"; js ".specify"] [js "ws"; js ".specify"]
    = Fs.Done fs' /\
    forall rel content,
      Fs.lookup example_disk ([js "ext"; js "setup"; js ".specify"] ++ rel)
        = Some (Fs.File content) ->
      Fs.lookup fs' ([js "ws"; js ".specify"] ++ rel)
        = Some (Fs.File content).
Proof.
  apply (copy_into_new_folder_succeeds read_only_settings 3 example_disk
           [js "ext"; js "setup"; js ".specify"] [js "ws"; js ".specify"]
           [ (js "templates", Fs.Folder []);
             (js "memory",
              Fs.Folder [ (js "constitution.md", Fs.File []) ]) ]).
  - intros disk c Hc. destruct c; try reflexivity. destruct Hc.
  - reflexivity.
  - simpl. repeat split; repeat constructor; simpl; intuition discriminate.
  - apply apart_cons. left. discriminate.
  - reflexivity.
  - discriminate.
  - simpl. lia.
Defined.

Lemma settings_copied_verbatim_witness :
  exists fs',
    copyVSCodeSettings Fs.permissive toy_object toy_json example_disk
      [js "ext"; js "setup"; js ".vscode"] [js "ws"; js ".vscode"]
    = Fs.Done (fs', []) /\
    Fs.content fs' ([js "ws"; js ".vscode"] ++ [js "settings.json"])
    = Some setup_settings.
Proof.
  destruct (copyVSCodeSettings Fs.permissive toy_object toy_json example_disk
              [js "ext"; js "setup"; js ".vscode"] [js "ws"; js ".vscode"])
    as [[fs' shown]| |] eqn:E; try (vm_compute in E; discriminate).
  assert (Hs : Fs.content example_disk
                 ([js "ext"; js "setup"; js ".vscode"] ++ [js "settings.json"])
               = Some setup_settings) by reflexivity.
  assert (Hd : Fs.existsSync example_disk
                 ([js "ws"; js ".vscode"] ++ [js "settings.json"]) = false)
    by reflexivity.
  destruct (settings_copied_verbatim Fs.permissive toy_object toy_json
              example_disk
              [js "ext"; js "setup"; js ".vscode"] [js "ws"; js ".vscode"]
              setup_settings fs' shown Hs (or_introl Hd) E)
    as [Hr ->].
  exists fs'. split; [reflexivity|exact Hr].
Defined.


Lemma copySetupFiles_count_and_frame_witness :
  exists fs' shown,
    copySetupFiles Fs.permissive toy_object toy_json 3 example_disk [js "ext"] [js "ws"]
    = Fs.Done (fs', 3, shown) /\
    Fs.lookup fs' [js "ws"; js "src"; js "main.js"]
    = Fs.lookup example_disk [js "ws"; js "src"; js "main.js"].
Proof.
  assert (Ha : Fs.apart ([js "ext"] ++ [js "setup"]) [js "ws"])
    by (apply apart_cons; left; discriminate).
  destruct (copySetupFiles Fs.permissive toy_object toy_json 3 example_disk
              [js "ext"] [js "ws"]) as [[[fs' n] shown]| |] eqn:E;
    try (vm_compute in E; discriminate).
  destruct (proj2 (copySetupFiles_count_and_frame Fs.permissive toy_object toy_json 3
                     example_disk [js "ext"] [js "ws"] Ha) fs' n shown E)
    as (Hc & _ & Hf).
  vm_compute in Hc. subst n. exists fs', shown. split; [reflexivity|].
  apply Hf; apply apart_cons; right; apply apart_cons; left; discriminate.
Defined.

Lemma setup_brings_every_file_witness :
  exists fs' shown,
    copySetupFiles Fs.permissive toy_object toy_json 3 example_disk [js "ext"] [js "ws"]
    = Fs.Done (fs', 3, shown) /\
    Fs.lookup fs' ([js "ws"] ++ [js ".github"; js "agents"; js "plan.md"])
    = Some (Fs.File (js "plan agent")).
Proof.
  assert (Ha : Fs.apart ([js "ext"] ++ [js "setup"]) [js "ws"])
    by (apply apart_cons; left; discriminate).
  destruct (copySetupFiles Fs.permissive toy_object toy_json 3 example_disk
              [js "ext"] [js "ws"]) as [[[fs' n] shown]| |] eqn:E;
    try (vm_compute in E; discriminate).
  pose proof (setup_brings_every_file Fs.permissive toy_object toy_json 3 example_disk
                [js "ext"] [js "ws"] fs' n shown (js ".github")
                [js "agents"; js "plan.md"] (js "plan agent")
                Ha E (or_introl eq_refl) eq_refl) as Hp.
  assert (Hn : n = 3).
  { vm_compute in E. now inversion E. }
  subst n. exists fs', shown. split; [reflexivity|exact Hp].
Defined.

Lemma only_settings_file_changes_witness :
  exists fs' shown,
    copyVSCodeSettings Fs.permissive toy_object toy_json example_disk
      [js "ext"; js "setup"; js ".vscode"] [js "ws"]
    = Fs.Done (fs', shown) /\
    Fs.content fs' [js "ws"; js "settings.json"]
    = Some setup_settings /\
    Fs.lookup fs' ([js "ws"] ++ [js "src"; js "main.js"])
    = Some (Fs.File (js "code")).
Proof.
  destruct (copyVSCodeSettings Fs.permissive toy_object toy_json example_disk
              [js "ext"; js "setup"; js ".vscode"] [js "ws"])
    as [[fs' shown]| |] eqn:E; try (vm_compute in E; discriminate).
  exists fs', shown. split; [reflexivity|]. split.
  - vm_compute in E. inversion E. reflexivity.
  - rewrite (only_settings_file_changes Fs.permissive toy_object toy_json example_disk
               [js "ext"; js "setup"; js ".vscode"] [js "ws"]
               fs' shown (js "src") [js "main.js"] E);
      [reflexivity|discriminate].
Defined.

Lemma view_agrees_with_status_witness :
  viewWorkflowOutput example_host
    (nth 4 workflow_steps (nth 0 workflow_steps
      {| Step.id := []; Step.label := []; Step.description := [];
         Step.command := []; Step.outputFile := []; Step.icon := [];
         Step.needsInput := false; Step.inputPrompt := None |}))
    (Some (js "001-calc"))
  = Some [ShowQuickPick [js "001-calc"; js "002-empty"]
                        (js "Select feature to view");
          ExecuteCommand (js "vscode.open")
                         (js "/ws/specs/001-calc/tasks.md")] /\
  checkStepStatus example_host
    (nth 4 workflow_steps (nth 0 workflow_steps
      {| Step.id := []; Step.label := []; Step.description := [];
         Step.command := []; Step.outputFile := []; Step.icon := [];
         Step.needsInput := false; Step.inputPrompt := None |}))
    (js "/ws")
  = Some (js "complete").
Proof.
  split; [vm_compute; reflexivity|].
  apply (proj1 (view_agrees_with_status example_host (js "/ws") _ eq_refl)
           (Some (js "001-calc"))
           [ShowQuickPick [js "001-calc"; js "002-empty"]
                          (js "Select feature to view");
            ExecuteCommand (js "vscode.open")
                           (js "/ws/specs/001-calc/tasks.md")]
           (js "vscode.open") (js "/ws/specs/001-calc/tasks.md")).
  - intros feature Hf. inversion Hf; subst.
    exists [js "001-calc"; js "002-empty"]. split; [reflexivity|].
    left. reflexivity.
  - vm_compute. reflexivity.
  - right. left. reflexivity.
Defined.

Lemma clipboard_holds_listed_command_witness :
  In (ClipboardWriteText (js "/speckit.specify a photo album"))
     (fst (runWorkflowStep Fs.permissive toy_object toy_json 3 [] example_disk [js "ext"]
             (Some [js "ws"])
             {| Step.id := js "specify";
                Step.label := js "2. Specification";
                Step.description := js "User stories & requirements";
                Step.command := js "/speckit.specify";
                Step.outputFile := js "specs/[feature]/spec.md";
                Step.icon := js "list-unordered";
                Step.needsInput := true;
                Step.inputPrompt :=
                  Some (js "Describe what to build (optional - press Enter to skip)") |}
             (Some (js "a photo album")) (Some (js "Done")) false)).
Proof.
  refine (proj2 (proj2 (clipboard_holds_listed_command Fs.permissive toy_object toy_json 3 []
                          example_disk [js "ext"] (Some [js "ws"]) _
                          (Some (js "a photo album")) (Some (js "Done"))
                          false _ _) _) _).
  - simpl. do 2 right. left. reflexivity.
  - discriminate.
  - exists (js "a photo album"). split; reflexivity.
Defined.

Lemma init_reports_what_it_did_witness :
  exists fs',
    snd (runWorkflowStep Fs.permissive toy_object toy_json 3 [] example_disk [js "ext"]
           (Some [js "ws"])
           {| Step.id := js "init";
              Step.label := js "0. Initialize Spec-Kit";
              Step.description := js "Copy setup files to workspace";
              Step.command := js "copySetupFiles";
              Step.outputFile := js ".specify/";
              Step.icon := js "rocket";
              Step.needsInput := false;
              Step.inputPrompt := None |}
           None None false) = Fs.Done fs' /\
    Fs.lookup fs' ([js "ws"] ++
                   [js ".specify"; js "memory"; js "constitution.md"])
    = Some (Fs.File []).
Proof.
  pose (st := {| Step.id := js "init";
                 Step.label := js "0. Initialize Spec-Kit";
                 Step.description := js "Copy setup files to workspace";
                 Step.command := js "copySetupFiles";
                 Step.outputFile := js ".specify/";
                 Step.icon := js "rocket";
                 Step.needsInput := false;
                 Step.inputPrompt := None |}).
  assert (Hid : Step.id st = js "init") by reflexivity.
  pose proof (init_reports_what_it_did Fs.permissive toy_object toy_json 3 []
                example_disk [js "ext"] (Some [js "ws"]) st
                None None false Hid) as H.
  cbv zeta in H.
  destruct H as (_ & _ & H).
  match type of H with
  | ?P -> _ => assert (Hin : P) by (vm_compute; right; left; reflexivity)
  end.
  destruct (H Hin) as (fsPath & fs' & Hw & Hs & Hf).
  inversion Hw; subst fsPath. exists fs'. split; [exact Hs|].
  assert (Ha : Fs.apart ([js "ext"] ++ [js "setup"]) [js "ws"])
    by (apply apart_cons; left; discriminate).
  assert (Hl : Fs.lookup example_disk
                 ([js "ext"] ++ js "setup" :: js ".specify" ::
                  [js "memory"; js "constitution.md"])
               = Some (Fs.File [])) by (vm_compute; reflexivity).
  exact (Hf Ha (js ".specify") [js "memory"; js "constitution.md"] []
                (or_intror (eq_refl (js ".specify"))) Hl).
Defined.
